(** * The world-graph simulation engine of nex, embedded in Rocq

    The engine is JavaScript.  Its numbers are modelled as real numbers
    ([R], with [exp] for [Math.exp]); cycle counters, which the code only
    ever increments from 0, are integers ([Z]).  JavaScript strings are
    [string].  Objects that the code mutates in place (rooms, entities, the
    world state) are records that are passed along and returned; an array of
    room objects is a [list] whose positions stand for the distinct objects.
    [Math.random()] is an oracle [rand] from the number of the draw to its
    result, read through a counter that is threaded through the calls;
    [Date.now()] is an argument [now]. *)

From Stdlib Require Import Reals Lra Lia ZArith String Ascii List Permutation Sorted.
From stdpp Require Import base option list sets gmap strings.


(** ** Numbers *)

Module Num.
Local Open Scope R_scope.

(** The comparisons [a >= b], [a > b], [a < b], [a <= b] of the source. *)
Definition geb (a b : R) : bool := if Rle_dec b a then true else false.
Definition gtb (a b : R) : bool := if Rlt_dec b a then true else false.
Definition ltb (a b : R) : bool := if Rlt_dec a b then true else false.
Definition leb (a b : R) : bool := if Rle_dec a b then true else false.

(** [Math.floor(x)]. *)
Definition floor (x : R) : Z := Int_part x.

(** [Math.floor(u * m)] as an array index. *)
Definition random_index (u : R) (m : nat) : nat := Z.to_nat (floor (u * INR m)).
End Num.

(** ** Data model

    The records follow the object shapes of [rooms.js], [prune.js],
    [entities.js] and [topology.js].  Each lives in a module of its own, so
    that the fields keep the names of the source ([Room.id], [Corridor.from],
    ...).  The fields [number] and [source] of a room are never read by the
    engine and are left out. *)

Module Entropy.
Record t : Type := mk { score : R; halfLife : R; createdAt : R }.
Definition with_score (s : R) (e : t) : t := mk s (halfLife e) (createdAt e).
End Entropy.

Module Dimensions.
Record t : Type := mk { width : R; height : R; depth : R }.
End Dimensions.

Module Archetype.
Record t : Type := mk { wallTexture : string; lightColor : string; ambience : string }.
Definition with_lightColor (c : string) (a : t) : t := mk (wallTexture a) c (ambience a).
End Archetype.

Module Fragments.
Record t : Type := mk { sentences : list string; words : list string; raw : string }.
Definition with_sentences (ss : list string) (f : t) : t := mk ss (words f) (raw f).
End Fragments.

Module Trace.
Record t : Type := mk { from : string; topic : string; echo : string; absorbedAt : R }.
End Trace.

Module Room.
(** [traces], [commentary], [lastRefreshedCycle] and [_addedCycle] are
    absent ([undefined]) on a room until the code first assigns them.  Every
    room has its [entropy] and [fragments]: [generateRoom] sets them, and
    [tick] reads [room.entropy] unguarded. *)
Record t : Type := mk {
  id : string;
  name : string;
  topic : string;
  archetype : Archetype.t;
  dimensions : Dimensions.t;
  sentiment : R;
  virality : R;
  entropy : Entropy.t;
  fragments : Fragments.t;
  commentary : option string;
  connections : list string;
  position : R * R;
  traces : option (list Trace.t);
  lastRefreshedCycle : option Z;
  _addedCycle : option Z
}.

Definition score (r : t) : R := Entropy.score (entropy r).

Definition with_entropy (e : Entropy.t) (r : t) : t :=
  mk (id r) (name r) (topic r) (archetype r) (dimensions r) (sentiment r) (virality r)
     e (fragments r) (commentary r) (connections r) (position r) (traces r)
     (lastRefreshedCycle r) (_addedCycle r).
Definition with_score (s : R) (r : t) : t :=
  with_entropy (Entropy.with_score s (entropy r)) r.
Definition with_archetype (a : Archetype.t) (r : t) : t :=
  mk (id r) (name r) (topic r) a (dimensions r) (sentiment r) (virality r)
     (entropy r) (fragments r) (commentary r) (connections r) (position r) (traces r)
     (lastRefreshedCycle r) (_addedCycle r).
Definition with_dimensions (d : Dimensions.t) (r : t) : t :=
  mk (id r) (name r) (topic r) (archetype r) d (sentiment r) (virality r)
     (entropy r) (fragments r) (commentary r) (connections r) (position r) (traces r)
     (lastRefreshedCycle r) (_addedCycle r).
Definition with_fragments (f : Fragments.t) (r : t) : t :=
  mk (id r) (name r) (topic r) (archetype r) (dimensions r) (sentiment r) (virality r)
     (entropy r) f (commentary r) (connections r) (position r) (traces r)
     (lastRefreshedCycle r) (_addedCycle r).
Definition with_connections (c : list string) (r : t) : t :=
  mk (id r) (name r) (topic r) (archetype r) (dimensions r) (sentiment r) (virality r)
     (entropy r) (fragments r) (commentary r) c (position r) (traces r)
     (lastRefreshedCycle r) (_addedCycle r).
Definition with_commentary (c : option string) (r : t) : t :=
  mk (id r) (name r) (topic r) (archetype r) (dimensions r) (sentiment r) (virality r)
     (entropy r) (fragments r) c (connections r) (position r) (traces r)
     (lastRefreshedCycle r) (_addedCycle r).
Definition with_position (p : R * R) (r : t) : t :=
  mk (id r) (name r) (topic r) (archetype r) (dimensions r) (sentiment r) (virality r)
     (entropy r) (fragments r) (commentary r) (connections r) p (traces r)
     (lastRefreshedCycle r) (_addedCycle r).
Definition with_traces (ts : option (list Trace.t)) (r : t) : t :=
  mk (id r) (name r) (topic r) (archetype r) (dimensions r) (sentiment r) (virality r)
     (entropy r) (fragments r) (commentary r) (connections r) (position r) ts
     (lastRefreshedCycle r) (_addedCycle r).
Definition with_lastRefreshedCycle (c : option Z) (r : t) : t :=
  mk (id r) (name r) (topic r) (archetype r) (dimensions r) (sentiment r) (virality r)
     (entropy r) (fragments r) (commentary r) (connections r) (position r) (traces r)
     c (_addedCycle r).
Definition with_addedCycle (c : option Z) (r : t) : t :=
  mk (id r) (name r) (topic r) (archetype r) (dimensions r) (sentiment r) (virality r)
     (entropy r) (fragments r) (commentary r) (connections r) (position r) (traces r)
     (lastRefreshedCycle r) c.
End Room.

(** A small room for the concrete instances below: fresh, as [rooms.js]
    builds it, with the given id, topic, sentiment, virality and entropy. *)
Definition sample_room (i tp : string) (s v : R) (e : Entropy.t) : Room.t :=
  Room.mk i "Hallway 7B" tp
    (Archetype.mk "yellow_wallpaper" "#ffcc44" "fluorescent_buzz")
    (Dimensions.mk 3 3 3) s v e
    (Fragments.mk [] [] "") None [] (0%R, 0%R) None None None.

(** ** DecayEngine ([decay.js]) *)

Module DecayEngine.
Local Open Scope R_scope.

Section Effects.
(** [Math.random()], and the two helpers of [applyEffects] that touch
    text and colour only: [scrambleText] (which draws random numbers,
    hence the counter) and [dimColor]. *)
Variable rand : nat -> R.
Variable scrambleText : string -> R -> nat -> string * nat.
Variable dimColor : string -> R -> string.

(** [1 - Math.exp(-0.693 * elapsed / room.entropy.halfLife)] with
    [elapsed = (now - room.entropy.createdAt) / 1000]. *)
Definition decay (now : R) (room : Room.t) : R :=
  let elapsed := (now - Entropy.createdAt (Room.entropy room)) / 1000 in
  1 - exp (- 0.693 * elapsed / Entropy.halfLife (Room.entropy room)).

(** The write [room.entropy.score = Math.min(1, decay)]. *)
Definition tick_room (now : R) (room : Room.t) : Room.t :=
  Room.with_score (Rmin 1 (decay now room)) room.

Record TickResult : Type := mkTick {
  active : list Room.t;
  decayed : list Room.t;
  collapsed : list Room.t
    }.

Fixpoint tick (rooms : list Room.t) (now : R) : TickResult :=
  match rooms with
  | [] => mkTick [] [] []
  | room :: rest =>
      let room' := tick_room now room in
      let res := tick rest now in
      if Num.geb (Room.score room') 1 then
        mkTick (active res) (decayed res) (room' :: collapsed res)
      else if Num.geb (Room.score room') 0.7 then
        mkTick (active res) (room' :: decayed res) (collapsed res)
      else
        mkTick (room' :: active res) (decayed res) (collapsed res)
  end.

(** [sentences.map(s => scrambleText(s, e))], left to right. *)
Fixpoint scramble_all (ss : list string) (e : R) (n : nat) : list string * nat :=
  match ss with
  | [] => ([], n)
  | s :: rest =>
      let '(s', n1) := scrambleText s e n in
      let '(rest', n2) := scramble_all rest e n1 in
      (s' :: rest', n2)
  end.

(** The factor [1 + (Math.random() - 0.5) * e * 0.4]. *)
Definition warp_of (u e : R) : R := 1 + (u - 0.5) * e * 0.4.

(** [width *= warp; height *= (2 - warp)]. *)
Definition warp_dimensions (warp : R) (d : Dimensions.t) : Dimensions.t :=
  Dimensions.mk (Dimensions.width d * warp) (Dimensions.height d * (2 - warp))
                (Dimensions.depth d).

(** The body of the loop of [applyEffects]; [n] counts the random draws. *)
Definition scramble_step (room : Room.t) (n : nat) : Room.t * nat :=
  let e := Room.score room in
  if Num.gtb e 0.3 then
    let '(ss, n') := scramble_all (Fragments.sentences (Room.fragments room)) e n in
    (Room.with_fragments (Fragments.with_sentences ss (Room.fragments room)) room, n')
  else (room, n).

Definition dim_step (e : R) (room : Room.t) : Room.t :=
  if Num.gtb e 0.5 then
    Room.with_archetype
      (Archetype.with_lightColor
         (dimColor (Archetype.lightColor (Room.archetype room)) e)
         (Room.archetype room)) room
  else room.

Definition warp_step (e : R) (room : Room.t) (n : nat) : Room.t * nat :=
  if Num.gtb e 0.6 then
    (Room.with_dimensions (warp_dimensions (warp_of (rand n) e) (Room.dimensions room)) room,
     S n)
  else (room, n).

Definition applyEffects_room (room : Room.t) (n : nat) : Room.t * nat :=
  let e := Room.score room in
  let '(room1, n1) := scramble_step room n in
  warp_step e (dim_step e room1) n1.

Fixpoint applyEffects (rooms : list Room.t) (n : nat) : list Room.t * nat :=
  match rooms with
  | [] => ([], n)
  | room :: rest =>
      let '(room', n1) := applyEffects_room room n in
      let '(rest', n2) := applyEffects rest n1 in
      (room' :: rest', n2)
  end.
End Effects.

(** The artifact of [harvestFragments]. *)
Record Artifact : Type := mkArtifact {
  sourceRoom : string;
  sourceTopic : string;
  art_fragments : list string;
  art_sentiment : R;
  collapsedAt : R
  }.

Definition harvestFragments (room : Room.t) (now : R) : Artifact :=
  mkArtifact (Room.id room) (Room.topic room)
    (take 3 (Fragments.words (Room.fragments room)))
    (Room.sentiment room) now.
End DecayEngine.

(** ** TopologyEngine *)

Module Corridor.
Record t : Type := mk {
  id : string;
  from : string;
  to : string;
  similarity : R;
  width : R;
  length : R;
  decay : R
}.
End Corridor.

(** What both versions of the engine share: the similarity score, the corridor
    record that is pushed, and the push on a room's connections. *)
Module Topology.
Local Open Scope R_scope.

(** [similarity(roomA, roomB)]. *)
Definition similarity (roomA roomB : Room.t) : R :=
  let score := 0 in
  let score :=
    if String.eqb (Room.topic roomA) (Room.topic roomB) then score + 0.5 else score in
  let sentDiff := Rabs (Room.sentiment roomA - Room.sentiment roomB) in
  let score := score + (1 - sentDiff) * 0.3 in
  let virDiff := Rabs (Room.virality roomA - Room.virality roomB) in
  let score := score + Rmax 0 (1 - virDiff / 5) * 0.2 in
  score.

(** The object literal pushed on [corridors]. *)
Definition corridor_of (a b : Room.t) (sim : R) : Corridor.t :=
  Corridor.mk ("corridor_" +:+ Room.id a +:+ "_" +:+ Room.id b)
    (Room.id a) (Room.id b) sim (1 + sim * 3) (Rmax 2 ((1 - sim) * 10)) 0.

(** [room.connections.push(x)]. *)
Definition push_connection (x : string) (room : Room.t) : Room.t :=
  Room.with_connections (Room.connections room ++ [x]) room.

(** The running best of the connectivity pass: [bestSim] and [bestRoom]
    (a position in [rooms], or [null]). *)
Definition Best : Type := R * option nat.

(** One turn of [for (const other of candidates)] in the connectivity pass,
    for the room object at position [room]. *)
Definition best_step (rooms : list Room.t) (room : nat) (best : Best) (other : nat) : Best :=
  match rooms !! room, rooms !! other with
  | Some r, Some o =>
      if String.eqb (Room.id o) (Room.id r) then best
      else
        let sim := similarity r o in
        if Num.gtb sim (fst best) then (sim, Some other) else best
  | _, _ => best
  end.

Definition best_candidate (rooms : list Room.t) (room : nat) (candidates : list nat) : Best :=
  fold_left (best_step rooms room) candidates (-1, None).
End Topology.

(** *** The engine of [world.js]: corridors by topic group

    The state of one run of [generateCorridors].  A room object is named by
    its position in [rooms]; [byTopic] is the [Map] from topic to the array of
    the room objects of that topic, in insertion order; [corridorSet] holds
    the canonical pair keys; [shuffles] counts the in-place random sorts. *)
Module TopologyEngine.
Import Topology.
Local Open Scope R_scope.

Record Gen : Type := mkGen {
  rooms : list Room.t;
  corridors : list Corridor.t;
  corridorSet : gset string;
  byTopic : list (string * list nat);
  shuffles : nat
}.

(** [a.id < b.id ? `${a.id}|${b.id}` : `${b.id}|${a.id}`]. *)
Definition pair_key (a b : string) : string :=
  if String.ltb a b then a +:+ "|" +:+ b else b +:+ "|" +:+ a.

(** The closure [addCorridor(a, b, sim)].  Positions handed to it always
    name rooms; for others nothing is done. *)
Definition addCorridor (st : Gen) (a b : nat) (sim : R) : Gen :=
  match rooms st !! a, rooms st !! b with
  | Some ra, Some rb =>
      let key := pair_key (Room.id ra) (Room.id rb) in
      if decide (key ∈ corridorSet st) then st
      else
        mkGen
          (alter (push_connection (Room.id ra)) b
             (alter (push_connection (Room.id rb)) a (rooms st)))
          (corridors st ++ [corridor_of ra rb sim])
          ({[ key ]} ∪ corridorSet st)
          (byTopic st)
          (shuffles st)
  | _, _ => st
  end.

(** [byTopic.get(topic).push(room)], creating the group when it is missing. *)
Fixpoint group_push (topic : string) (room : nat) (m : list (string * list nat))
  : list (string * list nat) :=
  match m with
  | [] => [(topic, [room])]
  | (t, g) :: rest =>
      if String.eqb t topic then (t, g ++ [room]) :: rest
      else (t, g) :: group_push topic room rest
  end.

Fixpoint group_get (topic : string) (m : list (string * list nat)) : option (list nat) :=
  match m with
  | [] => None
  | (t, g) :: rest => if String.eqb t topic then Some g else group_get topic rest
  end.

(** The array of a group replaced by [g'] (an in-place sort of that array). *)
Fixpoint group_set (topic : string) (g' : list nat) (m : list (string * list nat))
  : list (string * list nat) :=
  match m with
  | [] => []
  | (t, g) :: rest =>
      if String.eqb t topic then (t, g') :: rest
      else (t, g) :: group_set topic g' rest
  end.

(** The grouping loop, over the rooms from position [i] on. *)
Fixpoint group_rooms (i : nat) (rs : list Room.t) (m : list (string * list nat))
  : list (string * list nat) :=
  match rs with
  | [] => m
  | room :: rest => group_rooms (S i) rest (group_push (Room.topic room) i m)
  end.

Definition sim_at (st : Gen) (a b : nat) : R :=
  match rooms st !! a, rooms st !! b with
  | Some ra, Some rb => similarity ra rb
  | _, _ => 0
  end.

(** [scored.sort((a, b) => b.sim - a.sim)]: a stable sort, highest first. *)
Fixpoint insert_desc (x : nat * R) (l : list (nat * R)) : list (nat * R) :=
  match l with
  | [] => [x]
  | y :: l' => if Num.gtb (snd y) (snd x) then y :: insert_desc x l' else x :: y :: l'
  end.

Definition sort_desc (l : list (nat * R)) : list (nat * R) := foldr insert_desc [] l.

(** [for (k = 0; k < Math.min(5, scored.length); k++)]. *)
Definition connect_scored (threshold : R) (a : nat) (st : Gen) (scored : list (nat * R)) : Gen :=
  fold_left
    (fun st (s : nat * R) =>
       if Num.geb (snd s) threshold then addCorridor st a (fst s) (snd s) else st)
    (take 5 scored) st.

(** The loop over [i] within one group; [group] is what is left of the
    array from position [i] on. *)
Fixpoint intra_group (threshold : R) (group : list nat) (st : Gen) : Gen :=
  match group with
  | [] => st
  | a :: rest =>
      let scored := map (fun b => (b, sim_at st a b)) rest in
      intra_group threshold rest (connect_scored threshold a st (sort_desc scored))
  end.

Definition intra_topic (threshold : R) (st : Gen) : Gen :=
  fold_left (fun st (tg : string * list nat) => intra_group threshold (snd tg) st)
    (byTopic st) st.

Section Shuffle.
(** [others.sort(() => Math.random() - 0.5)]: the order that the [k]-th such
    sort leaves in the array. *)
Variable shuffle : nat -> list nat -> list nat.

(** [others.length <= 5 ? others : others.sort(...).slice(0, 5)]; the sort is
    in place, so the group in [byTopic] is reordered as well. *)
Definition sample_others (otherTopic : string) (st : Gen) : list nat * Gen :=
  let others := default [] (group_get otherTopic (byTopic st)) in
  if (List.length others <=? 5)%nat then (others, st)
  else
    let sorted := shuffle (shuffles st) others in
    (take 5 sorted,
     mkGen (rooms st) (corridors st) (corridorSet st)
       (group_set otherTopic sorted (byTopic st)) (S (shuffles st))).

(** The first sampled room that meets the threshold. *)
Fixpoint first_match (threshold : R) (room : nat) (sample : list nat) (st : Gen)
  : option (nat * R) :=
  match sample with
  | [] => None
  | other :: rest =>
      let sim := sim_at st room other in
      if Num.geb sim threshold then Some (other, sim)
      else first_match threshold room rest st
  end.

(** [for (const otherTopic of topics)] for one room; the loop breaks at the
    room's own topic and once three connections were attempted. *)
Fixpoint cross_room (threshold : R) (topic : string) (room : nat)
    (topics : list string) (crossCount : nat) (st : Gen) : Gen :=
  match topics with
  | [] => st
  | otherTopic :: rest =>
      if String.eqb otherTopic topic || (3 <=? crossCount)%nat then st
      else
        let '(sample, st1) := sample_others otherTopic st in
        match first_match threshold room sample st1 with
        | Some (other, sim) =>
            cross_room threshold topic room rest (S crossCount)
              (addCorridor st1 room other sim)
        | None => cross_room threshold topic room rest crossCount st1
        end
  end.

Definition connection_count (st : Gen) (room : nat) : nat :=
  match rooms st !! room with
  | Some r => List.length (Room.connections r)
  | None => 0%nat
  end.

Definition cross_group (threshold : R) (topics : list string) (st : Gen) (topic : string)
  : Gen :=
  fold_left
    (fun st room =>
       if (3 <=? connection_count st room)%nat then st
       else cross_room threshold topic room topics 0 st)
    (default [] (group_get topic (byTopic st))) st.

Definition cross_topic (threshold : R) (st : Gen) : Gen :=
  let topics := map fst (byTopic st) in
  fold_left (cross_group threshold topics) topics st.

(** The body of the connectivity pass for the room at position [room]. *)
Definition repair_room (st : Gen) (room : nat) : Gen :=
  match rooms st !! room with
  | Some r =>
      if (List.length (Room.connections r) =? 0)%nat
         && (1 <? List.length (rooms st))%nat then
        let sameTopicRooms := default [] (group_get (Room.topic r) (byTopic st)) in
        let candidates :=
          if (1 <? List.length sameTopicRooms)%nat then sameTopicRooms
          else take 50 (seq 0 (List.length (rooms st))) in
        match best_candidate (rooms st) room candidates with
        | (bestSim, Some bestRoom) => addCorridor st room bestRoom bestSim
        | (_, None) => st
        end
      else st
  | None => st
  end.

Definition repair (st : Gen) : Gen :=
  fold_left repair_room (seq 0 (List.length (rooms st))) st.

(** [generateCorridors(rooms, threshold)]: the state at the [return]. *)
Definition generateCorridors (rs : list Room.t) (threshold : R) : Gen :=
  let st := mkGen rs [] ∅ (group_rooms 0 rs []) 0 in
  repair (cross_topic threshold (intra_topic threshold st)).
End Shuffle.
End TopologyEngine.

(** *** The engine of [topology.js]: corridors over all pairs *)
Module TopologyEngineV1.
Import Topology.
Local Open Scope R_scope.

Record Gen : Type := mkGen {
  rooms : list Room.t;
  corridors : list Corridor.t
}.

(** The push of a corridor and of the two connections. *)
Definition connect (st : Gen) (a b : nat) (sim : R) : Gen :=
  match rooms st !! a, rooms st !! b with
  | Some ra, Some rb =>
      mkGen
        (alter (push_connection (Room.id ra)) b
           (alter (push_connection (Room.id rb)) a (rooms st)))
        (corridors st ++ [corridor_of ra rb sim])
  | _, _ => st
  end.

Definition pair_step (threshold : R) (i : nat) (st : Gen) (j : nat) : Gen :=
  match rooms st !! i, rooms st !! j with
  | Some ri, Some rj =>
      let sim := similarity ri rj in
      if Num.geb sim threshold then connect st i j sim else st
  | _, _ => st
  end.

(** [for (j = i + 1; j < rooms.length; j++)]. *)
Definition pairs_from (threshold : R) (st : Gen) (i : nat) : Gen :=
  fold_left (pair_step threshold i) (seq (S i) (List.length (rooms st) - S i)) st.

Definition all_pairs (threshold : R) (st : Gen) : Gen :=
  fold_left (pairs_from threshold) (seq 0 (List.length (rooms st))) st.

Definition repair_room (st : Gen) (room : nat) : Gen :=
  match rooms st !! room with
  | Some r =>
      if (List.length (Room.connections r) =? 0)%nat
         && (1 <? List.length (rooms st))%nat then
        match best_candidate (rooms st) room (seq 0 (List.length (rooms st))) with
        | (bestSim, Some bestRoom) => connect st room bestRoom bestSim
        | (_, None) => st
        end
      else st
  | None => st
  end.

Definition repair (st : Gen) : Gen :=
  fold_left repair_room (seq 0 (List.length (rooms st))) st.

Definition generateCorridors (rs : list Room.t) (threshold : R) : Gen :=
  repair (all_pairs threshold (mkGen rs [])).
End TopologyEngineV1.

(** ** Events, random draws and JavaScript truthiness *)

Module Event.
Record t : Type := mk {
  timestamp : R;
  type : string;
  description : string;
  involvedRooms : list string;
  involvedEntities : list string
}.
End Event.

(** A result of [Math.random()]: a number in [0, 1). *)
Record Unit01 : Type := mkUnit01 { draw : R; draw_range : (0 <= draw < 1)%R }.

Module Js.
(** The double quote character of the event descriptions. *)
Definition dquote : string := String (ascii_of_nat 34) EmptyString.

(** [a || b] for a possibly missing cycle number [a]: [undefined] and [0]
    are falsy. *)
Definition or_cycle (a : option Z) (b : Z) : Z :=
  match a with
  | Some x => if (x =? 0)%Z then b else x
  | None => b
  end.

(** Truthiness of a possibly missing string: [null], [undefined] and the
    empty string are falsy. *)
Definition truthy (s : option string) : bool :=
  match s with
  | Some x => negb (String.eqb x "")
  | None => false
  end.

(** [new Set(xs)] / [set.add(x)]: sets keep insertion order. *)
Definition set_add (x : string) (s : list string) : list string :=
  if decide (x ∈ s) then s else s ++ [x].

Definition set_of (xs : list string) : list string := fold_left (fun s x => set_add x s) xs [].

(** [xs.slice(-n)]. *)
Definition last_n {A : Type} (n : nat) (xs : list A) : list A :=
  drop (List.length xs - n) xs.

(** [str.substring(0, n)]. *)
Definition prefix (n : nat) (s : string) : string := String.substring 0 n s.
End Js.

(** ** PruneEngine ([prune.js]) *)

Module PruneFragment.
Record t : Type := mk {
  sourceRoom : string;
  sourceName : string;
  sourceTopic : string;
  fragments : list string;
  sentiment : R;
  commentary : option string;
  collapsedAt : R;
  cycle : Z
}.
End PruneFragment.

Module PruneEngine.
Local Open Scope R_scope.

Record Result : Type := mkResult {
  kept : list Room.t;
  pruned : list Room.t;
  fragments : list PruneFragment.t;
  events : list Event.t
}.

(** [room.lastRefreshedCycle || room._addedCycle || 0]. *)
Definition last_touched (room : Room.t) : Z :=
  Js.or_cycle (Room.lastRefreshedCycle room) (Js.or_cycle (Room._addedCycle room) 0).

Definition age (currentCycle : Z) (room : Room.t) : Z :=
  (currentCycle - last_touched room)%Z.

Definition isStale (currentCycle staleCycles : Z) (room : Room.t) : bool :=
  (staleCycles <=? age currentCycle room)%Z.

Definition isDecaying (room : Room.t) : bool := Num.geb (Room.score room) 0.6.

(** The first loop over [rooms]: the pair [(toPrune, toKeep)]. *)
Fixpoint split_rooms (currentCycle staleCycles : Z) (rooms : list Room.t)
  : list Room.t * list Room.t :=
  match rooms with
  | [] => ([], [])
  | room :: rest =>
      let '(toPrune, toKeep) := split_rooms currentCycle staleCycles rest in
      if isStale currentCycle staleCycles room && isDecaying room then
        (room :: toPrune, toKeep)
      else if isStale currentCycle staleCycles room && Num.geb (Room.score room) 0.4 then
        (toPrune, Room.with_score (Rmin 1 (Room.score room + 0.15)) room :: toKeep)
      else
        (toPrune, room :: toKeep)
  end.

(** The adjacency set of the room with id [rid], in the order in which the
    loop over the corridors fills it. *)
Definition neighbors_of (rid : string) (corridors : list Corridor.t) : list string :=
  fold_left
    (fun acc c =>
       let acc := if String.eqb (Corridor.from c) rid then Js.set_add (Corridor.to c) acc
                  else acc in
       if String.eqb (Corridor.to c) rid then Js.set_add (Corridor.from c) acc else acc)
    corridors [].

(** [(sentences && sentences[0]) || '...']. *)
Definition echo_of (room : Room.t) : string :=
  match Fragments.sentences (Room.fragments room) with
  | s :: _ => if String.eqb s "" then "..." else s
  | [] => "..."
  end.

Definition trace_of (room : Room.t) (now : R) : Trace.t :=
  Trace.mk (Room.name room) (Room.topic room) (echo_of room) now.

(** [traces.push(tr); if (traces.length > 5) traces.shift()]. *)
Definition push_trace (tr : Trace.t) (room : Room.t) : Room.t :=
  let ts := default [] (Room.traces room) ++ [tr] in
  Room.with_traces (Some (if (5 <? List.length ts)%nat then tail ts else ts)) room.

(** [toKeep.find(r => r.id === neighborId)], then [f] on the room found. *)
Fixpoint update_first (rid : string) (f : Room.t -> Room.t) (l : list Room.t)
  : list Room.t :=
  match l with
  | [] => []
  | r :: rest =>
      if String.eqb (Room.id r) rid then f r :: rest
      else r :: update_first rid f rest
  end.

Definition distribute (tr : Trace.t) (livingNeighbors : list string) (toKeep : list Room.t)
  : list Room.t :=
  fold_left (fun toKeep nid => update_first nid (push_trace tr) toKeep)
    livingNeighbors toKeep.

(** The positions in [toKeep] of the rooms of the given topic:
    [toKeep.filter(r => r.topic === room.topic)]. *)
Fixpoint same_topic_from (i : nat) (topic : string) (l : list Room.t) : list nat :=
  match l with
  | [] => []
  | r :: rest =>
      if String.eqb (Room.topic r) topic then i :: same_topic_from (S i) topic rest
      else same_topic_from (S i) topic rest
  end.

Section Oracles.
Variable rand : nat -> Unit01.
(** [x.toFixed(2)] and the decimal form of a cycle count. *)
Variable toFixed2 : R -> string.
Variable show_cycles : Z -> string.

(** Absorption by a same-topic survivor when no neighbour lives.  The index
    [Math.floor(Math.random() * Math.min(3, n))] is always below [n], so the
    lookup never misses. *)
Definition absorb (tr : Trace.t) (topic : string) (toKeep : list Room.t) (n : nat)
  : list Room.t * nat :=
  let sameTopic := same_topic_from 0 topic toKeep in
  if (0 <? List.length sameTopic)%nat then
    let k := Num.random_index (draw (rand n)) (Nat.min 3 (List.length sameTopic)) in
    match sameTopic !! k with
    | Some target => (alter (push_trace tr) target toKeep, S n)
    | None => (toKeep, S n)
    end
  else (toKeep, n).

Definition fragment_of (room : Room.t) (currentCycle : Z) (now : R) : PruneFragment.t :=
  PruneFragment.mk (Room.id room) (Room.name room) (Room.topic room)
    (take 4 (Fragments.words (Room.fragments room)))
    (Room.sentiment room)
    (if Js.truthy (Room.commentary room)
     then Js.prefix 80 <$> Room.commentary room else None)
    now currentCycle.

Definition pruned_event (room : Room.t) (staleCycles : Z) (livingNeighbors : list string)
    (now : R) : Event.t :=
  Event.mk now "room_pruned"
    (Js.dquote +:+ Room.name room +:+ Js.dquote +:+ " (" +:+ Room.topic room
     +:+ ") collapsed after " +:+ show_cycles staleCycles
     +:+ "+ stale cycles. Entropy: " +:+ toFixed2 (Room.score room))
    (Room.id room :: take 3 livingNeighbors)
    [].

(** The state of the loop over [toPrune]. *)
Record Acc : Type := mkAcc {
  acc_kept : list Room.t;
  acc_fragments : list PruneFragment.t;
  acc_events : list Event.t;
  acc_draws : nat
}.

Definition prune_room (corridors : list Corridor.t) (prunedIds : list string)
    (currentCycle staleCycles : Z) (now : R) (acc : Acc) (room : Room.t) : Acc :=
  let roomNeighbors := neighbors_of (Room.id room) corridors in
  let livingNeighbors :=
    filter (fun nid => nid ∉ prunedIds) roomNeighbors in
  let tr := trace_of room now in
  let kept1 := distribute tr livingNeighbors (acc_kept acc) in
  let '(kept2, n2) :=
    if (List.length livingNeighbors =? 0)%nat
    then absorb tr (Room.topic room) kept1 (acc_draws acc)
    else (kept1, acc_draws acc) in
  mkAcc kept2
    (acc_fragments acc ++ [fragment_of room currentCycle now])
    (acc_events acc ++ [pruned_event room staleCycles livingNeighbors now])
    n2.

(** [prune(state, staleCycles)], from the fields of [state] that it reads;
    [n] counts the random draws. *)
Definition prune (currentCycle : Z) (rooms : list Room.t) (corridors : list Corridor.t)
    (staleCycles : Z) (now : R) (n : nat) : Result * nat :=
  let '(toPrune, toKeep) := split_rooms currentCycle staleCycles rooms in
  let prunedIds := Js.set_of (map Room.id toPrune) in
  let acc :=
    fold_left (prune_room corridors prunedIds currentCycle staleCycles now)
      toPrune (mkAcc toKeep [] [] n) in
  (mkResult (acc_kept acc) toPrune (acc_fragments acc) (acc_events acc), acc_draws acc).
End Oracles.

(** [refreshRooms(rooms, newRooms, currentCycle)]: the two arrays after the
    call. *)
Definition refreshRooms (rooms newRooms : list Room.t) (currentCycle : Z)
  : list Room.t * list Room.t :=
  let newTopics := Js.set_of (map Room.topic newRooms) in
  (map (fun room =>
          if decide (Room.topic room ∈ newTopics)
          then Room.with_lastRefreshedCycle (Some currentCycle) room else room) rooms,
   map (fun room =>
          Room.with_addedCycle (Some currentCycle)
            (Room.with_lastRefreshedCycle (Some currentCycle) room)) newRooms).
End PruneEngine.

(** ** EntityTracker ([entities.js]) *)

Module Move.
Record t : Type := mk { from : string; to : string; timestamp : R }.
End Move.

Module Entity.
Record t : Type := mk {
  id : string;
  name : string;
  type : string;
  topics : list string;
  appearances : nat;
  firstSeen : R;
  lastSeen : R;
  strength : R;
  currentRoom : option string;
  recentContexts : list string;
  history : list Move.t
}.

Definition with_currentRoom (c : option string) (e : t) : t :=
  mk (id e) (name e) (type e) (topics e) (appearances e) (firstSeen e) (lastSeen e)
     (strength e) c (recentContexts e) (history e).
Definition with_history (h : list Move.t) (e : t) : t :=
  mk (id e) (name e) (type e) (topics e) (appearances e) (firstSeen e) (lastSeen e)
     (strength e) (currentRoom e) (recentContexts e) h.
End Entity.

(** The tracker's [Map] from id to entity object is the list of its values,
    in insertion order. *)
Module EntityTracker.
Local Open Scope R_scope.

(** [relevantRooms.sort((a, b) => a.entropy.score - b.entropy.score)]: a
    stable sort, lowest entropy first. *)
Fixpoint insert_asc (x : Room.t) (l : list Room.t) : list Room.t :=
  match l with
  | [] => [x]
  | y :: l' => if Num.ltb (Room.score y) (Room.score x) then y :: insert_asc x l'
               else x :: y :: l'
  end.

Definition sort_asc (l : list Room.t) : list Room.t := foldr insert_asc [] l.

(** [history.push(m); if (history.length > 20) history.shift()]. *)
Definition push_move (m : Move.t) (e : Entity.t) : Entity.t :=
  let h := Entity.history e ++ [m] in
  Entity.with_history (if (20 <? List.length h)%nat then tail h else h) e.

Section Oracles.
Variable rand : nat -> Unit01.

(** The body of the loop of [wander] for one entity; [n] counts the random
    draws.  The index [Math.floor(Math.random() * Math.min(3, length))] is
    always below [length], so the lookup never misses. *)
Definition wander_entity (rooms : list Room.t) (now : R) (entity : Entity.t) (n : nat)
  : Entity.t * nat :=
  let relevantRooms :=
    filter (fun r => Room.topic r ∈ Entity.topics entity) rooms in
  if (List.length relevantRooms =? 0)%nat then (entity, n)
  else
    let sorted := sort_asc relevantRooms in
    let k := Num.random_index (draw (rand n)) (Nat.min 3 (List.length sorted)) in
    match sorted !! k with
    | Some pick =>
        let previousRoom := Entity.currentRoom entity in
        let entity1 := Entity.with_currentRoom (Some (Room.id pick)) entity in
        if Js.truthy previousRoom
           && negb (bool_decide (previousRoom = Some (Room.id pick)))
        then (push_move (Move.mk (default "" previousRoom) (Room.id pick) now) entity1, S n)
        else (entity1, S n)
    | None => (entity, S n)
    end.

Fixpoint wander (rooms : list Room.t) (now : R) (entities : list Entity.t) (n : nat)
  : list Entity.t * nat :=
  match entities with
  | [] => ([], n)
  | entity :: rest =>
      let '(entity', n1) := wander_entity rooms now entity n in
      let '(rest', n2) := wander rooms now rest n1 in
      (entity' :: rest', n2)
  end.
End Oracles.

(** [toArray()]. *)
Definition toArray (entities : list Entity.t) : list Entity.t := entities.
End EntityTracker.

(** ** MemoryEngine ([memory.js]) *)

Module MemoryEngine.
Local Open Scope R_scope.

Record TopicStat : Type := mkStat { count : nat; avgSentiment : R }.

Record TopicSnapshot : Type := mkSnapshot {
  cycle : Z;
  timestamp : R;
  topics : list (string * TopicStat)
}.

Record Memory : Type := mkMemory {
  topicHistory : list TopicSnapshot;
  totalRoomHistory : list (Z * nat);
  maxHistoryLength : nat
}.

(** [Math.round(x * 100) / 100]. *)
Definition round2 (x : R) : R := IZR (Num.floor (x * 100 + 0.5)) / 100.

(** The running [{ count, totalSentiment }] per topic, in insertion order. *)
Fixpoint bump (topic : string) (s : R) (m : list (string * (nat * R)))
  : list (string * (nat * R)) :=
  match m with
  | [] => [(topic, (1%nat, s))]
  | (t, (c, total)) :: rest =>
      if String.eqb t topic then (t, (S c, total + s)) :: rest
      else (t, (c, total)) :: bump topic s rest
  end.

Definition topicStats (rooms : list Room.t) : list (string * (nat * R)) :=
  fold_left (fun m room => bump (Room.topic room) (Room.sentiment room) m) rooms [].

Definition snapshot_of (stats : list (string * (nat * R))) : list (string * TopicStat) :=
  map (fun '(t, (c, total)) =>
         (t, mkStat c (if (0 <? c)%nat then round2 (total / INR c) else 0))) stats.

(** [update(state)], from the fields that it reads: the new [state.memory]. *)
Definition update (memory : option Memory) (cycle : Z) (rooms : list Room.t) (now : R)
  : Memory :=
  let mem := default (mkMemory [] [] 50) memory in
  let topicH := topicHistory mem ++ [mkSnapshot cycle now (snapshot_of (topicStats rooms))] in
  let totalH := totalRoomHistory mem ++ [(cycle, List.length rooms)] in
  let max := if (maxHistoryLength mem =? 0)%nat then 50%nat else maxHistoryLength mem in
  mkMemory
    (if (max <? List.length topicH)%nat then Js.last_n max topicH else topicH)
    (if (max <? List.length totalH)%nat then Js.last_n max totalH else totalH)
    (maxHistoryLength mem).
End MemoryEngine.

(** ** EventTracker ([events.js]) *)

Module EventTracker.
Local Open Scope R_scope.

Section Format.
Variable toFixed2 : R -> string.
Variable show_nat : nat -> string.

(** The topics of [newRooms] that [existingTopics] lacks, as the [Set]
    [newTopics] collects them. *)
Definition emerging (existingTopics : list string) (newRooms : list Room.t) : list string :=
  fold_left
    (fun newTopics room =>
       if decide (Room.topic room ∈ existingTopics) then newTopics
       else Js.set_add (Room.topic room) newTopics)
    newRooms [].

Definition ids_with_topic (topic : string) (rooms : list Room.t) : list string :=
  map Room.id (filter (fun r => Room.topic r = topic) rooms).

Definition emerged_event (now : R) (newRooms : list Room.t) (topic : string) : Event.t :=
  Event.mk now "topic_emerged"
    ("New topic " +:+ Js.dquote +:+ topic +:+ Js.dquote +:+ " appeared in the Substrate")
    (ids_with_topic topic newRooms) [].

Definition death_event (now : R) (prunedRooms : list Room.t) (topic : string) : Event.t :=
  Event.mk now "topic_death"
    ("Topic " +:+ Js.dquote +:+ topic +:+ Js.dquote
     +:+ " has completely faded from the Substrate")
    (ids_with_topic topic prunedRooms) [].

Definition dominant_event (now : R) (entity : Entity.t) : Event.t :=
  Event.mk now "entity_dominant"
    (Js.dquote +:+ Entity.name entity +:+ Js.dquote +:+ " (" +:+ Entity.type entity
     +:+ ") has become dominant — strength " +:+ toFixed2 (Entity.strength entity)
     +:+ ", " +:+ show_nat (Entity.appearances entity) +:+ " appearances")
    (if Js.truthy (Entity.currentRoom entity)
     then [default "" (Entity.currentRoom entity)] else [])
    [Entity.id entity].

Definition mass_event (now : R) (prunedRooms : list Room.t) : Event.t :=
  Event.mk now "mass_collapse"
    (show_nat (List.length prunedRooms)
     +:+ " rooms collapsed in a single cycle — the Substrate is contracting")
    (map Room.id (take 10 prunedRooms)) [].

(** [detect(state, context)], from the fields of [state] that it reads
    ([state.rooms], [state.entities]) and the three fields of [context]. *)
Definition detect (rooms : list Room.t) (entities : list Entity.t)
    (newRooms prunedRooms : list Room.t) (pruneEvents : list Event.t) (now : R)
  : list Event.t :=
  let events := pruneEvents in
  let existingTopics := Js.set_of (map Room.topic rooms) in
  let newTopics := emerging existingTopics newRooms in
  let events := events ++ map (emerged_event now newRooms) newTopics in
  let events :=
    if (0 <? List.length prunedRooms)%nat then
      let prunedTopics := Js.set_of (map Room.topic prunedRooms) in
      let remainingTopics := Js.set_of (map Room.topic rooms) in
      events ++ map (death_event now prunedRooms)
                  (filter (fun topic => topic ∉ remainingTopics) prunedTopics)
    else events in
  let strong := filter (fun e => Num.geb (Entity.strength e) 0.8 = true) entities in
  let events := events ++ map (dominant_event now) strong in
  if (10 <=? List.length prunedRooms)%nat then events ++ [mass_event now prunedRooms]
  else events.
End Format.

(** [record(state, newEvents)]: the new [state.events]. *)
Definition record (events : option (list Event.t)) (newEvents : list Event.t)
  : list Event.t :=
  let all := default [] events ++ newEvents in
  if (100 <? List.length all)%nat then Js.last_n 100 all else all.
End EventTracker.

(** ** World ([world.js], the cycle of version 2) *)

Module Observation.
Record t : Type := mk {
  id : string;
  text : string;
  timestamp : string;
  topic : string;
  sentiment : R;
  virality : R
}.
End Observation.

Module Stats.
Record t : Type := mk {
  totalRooms : nat;
  totalCorridors : nat;
  topics : list string;
  avgSentiment : R;
  avgVirality : R
}.
End Stats.

Module WorldState.
(** [stats] is [{}] and [events], [memory] are missing until the first full
    cycle. *)
Record t : Type := mk {
  version : Z;
  createdAt : R;
  lastUpdate : option R;
  observationCycles : Z;
  rooms : list Room.t;
  corridors : list Corridor.t;
  artifacts : list (DecayEngine.Artifact + PruneFragment.t);
  entities : list Entity.t;
  events : option (list Event.t);
  memory : option MemoryEngine.Memory;
  stats : option Stats.t
}.
End WorldState.

Module World.
Local Open Scope R_scope.

(** The world object: [this.state] and the entity map of
    [this.entityTracker].  The observer and the room generator are
    collaborators; what they return comes in through the parameters below. *)
Record t : Type := mk {
  state : WorldState.t;
  entityTracker : list Entity.t
}.

(** [sum / rooms.length || 0]: 0 for an empty array. *)
Definition average (xs : list R) : R :=
  if (List.length xs =? 0)%nat then 0
  else fold_left Rplus xs 0 / INR (List.length xs).

Section Cycle.
(** Randomness and formatting. *)
Variable rand : nat -> Unit01.
Variable shuffle : nat -> list nat -> list nat.
Variable toFixed2 : R -> string.
Variable show_cycles : Z -> string.
Variable show_nat : nat -> string.
Variable scrambleText : string -> R -> nat -> string * nat.
Variable dimColor : string -> R -> string.
(** The collaborators: [roomGen.generateRooms], [entityTracker.update],
    [CommentaryGenerator.generate] and the positions computed by
    [layoutRooms]. *)
Variable generateRooms : list Observation.t -> R -> nat -> list Room.t * nat.
Variable entityUpdate : list Observation.t -> R -> list Entity.t -> list Entity.t.
Variable generate : Room.t -> nat -> string * nat.
Variable layout : list Room.t -> list Corridor.t -> nat -> (nat -> R * R) * nat.

(** [CommentaryGenerator.annotateRooms(rooms)]. *)
Fixpoint annotateRooms (rooms : list Room.t) (n : nat) : list Room.t * nat :=
  match rooms with
  | [] => ([], n)
  | room :: rest =>
      let '(c, n1) := generate room n in
      let '(rest', n2) := annotateRooms rest n1 in
      (Room.with_commentary (Some c) room :: rest', n2)
  end.

(** [buildTopology(rooms)]: the rooms, the corridors and the stats. *)
Definition buildTopology (rooms : list Room.t) (n : nat)
  : list Room.t * list Corridor.t * Stats.t * nat :=
  let gen := TopologyEngine.generateCorridors shuffle rooms 0.4 in
  let corridors := TopologyEngine.corridors gen in
  let '(pos, n1) := layout (TopologyEngine.rooms gen) corridors n in
  let rooms' := imap (fun i room => Room.with_position (pos i) room) (TopologyEngine.rooms gen) in
  (rooms', corridors,
   Stats.mk (List.length rooms') (List.length corridors)
     (Js.set_of (map Room.topic rooms'))
     (average (map Room.sentiment rooms'))
     (average (map Room.virality rooms')),
   n1).

(** Step 4: decay of the existing rooms. *)
Definition decay_step (rooms : list Room.t)
    (artifacts : list (DecayEngine.Artifact + PruneFragment.t)) (now : R) (n : nat)
  : list Room.t * list (DecayEngine.Artifact + PruneFragment.t) * nat :=
  if (0 <? List.length rooms)%nat then
    let res := DecayEngine.tick rooms now in
    let '(alive, n1) :=
      DecayEngine.applyEffects (fun k => draw (rand k)) scrambleText dimColor
        (DecayEngine.active res ++ DecayEngine.decayed res) n in
    (alive,
     artifacts
       ++ map (fun room => inl (DecayEngine.harvestFragments room now))
            (DecayEngine.collapsed res),
     n1)
  else (rooms, artifacts, n).

(** [cycle(queries)] after [observer.observe(queries)] returned
    [observations]: the world at the [return], the events that [detect]
    returned in this cycle, and the count of random draws. *)
Definition cycle_run (w : t) (observations : list Observation.t) (now : R) (n : nat)
  : t * list Event.t * nat :=
  if (List.length observations =? 0)%nat then (w, [], n)
  else
    let st := state w in
    (* 2. Generate rooms *)
    let '(newRooms, n0) := generateRooms observations now n in
    (* 3. Track entities *)
    let tracker1 := entityUpdate observations now (entityTracker w) in
    (* 4. Decay existing rooms *)
    let '(rooms1, artifacts1, n1) :=
      decay_step (WorldState.rooms st) (WorldState.artifacts st) now n0 in
    (* 5. Prune stale rooms *)
    let '(rooms2, newRooms2) :=
      PruneEngine.refreshRooms rooms1 newRooms (WorldState.observationCycles st) in
    let '(pruneResult, n2) :=
      PruneEngine.prune rand toFixed2 show_cycles (WorldState.observationCycles st)
        rooms2 (WorldState.corridors st) 5 now n1 in
    let rooms3 := PruneEngine.kept pruneResult in
    let artifacts2 := artifacts1 ++ map inr (PruneEngine.fragments pruneResult) in
    (* 6. Add new rooms + commentary *)
    let '(newRooms3, n3) := annotateRooms newRooms2 n2 in
    let rooms4 := rooms3 ++ newRooms3 in
    (* 7. Entity wandering *)
    let '(tracker2, n4) := EntityTracker.wander rand rooms4 now tracker1 n3 in
    let entities := EntityTracker.toArray tracker2 in
    (* 8. Rebuild topology *)
    let rooms5 := map (Room.with_connections []) rooms4 in
    let '(rooms6, corridors, stats, n5) := buildTopology rooms5 n4 in
    (* 9. Track events *)
    let newEvents :=
      EventTracker.detect toFixed2 show_nat rooms6 entities
        (drop (List.length rooms3) rooms6)
        (PruneEngine.pruned pruneResult) (PruneEngine.events pruneResult) now in
    let events := EventTracker.record (WorldState.events st) newEvents in
    (* 10. Update memory *)
    let cycles := (WorldState.observationCycles st + 1)%Z in
    let memory := MemoryEngine.update (WorldState.memory st) cycles rooms6 now in
    (* 12. Update metadata *)
    (mk (WorldState.mk 2 (WorldState.createdAt st) (Some now) cycles rooms6 corridors
           artifacts2 entities (Some events) (Some memory) (Some stats))
        tracker2,
     newEvents, n5).

Definition cycle (w : t) (observations : list Observation.t) (now : R) (n : nat) : t :=
  fst (fst (cycle_run w observations now n)).

(** The events that [detect] returned in the cycle. *)
Definition cycle_events (w : t) (observations : list Observation.t) (now : R) (n : nat)
  : list Event.t :=
  snd (fst (cycle_run w observations now n)).
End Cycle.
End World.

(** ** RoomGenerator ([rooms.js]) *)

(** An entry of [ARCHETYPES]: the name pool and the look of the rooms. *)
Module ArchetypeEntry.
Record t : Type := mk { names : list string; look : Archetype.t }.
End ArchetypeEntry.

Module RoomGenerator.
Local Open Scope R_scope.

(** [Math.round(x * 10) / 10]. *)
Definition round1 (x : R) : R := IZR (Num.floor (x * 10 + 0.5)) / 10.

(** [calculateDimensions(virality, sentiment)]. *)
Definition calculateDimensions (virality sentiment : R) : Dimensions.t :=
  let baseSize := 3 + virality * 2 in
  let width := baseSize * (1 + sentiment * 0.3) in
  let height := baseSize * (1 - sentiment * 0.2) in
  let depth := baseSize in
  Dimensions.mk (Rmax 2 (round1 width)) (Rmax 2 (round1 height)) (Rmax 2 (round1 depth)).

(** [calculateEntropy(virality)], with [now] for [Date.now()]. *)
Definition calculateEntropy (virality : R) (now : R) : Entropy.t :=
  let halfLife := 3600 * (1 + virality * 2) in
  Entropy.mk 0 halfLife now.

(** *** [generateRooms]

    The objects [ARCHETYPES] and [clusters] are keyed by topic.  They are
    modelled as association lists in insertion order, which is how an object
    behaves for keys that are neither array indices nor names inherited from
    [Object.prototype]; the topics that the observer assigns are such keys.
    [extractFragments] works with regular expressions and comes in as a
    parameter, as does [generateId], which reads random bytes: [generateId k]
    is the id of the room made when [roomCount] is [k]. *)

Definition liminal : ArchetypeEntry.t :=
  ArchetypeEntry.mk
    ["Empty Office"; "Waiting Room"; "Stairwell"; "Parking Garage"; "Hallway 7B"]
    (Archetype.mk "yellow_wallpaper" "#ffcc44" "fluorescent_buzz").

Definition ARCHETYPES : list (string * ArchetypeEntry.t) :=
  [("tech",
    ArchetypeEntry.mk
      ["Server Hall"; "Data Center"; "Terminal Room"; "Circuit Maze"; "Processing Bay"]
      (Archetype.mk "metal_grid" "#00ff88" "electric_hum"));
   ("politics",
    ArchetypeEntry.mk
      ["Echo Chamber"; "Debate Hall"; "Propaganda Room"; "Ballot Chamber";
       "Filibuster Corridor"]
      (Archetype.mk "marble_cracked" "#ff4444" "crowd_murmur"));
   ("culture",
    ArchetypeEntry.mk
      ["Gallery"; "Screening Room"; "Arcade"; "Sound Stage"; "Meme Archive"]
      (Archetype.mk "neon_tile" "#ff66ff" "static_music"));
   ("science",
    ArchetypeEntry.mk
      ["Lab"; "Observatory"; "Specimen Room"; "Clean Room"; "Telescope Bay"]
      (Archetype.mk "white_panel" "#4488ff" "instrument_beep"));
   ("finance",
    ArchetypeEntry.mk
      ["Trading Floor"; "Vault"; "Ticker Room"; "Bull Pen"; "Ledger Archive"]
      (Archetype.mk "dark_wood" "#44ff44" "ticker_tape"));
   ("existential",
    ArchetypeEntry.mk
      ["Void Chamber"; "Mirror Hall"; "Dream Room"; "Infinite Corridor";
       "Consciousness Pool"]
      (Archetype.mk "dark_void" "#8844ff" "deep_drone"));
   ("liminal", liminal)].

(** [ARCHETYPES[topic] || ARCHETYPES.liminal]. *)
Fixpoint archetype_in (table : list (string * ArchetypeEntry.t)) (topic : string)
  : ArchetypeEntry.t :=
  match table with
  | [] => liminal
  | (t, a) :: rest => if String.eqb t topic then a else archetype_in rest topic
  end.

Definition archetype_of (topic : string) : ArchetypeEntry.t := archetype_in ARCHETYPES topic.

(** [if (!clusters[topic]) clusters[topic] = []; clusters[topic].push(obs)]. *)
Fixpoint cluster_push (obs : Observation.t) (clusters : list (string * list Observation.t))
  : list (string * list Observation.t) :=
  match clusters with
  | [] => [(Observation.topic obs, [obs])]
  | (t, g) :: rest =>
      if String.eqb t (Observation.topic obs) then (t, g ++ [obs]) :: rest
      else (t, g) :: cluster_push obs rest
  end.

Definition clusters_of (observations : list Observation.t)
  : list (string * list Observation.t) :=
  fold_left (fun clusters obs => cluster_push obs clusters) observations [].

(** [group.sort((a, b) => b.virality - a.virality)]: a stable sort, most
    viral first. *)
Fixpoint insert_viral (x : Observation.t) (l : list Observation.t) : list Observation.t :=
  match l with
  | [] => [x]
  | y :: l' =>
      if Num.gtb (Observation.virality y) (Observation.virality x)
      then y :: insert_viral x l' else x :: y :: l'
  end.

Definition sort_viral (l : list Observation.t) : list Observation.t :=
  foldr insert_viral [] l.

(** [Math.ceil(n / 3)]. *)
Definition ceil_third (n : nat) : nat := (n + 2) / 3.

Section Oracles.
Variable rand : nat -> Unit01.
Variable generateId : nat -> string.
Variable extractFragments : string -> Fragments.t.

(** [generateRoom(observation)]: the room, [roomCount] and the count of
    random draws after the call. *)
Definition generateRoom (observation : Observation.t) (now : R) (roomCount n : nat)
  : Room.t * nat * nat :=
  let archetype := archetype_of (Observation.topic observation) in
  let namePool := ArchetypeEntry.names archetype in
  let name :=
    default "" (namePool !! Num.random_index (draw (rand n)) (List.length namePool)) in
  (Room.mk (generateId roomCount) name (Observation.topic observation)
     (ArchetypeEntry.look archetype)
     (calculateDimensions (Observation.virality observation)
        (Observation.sentiment observation))
     (Observation.sentiment observation) (Observation.virality observation)
     (calculateEntropy (Observation.virality observation) now)
     (extractFragments (Observation.text observation))
     None [] (0, 0) None None None,
   S roomCount, S n).

(** [rooms.push(...group.map(obs => this.generateRoom(obs)))]. *)
Fixpoint rooms_of_each (group : list Observation.t) (now : R) (roomCount n : nat)
  : list Room.t * nat * nat :=
  match group with
  | [] => ([], roomCount, n)
  | obs :: rest =>
      let '(room, roomCount1, n1) := generateRoom obs now roomCount n in
      let '(rooms, roomCount2, n2) := rooms_of_each rest now roomCount1 n1 in
      (room :: rooms, roomCount2, n2)
  end.

(** The pushes of the first sentence of each nearby observation. *)
Definition absorb_nearby (nearby : list Observation.t) (room : Room.t) : Room.t :=
  fold_left
    (fun room near =>
       Room.with_fragments
         (Fragments.with_sentences
            (Fragments.sentences (Room.fragments room)
             ++ take 1 (Fragments.sentences (extractFragments (Observation.text near))))
            (Room.fragments room))
         room)
    nearby room.

(** [for (const seed of seeds)]. *)
Fixpoint rooms_of_seeds (seeds nearby : list Observation.t) (now : R) (roomCount n : nat)
  : list Room.t * nat * nat :=
  match seeds with
  | [] => ([], roomCount, n)
  | seed :: rest =>
      let '(room, roomCount1, n1) := generateRoom seed now roomCount n in
      let '(rooms, roomCount2, n2) := rooms_of_seeds rest nearby now roomCount1 n1 in
      (absorb_nearby nearby room :: rooms, roomCount2, n2)
  end.

(** The body of the loop over the clusters, for one group. *)
Definition rooms_of_group (group : list Observation.t) (now : R) (roomCount n : nat)
  : list Room.t * nat * nat :=
  if (List.length group <=? 2)%nat then rooms_of_each group now roomCount n
  else
    let sorted := sort_viral group in
    let seeds := take (ceil_third (List.length group)) sorted in
    let nearby := take 3 (drop (List.length seeds) sorted) in
    rooms_of_seeds seeds nearby now roomCount n.

Fixpoint rooms_of_clusters (clusters : list (string * list Observation.t)) (now : R)
    (roomCount n : nat) : list Room.t * nat * nat :=
  match clusters with
  | [] => ([], roomCount, n)
  | (_, group) :: rest =>
      let '(rooms, roomCount1, n1) := rooms_of_group group now roomCount n in
      let '(rooms', roomCount2, n2) := rooms_of_clusters rest now roomCount1 n1 in
      (rooms ++ rooms', roomCount2, n2)
  end.

(** [generateRooms(observations)]. *)
Definition generateRooms (observations : list Observation.t) (now : R) (roomCount n : nat)
  : list Room.t * nat * nat :=
  rooms_of_clusters (clusters_of observations) now roomCount n.
End Oracles.
End RoomGenerator.

(** ** DecayEngine ([decay.js]): [scrambleText]

    [text.split('')] gives the UTF-16 code units of the text; the text is
    modelled here as the list of these code units.  The glitch characters are
    block and box-drawing characters of one code unit each. *)

Module DecayText.
Local Open Scope R_scope.

Definition glitchChars : list N :=
  [9608; 9619; 9618; 9617; 9556; 9559; 9562; 9565; 9553; 9552; 9532; 9500; 9508;
   9516; 9524; 9484; 9488; 9492; 9496; 9472; 9474]%N.

(** The code unit of [' ']. *)
Definition space : N := 32%N.

Section Random.
Variable rand : nat -> Unit01.

(** The callback of [chars.map]; [n] counts the random draws.  The index
    [Math.floor(Math.random() * glitchChars.length)] is always below the
    length, so the lookup never misses. *)
Definition scramble_char (scrambleChance : R) (c : N) (n : nat) : N * nat :=
  if N.eqb c space then (c, n)
  else if Num.ltb (draw (rand n)) scrambleChance then
    (default c
       (glitchChars !! Num.random_index (draw (rand (S n))) (List.length glitchChars)),
     S (S n))
  else (c, S n).

Fixpoint scramble_chars (scrambleChance : R) (chars : list N) (n : nat) : list N * nat :=
  match chars with
  | [] => ([], n)
  | c :: rest =>
      let '(c', n1) := scramble_char scrambleChance c n in
      let '(rest', n2) := scramble_chars scrambleChance rest n1 in
      (c' :: rest', n2)
  end.

(** [scrambleText(text, entropy)]. *)
Definition scrambleText (text : list N) (entropy : R) (n : nat) : list N * nat :=
  if Num.ltb entropy 0.3 then (text, n)
  else scramble_chars (entropy * 0.6) text n.
End Random.
End DecayText.

(** ** TwitterObserver ([observer.js]): from tweets to observations *)

Module Metrics.
(** [public_metrics] of a tweet; a count may be missing. *)
Record t : Type := mk {
  retweet_count : option nat;
  like_count : option nat;
  reply_count : option nat
}.
End Metrics.

Module Tweet.
Record t : Type := mk {
  id : string;
  text : option string;
  created_at : option string;
  public_metrics : option Metrics.t
}.
End Tweet.

Module TwitterObserver.
Local Open Scope R_scope.

Definition positive : list string :=
  ["love"; "great"; "amazing"; "beautiful"; "happy"; "wonderful"; "excellent";
   "good"; "best"; "awesome"; "fantastic"; "brilliant"; "perfect"; "joy";
   "excited"; "hope"; "inspire"; "win"; "success"; "celebrate"; "fun";
   "laugh"; "smile"; "kind"; "peace"; "free"; "bright"; "alive"].

Definition negative : list string :=
  ["hate"; "terrible"; "awful"; "horrible"; "bad"; "worst"; "ugly";
   "sad"; "angry"; "fear"; "death"; "kill"; "war"; "destroy"; "toxic";
   "pain"; "suffer"; "crisis"; "threat"; "danger"; "dark"; "dead";
   "broken"; "lost"; "fail"; "scam"; "fraud"; "corrupt"; "evil"].

(** The topic table of [classifyTopic], in the order of its keys. *)
Definition topics : list (string * list string) :=
  [("tech", ["ai"; "crypto"; "bitcoin"; "code"; "software"; "app"; "data";
             "algorithm"; "neural"; "gpu"; "model"; "api"]);
   ("politics", ["president"; "congress"; "vote"; "election"; "policy";
                 "government"; "democrat"; "republican"; "law"; "bill"]);
   ("culture", ["movie"; "music"; "art"; "film"; "album"; "show"; "game";
                "anime"; "book"; "meme"; "viral"]);
   ("science", ["study"; "research"; "space"; "nasa"; "climate"; "physics";
                "biology"; "discovery"; "experiment"]);
   ("finance", ["market"; "stock"; "trading"; "economy"; "price"; "invest";
                "bull"; "bear"; "fed"; "inflation"]);
   ("existential", ["consciousness"; "reality"; "simulation"; "existence";
                    "meaning"; "void"; "dream"; "infinite"; "soul"])].

(** [s.includes(p)]: [p] occurs in [s]. *)
Fixpoint includes (s p : string) : bool :=
  String.prefix p s
  || match s with
     | EmptyString => false
     | String _ s' => includes s' p
     end.

(** [lexicon.some(p => word.includes(p))]. *)
Definition some_included (lexicon : list string) (word : string) : bool :=
  existsb (includes word) lexicon.

(** One turn of the loop over the words: the running [score] and
    [matches]. *)
Definition sentiment_step (acc : Z * Z) (word : string) : Z * Z :=
  let '(score, matches) := acc in
  let '(score, matches) :=
    if some_included positive word then ((score + 1)%Z, (matches + 1)%Z)
    else (score, matches) in
  if some_included negative word then ((score - 1)%Z, (matches + 1)%Z)
  else (score, matches).

(** [Math.log10(x)]. *)
Definition log10 (x : R) : R := ln x / ln 10.

(** [Object.entries(scores).sort((a, b) => b[1] - a[1])]: a stable sort,
    highest count first. *)
Fixpoint insert_by_count (x : string * nat) (l : list (string * nat))
  : list (string * nat) :=
  match l with
  | [] => [x]
  | y :: l' => if (snd x <? snd y)%nat then y :: insert_by_count x l' else x :: y :: l'
  end.

Definition sort_by_count (l : list (string * nat)) : list (string * nat) :=
  foldr insert_by_count [] l.

Section Text.
(** [text.toLowerCase()], the array [text.toLowerCase().split(/\s+/)], and
    [new Date().toISOString()]. *)
Variable toLowerCase : string -> string.
Variable words_of : string -> list string.
Variable isoNow : string.

(** [analyzeSentiment(text)]. *)
Definition analyzeSentiment (text : string) : R :=
  let '(score, matches) := fold_left sentiment_step (words_of text) (0, 0)%Z in
  if (0 <? matches)%Z then Rmax (-1) (Rmin 1 (IZR score / IZR matches)) else 0.

(** [keywords.filter(k => lower.includes(k)).length] for every topic. *)
Definition topic_scores (lower : string) : list (string * nat) :=
  map (fun tk : string * list string =>
         (fst tk, List.length (List.filter (includes lower) (snd tk)))) topics.

(** [classifyTopic(text)]. *)
Definition classifyTopic (text : string) : string :=
  match sort_by_count (topic_scores (toLowerCase text)) with
  | best :: _ => if (0 <? snd best)%nat then fst best else "liminal"
  | [] => "liminal"
  end.

(** One tweet of [processObservations(tweets)].  The [metrics] of the
    observation end up in the [source] of a room, which the engine never
    reads; they are left out as [source] is. *)
Definition processObservation (tweet : Tweet.t) : Observation.t :=
  let text := default "" (Tweet.text tweet) in
  let metrics := default (Metrics.mk None None None) (Tweet.public_metrics tweet) in
  Observation.mk (Tweet.id tweet) text
    (if Js.truthy (Tweet.created_at tweet) then default "" (Tweet.created_at tweet)
     else isoNow)
    (classifyTopic text)
    (analyzeSentiment text)
    (log10 (1 + INR (default 0%nat (Metrics.retweet_count metrics))
              + INR (default 0%nat (Metrics.like_count metrics)))).

Definition processObservations (tweets : list Tweet.t) : list Observation.t :=
  map processObservation tweets.
End Text.
End TwitterObserver.

(** ** EntityTracker ([entities.js]): [update]

    [extract] works on the text of the observations with regular
    expressions; what it returns comes in as [mentions], the entries of its
    [Map] in insertion order. *)

Module Mention.
Record t : Type := mk {
  name : string;
  count : nat;
  contexts : list string;
  type : string;
  topics : list string
}.
End Mention.

Module EntityUpdate.
Local Open Scope R_scope.

Definition boring : list string :=
  ["people"; "world"; "things"; "something"; "everything"; "nothing"; "going";
   "making"; "getting"].

Definition with_strength (s : R) (e : Entity.t) : Entity.t :=
  Entity.mk (Entity.id e) (Entity.name e) (Entity.type e) (Entity.topics e)
    (Entity.appearances e) (Entity.firstSeen e) (Entity.lastSeen e) s
    (Entity.currentRoom e) (Entity.recentContexts e) (Entity.history e).

(** [if (!cs.includes(ctx)) { cs.push(ctx); if (cs.length > 10) cs.shift(); }]. *)
Definition push_context (cs : list string) (ctx : string) : list string :=
  if decide (ctx ∈ cs) then cs
  else
    let cs' := cs ++ [ctx] in
    if (10 <? List.length cs')%nat then tail cs' else cs'.

(** The branch for an entity that the tracker already has. *)
Definition seen_again (now : R) (data : Mention.t) (entity : Entity.t) : Entity.t :=
  Entity.mk (Entity.id entity) (Entity.name entity) (Entity.type entity)
    (fold_left (fun ts t => Js.set_add t ts) (Mention.topics data) (Entity.topics entity))
    (S (Entity.appearances entity)) (Entity.firstSeen entity) now
    (Rmin 1 (Entity.strength entity + 0.1))
    (Entity.currentRoom entity)
    (fold_left push_context (take 2 (Mention.contexts data)) (Entity.recentContexts entity))
    (Entity.history entity).

(** The object literal of a new entity. *)
Definition created (now : R) (entityId : string) (data : Mention.t) : Entity.t :=
  Entity.mk entityId (Mention.name data) (Mention.type data) (Mention.topics data)
    1 now now (0.3 + Rmin 0.5 (INR (Mention.count data) * 0.05)) None
    (take 5 (Mention.contexts data)) [].

(** [this.entities.has(id)] and the in-place update of the entity object
    that [this.entities.get(id)] returns. *)
Definition has (eid : string) (entities : list Entity.t) : bool :=
  existsb (fun e => String.eqb (Entity.id e) eid) entities.

Fixpoint alter_first (eid : string) (f : Entity.t -> Entity.t) (entities : list Entity.t)
  : list Entity.t :=
  match entities with
  | [] => []
  | e :: rest =>
      if String.eqb (Entity.id e) eid then f e :: rest
      else e :: alter_first eid f rest
  end.

(** [mentions.has(key)]. *)
Definition mentioned (key : string) (mentions : list (string * Mention.t)) : bool :=
  existsb (fun kd => String.eqb (fst kd) key) mentions.

(** The two [continue]s of the first loop. *)
Definition skipped (minAppearances : nat) (key : string) (data : Mention.t) : bool :=
  (Mention.count data <? minAppearances)%nat
  || (String.eqb (Mention.type data) "concept" && String.prefix "word:" key
      && bool_decide (Mention.name data ∈ boring)).

(** [entity.strength <= 0 && Date.now() - entity.lastSeen > 3600000]. *)
Definition dead (now : R) (entity : Entity.t) : bool :=
  Num.leb (Entity.strength entity) 0 && Num.gtb (now - Entity.lastSeen entity) 3600000.

Section Oracles.
(** [s.toLowerCase()] and [key.replace(/[^a-z0-9]/g, '_')]. *)
Variable toLowerCase : string -> string.
Variable sanitize : string -> string.

(** One turn of the loop over [mentions]: the tracker and the ids of the
    entity objects pushed on [newEntities]. *)
Definition mention_step (now : R) (minAppearances : nat)
    (acc : list Entity.t * list string) (kd : string * Mention.t)
  : list Entity.t * list string :=
  if skipped minAppearances (fst kd) (snd kd) then acc
  else
    let entityId := "entity_" +:+ sanitize (fst kd) in
    if has entityId (fst acc) then
      (alter_first entityId (seen_again now (snd kd)) (fst acc), snd acc)
    else
      (fst acc ++ [created now entityId (snd kd)], snd acc ++ [entityId]).

(** The loop that weakens the entities that were not seen. *)
Definition decay_unseen (mentions : list (string * Mention.t)) (entity : Entity.t)
  : Entity.t :=
  let lower := toLowerCase (Entity.name entity) in
  if mentioned lower mentions || mentioned ("word:" +:+ lower) mentions then entity
  else with_strength (Rmax 0 (Entity.strength entity - 0.05)) entity.

(** [update(observations, minAppearances)] after [extract] returned
    [mentions]: the tracker after the call, and the new entity objects by
    their ids. *)
Definition update (mentions : list (string * Mention.t)) (now : R) (minAppearances : nat)
    (entities : list Entity.t) : list Entity.t * list string :=
  let acc := fold_left (mention_step now minAppearances) mentions (entities, []) in
  let decayed := map (decay_unseen mentions) (fst acc) in
  (List.filter (fun e => negb (dead now e)) decayed, snd acc).
End Oracles.
End EntityUpdate.

(** ** Well-formed rooms and the relations used in the facts *)

Module Wf.
Local Open Scope R_scope.

(** Room ids are ['room_'] followed by hexadecimal digits ([generateId]);
    all that matters below is that they hold no ['|'], the separator of the
    pair keys. *)
Fixpoint has_bar (s : string) : bool :=
  match s with
  | EmptyString => false
  | String c s' => Ascii.eqb c "|" || has_bar s'
  end.

Definition bar_free (s : string) : Prop := has_bar s = false.

(** A room as the observer and the room generator make it: an id without
    ['|'] and a sentiment in [-1, 1] ([analyzeSentiment] clamps it). *)
Definition room (r : Room.t) : Prop :=
  bar_free (Room.id r) /\ -1 <= Room.sentiment r <= 1.

(** An array of distinct room objects with unique ids. *)
Definition rooms (rs : list Room.t) : Prop :=
  NoDup (map Room.id rs) /\ Forall room rs.

(** [r'] is the room object [r] after some pushes on its connections. *)
Definition grows (r r' : Room.t) : Prop :=
  exists extra, r' = Room.with_connections (Room.connections r ++ extra) r.

(** Two corridors join the same unordered pair of rooms. *)
Definition same_pair (c c' : Corridor.t) : Prop :=
  (Corridor.from c = Corridor.from c' /\ Corridor.to c = Corridor.to c')
  \/ (Corridor.from c = Corridor.to c' /\ Corridor.to c = Corridor.from c').

(** The pair key of a recorded corridor. *)
Definition corridor_key (c : Corridor.t) : string :=
  TopologyEngine.pair_key (Corridor.from c) (Corridor.to c).
End Wf.

(** The invariants of one run of [generateCorridors] in [world.js]. *)
Module TopologyInv.
Import TopologyEngine.

(** A group holds distinct positions below [n]. *)
Definition group_ok (n : nat) (tg : string * list nat) : Prop :=
  NoDup (snd tg) /\ Forall (fun i => i < n) (snd tg).

(** Every group holds distinct positions of [rooms]. *)
Definition groups_ok (st : Gen) : Prop :=
  Forall (group_ok (List.length (rooms st))) (byTopic st).

(** Every key of [corridorSet] is the key of two room objects that both have
    a connection. *)
Definition keys_ok (st : Gen) : Prop :=
  forall k, k ∈ corridorSet st ->
    exists a b ra rb,
      rooms st !! a = Some ra /\ rooms st !! b = Some rb
      /\ k = pair_key (Room.id ra) (Room.id rb)
      /\ Room.connections ra <> [] /\ Room.connections rb <> [].

Definition Inv (st : Gen) : Prop :=
  Wf.rooms (rooms st) /\ groups_ok st /\ keys_ok st.

(** Every recorded corridor is in the connections of its two ends. *)
Definition recorded (rs : list Room.t) (cs : list Corridor.t) : Prop :=
  forall c, c ∈ cs ->
    exists a b ra rb,
      rs !! a = Some ra /\ rs !! b = Some rb
      /\ Corridor.from c = Room.id ra /\ Corridor.to c = Room.id rb
      /\ Corridor.to c ∈ Room.connections ra
      /\ Corridor.from c ∈ Room.connections rb.

(** [corridorSet] holds the keys of the recorded corridors, and no key is
    recorded twice. *)
Definition keyed (st : Gen) : Prop :=
  NoDup (map Wf.corridor_key (corridors st))
  /\ forall k, k ∈ corridorSet st <-> k ∈ map Wf.corridor_key (corridors st).

End TopologyInv.

(** What the connectivity pass knows about its running best while it scans
    [cands] for the room [r]: either nothing was found yet and [bestSim] is
    still -1, or [bestRoom] is a scanned position whose room has another id. *)
Module BestInv.
Local Open Scope R_scope.

Definition J (rs : list Room.t) (r : Room.t) (cands : list nat) (best : Topology.Best)
  : Prop :=
  (snd best = None /\ fst best = -1)
  \/ exists b o, snd best = Some b /\ b ∈ cands /\ rs !! b = Some o
                 /\ Room.id o <> Room.id r.
End BestInv.

(** The relations used in the facts on [prune] and on [detect]. *)
Module PruneRel.
(** [r'] is the room object [r] after the trace pushes of [prune]: nothing
    but the [traces] field may differ. *)
Definition kept_as (r r' : Room.t) : Prop := r' = Room.with_traces (Room.traces r') r.
End PruneRel.

Module EventRel.
(** A "topic emerged" event. *)
Definition is_emerged (e : Event.t) : Prop := Event.type e = "topic_emerged".

#[global] Instance is_emerged_dec (e : Event.t) : Decision (is_emerged e).
Proof. unfold is_emerged. apply _. Defined.
End EventRel.

(** ** Concrete rooms, inhabitants and draws for the instances *)

Module Samples.
Local Open Scope R_scope.

(** A room created at time 0 with a half-life of one hour, ticked one hour
    (3 600 000 ms) later. *)
Definition hour_room : Room.t :=
  sample_room "room_00000001" "tech" 0 0 (Entropy.mk 0 3600 0).

(** A room whose creation time lies after the tick time. *)
Definition future_room : Room.t :=
  sample_room "room_00000002" "tech" 0 0 (Entropy.mk 0 3600 1000).


(** Two rooms of different topics, with opposite extreme sentiments and
    viralities more than 5 apart. *)
Definition gloomy_room : Room.t :=
  sample_room "room_0000000a" "tech" (-1) 0 (Entropy.mk 0 3600 0).
Definition sunny_room : Room.t :=
  sample_room "room_0000000b" "politics" 1 6 (Entropy.mk 0 50400 0).

(** The draw 0.5. *)
Definition half : Unit01 := mkUnit01 0.5 ltac:(lra).

(** Scenario B of the specification: three rooms in cycle 8, last refreshed
    in cycles 3, 3 and 5, with scores 0.6, 0.5 and 0.9. *)
Definition scenario_room (i : string) (s : R) (c : Z) : Room.t :=
  Room.with_lastRefreshedCycle (Some c)
    (sample_room i "tech" 0 0 (Entropy.mk s 3600 0)).

Definition scenario_rooms : list Room.t :=
  [scenario_room "room_000000b1" 0.6 3;
   scenario_room "room_000000b2" 0.5 3;
   scenario_room "room_000000b3" 0.9 5].

(** An inhabitant of topic "tech" that sits in a room, in a world whose only
    room has the topic "culture". *)
Definition settled : Entity.t :=
  Entity.mk "entity__nexvoidai" "@nexvoidai" "person" ["tech"] 4 0 0 0.5
    (Some "room_000000c1") [] [].

Definition culture_rooms : list Room.t :=
  [sample_room "room_000000c2" "culture" 0 0 (Entropy.mk 0 3600 0)].

(** Two rooms of one topic, for the concrete instances. *)
Definition pair_rooms : list Room.t :=
  [sample_room "room_000000d1" "tech" 0.5 1 (Entropy.mk 0 10800 0);
   sample_room "room_000000d2" "tech" 0.3 1 (Entropy.mk 0 10800 0)].
End Samples.

(** ** Auxiliary notions for the further facts *)

Module More.
(** The order of the reals is decidable, as the comparisons of the source are. *)
#[global] Instance Rlt_decision (x y : R) : Decision (x < y)%R := Rlt_dec x y.
#[global] Instance Rle_decision (x y : R) : Decision (x <= y)%R := Rle_dec x y.

(** The running count of a topic in [topicStats]. *)
Definition stat_count (p : string * (nat * R)) : nat := fst (snd p).

(** The trace array of a room holds at most five traces. *)
Definition traces_within (room : Room.t) : Prop :=
  List.length (default [] (Room.traces room)) <= 5.

(** The test of the first loop of [prune] for pruning a room. *)
Definition prunable (currentCycle staleCycles : Z) (room : Room.t) : bool :=
  PruneEngine.isStale currentCycle staleCycles room && PruneEngine.isDecaying room.

(** The order of [sort((a, b) => a.entropy.score - b.entropy.score)]. *)
Definition healthier (a b : Room.t) : Prop := (Room.score a <= Room.score b)%R.

(** What [wander] leaves alone in an inhabitant: all but the current room
    and the movement history. *)
Definition same_inhabitant (e e' : Entity.t) : Prop :=
  e' = Entity.with_history (Entity.history e')
         (Entity.with_currentRoom (Entity.currentRoom e') e).

(** The movement history holds at most twenty moves. *)
Definition history_within (e : Entity.t) : Prop := List.length (Entity.history e) <= 20.

(** The number of connection entries over all rooms. *)
Definition connection_total (rs : list Room.t) : nat :=
  list_sum (map (fun r => List.length (Room.connections r)) rs).

(** A corridor between two different rooms. *)
Definition proper (c : Corridor.t) : Prop := Corridor.from c <> Corridor.to c.

(** A group of [byTopic] holds positions of rooms of [rs] that have the
    topic of the group. *)
Definition group_by_topic (rs : list Room.t) (tg : string * list nat) : Prop :=
  Forall (fun i => exists r, rs !! i = Some r /\ Room.topic r = fst tg) (snd tg).

Definition groups_by_topic (rs : list Room.t) (m : list (string * list nat)) : Prop :=
  Forall (group_by_topic rs) m.

(** What a run of [generateCorridors] of [world.js] on [rs] keeps: the rooms
    are those of [rs] with more connections, the groups hold distinct rooms
    of their topic, and no recorded corridor joins a room to itself. *)
Definition sound (rs : list Room.t) (st : TopologyEngine.Gen) : Prop :=
  Forall2 Wf.grows rs (TopologyEngine.rooms st)
  /\ TopologyInv.groups_ok st
  /\ groups_by_topic rs (TopologyEngine.byTopic st)
  /\ Forall proper (TopologyEngine.corridors st).

(** The same for the engine of [topology.js]. *)
Definition sound_v1 (rs : list Room.t) (st : TopologyEngineV1.Gen) : Prop :=
  Forall2 Wf.grows rs (TopologyEngineV1.rooms st)
  /\ Forall proper (TopologyEngineV1.corridors st).

(** A first cycle for the concrete instances: a world without rooms gets
    one observation, and the room generator makes the two rooms of
    [Samples.pair_rooms]. *)
Definition empty_world : World.t :=
  World.mk (WorldState.mk 2 0 None 0 [] [] [] [] None None None) [].

Definition one_observation : list Observation.t :=
  [Observation.mk "1" "text" "2026-01-01T00:00:00.000Z" "tech" 0 0].

Definition first_cycle : World.t :=
  World.cycle (fun _ => Samples.half) (fun _ l => l) (fun _ => "") (fun _ => "")
    (fun _ => "") (fun s _ n => (s, n)) (fun c _ => c)
    (fun _ _ n => (Samples.pair_rooms, n)) (fun _ _ es => es) (fun _ n => ("", n))
    (fun _ _ n => (fun _ => (0%R, 0%R), n)) empty_world one_observation 0 0.

(** The number of words in which an entry of the lexicon occurs. *)
Definition hits (lexicon words : list string) : nat :=
  List.length (List.filter (TwitterObserver.some_included lexicon) words).

(** The topics that [classifyTopic] can return. *)
Definition topic_names : list string := map fst TwitterObserver.topics ++ ["liminal"].

(** An observation as [processObservations] makes it. *)
Definition observed (o : Observation.t) : Prop :=
  (-1 <= Observation.sentiment o <= 1)%R
  /\ (0 <= Observation.virality o)%R
  /\ Observation.topic o ∈ topic_names.

(** An inhabitant within its bounds: a strength in [0, 1] and at most ten
    recent contexts. *)
Definition entity_within (e : Entity.t) : Prop :=
  (0 <= Entity.strength e <= 1)%R /\ List.length (Entity.recentContexts e) <= 10.

(** An inhabitant that the removal loop of [update] cannot take, whatever
    the mentions are: strong enough to stay above 0 after a decay, or seen
    within the last hour. *)
Definition lasting (now : R) (e : Entity.t) : Prop :=
  (0.05 < Entity.strength e)%R \/ (now - Entity.lastSeen e <= 3600000)%R.

(** [key.replace(/[^a-z0-9]/g, '_')] on a key of ASCII characters. *)
Fixpoint sanitize_ascii (key : string) : string :=
  match key with
  | EmptyString => EmptyString
  | String c rest =>
      let k := nat_of_ascii c in
      String
        (if ((97 <=? k)%nat && (k <=? 122)%nat) || ((48 <=? k)%nat && (k <=? 57)%nat)
         then c else "_"%char)
        (sanitize_ascii rest)
  end.

(** A tracker with one inhabitant that is mentioned again, under both of its
    keys, and a new name that is mentioned often enough. *)
Definition sample_mentions : list (string * Mention.t) :=
  [("@nexvoidai", Mention.mk "@nexvoidai" 3 ["seen in the halls"] "person" ["tech"]);
   ("#nexvoidai", Mention.mk "#nexvoidai" 4 ["tagged"] "concept" ["culture"]);
   ("word:substrate", Mention.mk "substrate" 5 ["the substrate hums"] "concept" ["tech"]);
   ("word:people", Mention.mk "people" 9 [] "concept" ["tech"])].

(** The room that [generateRoom] makes from an observation, but for its id
    and its fragments. *)
Definition made_from (now : R) (obs : Observation.t) (room : Room.t) : Prop :=
  Room.topic room = Observation.topic obs
  /\ Room.sentiment room = Observation.sentiment obs
  /\ Room.virality room = Observation.virality obs
  /\ Room.entropy room = RoomGenerator.calculateEntropy (Observation.virality obs) now
  /\ Room.dimensions room
     = RoomGenerator.calculateDimensions (Observation.virality obs)
         (Observation.sentiment obs)
  /\ Room.connections room = []
  /\ Room.archetype room
     = ArchetypeEntry.look (RoomGenerator.archetype_of (Observation.topic obs))
  /\ Room.name room
     ∈ ArchetypeEntry.names (RoomGenerator.archetype_of (Observation.topic obs)).

(** The result of a run of the generator that made one room from each of
    [chosen], in order: the ids are the next ids of [generateId], and the
    room count and the count of draws went up by one per room. *)
Definition generated (generateId : nat -> string) (now : R) (roomCount n : nat)
    (chosen : list Observation.t) (res : list Room.t * nat * nat) : Prop :=
  Forall2 (made_from now) chosen (fst (fst res))
  /\ map Room.id (fst (fst res)) = map generateId (seq roomCount (List.length chosen))
  /\ snd (fst res) = roomCount + List.length chosen
  /\ snd res = n + List.length chosen.

(** Three observations of one topic and one of another. *)
Definition sample_observations : list Observation.t :=
  [Observation.mk "1" "the model hums" "2026-01-01T00:00:00.000Z" "tech" 0 1;
   Observation.mk "2" "a vote is cast" "2026-01-01T00:00:01.000Z" "politics" (-0.5) 0;
   Observation.mk "3" "code that loves data" "2026-01-01T00:00:02.000Z" "tech" 1 2;
   Observation.mk "4" "the api is dark" "2026-01-01T00:00:03.000Z" "tech" (-1) 0].

(** What [scrambleText] may put in the place of a code unit: a space stays
    a space, any other code unit stays or becomes a glitch character. *)
Definition glitched (c c' : N) : Prop :=
  (c = DecayText.space -> c' = DecayText.space)
  /\ (c <> DecayText.space -> c' = c \/ c' ∈ DecayText.glitchChars)
  /\ (c' = DecayText.space -> c = DecayText.space).

(** The code units that are no spaces. *)
Definition inked (text : list N) : list N :=
  List.filter (fun c => negb (N.eqb c DecayText.space)) text.

End More.

(** * Facts

    ** Numbers *)

Module NumFacts.
Import Num.
Local Open Scope R_scope.

Lemma geb_true a b : geb a b = true <-> b <= a.
Proof. unfold geb. destruct (Rle_dec b a); split; auto; discriminate. Qed.

Lemma geb_false a b : geb a b = false <-> a < b.
Proof. unfold geb. destruct (Rle_dec b a); split; try discriminate; auto; lra. Qed.


Lemma gtb_false a b : gtb a b = false <-> a <= b.
Proof. unfold gtb. destruct (Rlt_dec b a); split; try discriminate; auto; lra. Qed.

Lemma ltb_true a b : ltb a b = true <-> a < b.
Proof. unfold ltb. destruct (Rlt_dec a b); split; auto; discriminate. Qed.

Lemma floor_bounds x : IZR (floor x) <= x < IZR (floor x) + 1.
Proof.
    unfold floor. pose proof (base_Int_part x) as [H1 H2]. lra.
Qed.

Lemma random_index_lt (u : R) (m : nat) :
    0 <= u < 1 -> (0 < m)%nat -> (random_index u m < m)%nat.
Proof.
    intros [Hu0 Hu1] Hm. unfold random_index.
    pose proof (floor_bounds (u * INR m)) as [Hlo Hhi].
    assert (Hm' : 0 < INR m) by (apply lt_0_INR; lia).
    assert (Hlt : IZR (floor (u * INR m)) < IZR (Z.of_nat m)).
    { rewrite <- INR_IZR_INZ. nra. }
    apply lt_IZR in Hlt. lia.
Qed.

(** [exp (2 t)] from [exp t]: the step of the numeric bounds below. *)
Lemma exp_square_step (a b t : R) :
    0 <= a -> a <= exp t -> b <= a * a -> b <= exp (2 * t).
Proof.
    intros Ha Hle Hb.
    replace (2 * t) with (t + t) by lra.
    rewrite exp_plus. nra.
Qed.

Ltac exp_sq H a b :=
    apply (exp_square_step a b) in H; [ | lra | lra ].

Lemma exp_0693_ge : 1.99964 <= exp 0.693.
Proof.
    assert (H : 1.000084594726 <= exp (0.693 / 8192)).
    { pose proof (exp_ineq1_le (0.693 / 8192)). lra. }
    exp_sq H 1.000084594726 1.000169196608.
    exp_sq H 1.000169196608 1.000338421843.
    exp_sq H 1.000338421843 1.000676958215.
    exp_sq H 1.000676958215 1.001354374702.
    exp_sq H 1.001354374702 1.002710583734.
    exp_sq H 1.002710583734 1.005428514732.
    exp_sq H 1.005428514732 1.010886498236.
    exp_sq H 1.010886498236 1.021891512315.
    exp_sq H 1.021891512315 1.044262262941.
    exp_sq H 1.044262262941 1.090483673802.
    exp_sq H 1.090483673802 1.189154642828.
    exp_sq H 1.189154642828 1.414088764559.
    exp_sq H 1.414088764559 1.999647034051.
    replace 0.693 with
      (2 * (2 * (2 * (2 * (2 * (2 * (2 * (2 * (2 * (2 * (2 * (2 * (2 *
         (0.693 / 8192)))))))))))))) by lra.
    lra.
Qed.

Lemma exp_neg_0693_ge : 0.50001 <= exp (- 0.693).
Proof.
    assert (H : 0.999661621093 <= exp (- 0.693 / 2048)).
    { pose proof (exp_ineq1_le (- 0.693 / 2048)). lra. }
    exp_sq H 0.999661621093 0.999323356686.
    exp_sq H 0.999323356686 0.998647171218.
    exp_sq H 0.998647171218 0.997296172581.
    exp_sq H 0.997296172581 0.994599655844.
    exp_sq H 0.994599655844 0.989228475405.
    exp_sq H 0.989228475405 0.978572976552.
    exp_sq H 0.978572976552 0.957605070437.
    exp_sq H 0.957605070437 0.917007470926.
    exp_sq H 0.917007470926 0.840902701734.
    exp_sq H 0.840902701734 0.707117353783.
    exp_sq H 0.707117353783 0.500014952021.
    replace (- 0.693) with
      (2 * (2 * (2 * (2 * (2 * (2 * (2 * (2 * (2 * (2 * (2 *
         (- 0.693 / 2048)))))))))))) by lra.
    lra.
Qed.

Lemma exp_neg_0693_le : exp (- 0.693) <= 0.500095.
Proof.
    pose proof exp_0693_ge as Hge.
    pose proof (exp_pos 0.693) as Hpos.
    pose proof (exp_pos (- 0.693)) as Hpos'.
    assert (Hinv : exp (- 0.693) * exp 0.693 = 1).
    { rewrite <- exp_plus. replace (- 0.693 + 0.693) with 0 by lra. apply exp_0. }
    nra.
Qed.
(** The index [Math.floor(Math.random() * Math.min(3, l.length))] names an
    element of a nonempty array [l]: the lookups of [wander] and of the
    absorption in [prune] never miss. *)
Lemma pick_in_range {A : Type} (u : Unit01) (l : list A) :
  l <> [] -> is_Some (l !! random_index (draw u) (Nat.min 3 (List.length l))).
Proof.
  intros Hne. apply lookup_lt_is_Some_2.
  assert (Hlen : (0 < List.length l)%nat) by (destruct l; [contradiction | simpl; lia]).
  pose proof (random_index_lt (draw u) (Nat.min 3 (List.length l)) (draw_range u)
                ltac:(lia)).
  lia.
Qed.
End NumFacts.

(** ** DecayEngine *)

Module DecayFacts.
Import DecayEngine Samples.
Local Open Scope R_scope.

Lemma score_with_score (s : R) (room : Room.t) :
  Room.score (Room.with_score s room) = s.
Proof. reflexivity. Qed.

Lemma score_tick_room (now : R) (room : Room.t) :
  Room.score (tick_room now room) = Rmin 1 (decay now room).
Proof. reflexivity. Qed.

(** [tick] reads the creation time and the half-life only, so ticking a room
    that was ticked before gives the same score as ticking the original. *)
Lemma tick_room_idem (now1 now2 : R) (room : Room.t) :
  tick_room now2 (tick_room now1 room) = tick_room now2 room.
Proof. destruct room as [? ? ? ? ? ? ? [? ? ?] ? ? ? ? ? ? ?]. reflexivity. Qed.


Lemma decay_at_half_life (now : R) (room : Room.t) :
  0 < Entropy.halfLife (Room.entropy room) ->
  (now - Entropy.createdAt (Room.entropy room)) / 1000
    = Entropy.halfLife (Room.entropy room) ->
  decay now room = 1 - exp (- 0.693).
Proof.
  intros Hpos Hel. unfold decay. rewrite Hel.
  f_equal. f_equal. field. lra.
Qed.

(** C1 (as amended).  When the elapsed time equals the half-life, [tick]
    writes a score within 1e-4 of 0.5 and returns the room as active: the
    code uses the constant 0.693 for ln 2, so the score is 1 - exp(-0.693),
    about 0.49993. *)
Theorem tick_at_half_life (now : R) (room : Room.t) :
  0 < Entropy.halfLife (Room.entropy room) ->
  (now - Entropy.createdAt (Room.entropy room)) / 1000
    = Entropy.halfLife (Room.entropy room) ->
  tick [room] now = mkTick [tick_room now room] [] []
  /\ Rabs (Room.score (tick_room now room) - 0.5) < 0.0001.
Proof.
  intros Hpos Hel.
  pose proof NumFacts.exp_neg_0693_ge as Hge. pose proof NumFacts.exp_neg_0693_le as Hle.
  assert (Hscore : Room.score (tick_room now room) = 1 - exp (- 0.693)).
  { rewrite score_tick_room, (decay_at_half_life _ _ Hpos Hel).
    apply Rmin_right. lra. }
  split.
  - cbn [tick]. rewrite Hscore.
    rewrite (proj2 (NumFacts.geb_false _ 1)) by lra.
    rewrite (proj2 (NumFacts.geb_false _ 0.7)) by lra. reflexivity.
  - rewrite Hscore. apply Rabs_def1; lra.
Qed.

Lemma tick_at_half_life_witness :
  tick [hour_room] 3600000 = mkTick [tick_room 3600000 hour_room] [] []
  /\ Rabs (Room.score (tick_room 3600000 hour_room) - 0.5) < 0.0001.
Proof.
  apply tick_at_half_life; simpl; lra.
Defined.

(** C1 (as stated) fails: at the half-life the score is not within 1e-9 of
    0.5. *)
Lemma tick_at_half_life_not_1e9 :
  (3600000 - Entropy.createdAt (Room.entropy hour_room)) / 1000
    = Entropy.halfLife (Room.entropy hour_room)
  /\ ~ Rabs (Room.score (tick_room 3600000 hour_room) - 0.5) <= 0.000000001.
Proof.
  split; [simpl; lra|].
  rewrite score_tick_room, (decay_at_half_life 3600000 hour_room) by (simpl; lra).
  pose proof NumFacts.exp_neg_0693_ge.
  rewrite Rmin_right by lra.
  unfold Rabs. destruct (Rcase_abs _); lra.
Qed.


Lemma exp_le_mono (x y : R) : x <= y -> exp x <= exp y.
Proof.
  intros [Hlt | ->]; [left; apply exp_increasing; exact Hlt | right; reflexivity].
Qed.






Section Warp.
Variable rand : nat -> R.
Variable scrambleText : string -> R -> nat -> string * nat.
Variable dimColor : string -> R -> string.




End Warp.

End DecayFacts.

(** ** Similarity *)

Module SimilarityFacts.
Import Topology Samples.
Local Open Scope R_scope.

(** The three summands of [similarity]. *)
Lemma similarity_eq (a b : Room.t) :
  similarity a b
  = (if String.eqb (Room.topic a) (Room.topic b) then 0.5 else 0)
    + (1 - Rabs (Room.sentiment a - Room.sentiment b)) * 0.3
    + Rmax 0 (1 - Rabs (Room.virality a - Room.virality b) / 5) * 0.2.
Proof. unfold similarity. destruct (String.eqb _ _); ring. Qed.

(** With sentiments in [-1,1] the score lies between -0.3 and 1. *)
Lemma similarity_range (a b : Room.t) :
  -1 <= Room.sentiment a <= 1 -> -1 <= Room.sentiment b <= 1 ->
  -0.3 <= similarity a b <= 1.
Proof.
  intros Ha Hb. rewrite similarity_eq.
  assert (Hs : 0 <= Rabs (Room.sentiment a - Room.sentiment b) <= 2).
  { split; [apply Rabs_pos|]. apply Rabs_le. lra. }
  pose proof (Rabs_pos (Room.virality a - Room.virality b)) as Hv.
  assert (Hm : 0 <= Rmax 0 (1 - Rabs (Room.virality a - Room.virality b) / 5) <= 1).
  { split; [apply Rmax_l|]. apply Rmax_lub; lra. }
  destruct (String.eqb _ _); lra.
Qed.

(** C4.  The sentiments of the two rooms are in [-1,1] and their viralities
    are nonnegative, yet [similarity] returns -0.3, outside [0,1]. *)
Theorem similarity_negative :
  (-1 <= Room.sentiment gloomy_room <= 1 /\ -1 <= Room.sentiment sunny_room <= 1)
  /\ (0 <= Room.virality gloomy_room /\ 0 <= Room.virality sunny_room)
  /\ similarity gloomy_room sunny_room = -0.3
  /\ ~ (0 <= similarity gloomy_room sunny_room <= 1).
Proof.
  assert (Hsim : similarity gloomy_room sunny_room = -0.3).
  { rewrite similarity_eq. simpl.
    unfold Rabs, Rmax.
    repeat (destruct (Rcase_abs _)); try lra; destruct (Rle_dec _ _); lra. }
  repeat split; simpl; lra.
Qed.
End SimilarityFacts.

(** ** PruneEngine *)

Module PruneFacts.
Import PruneEngine PruneRel Samples.
Local Open Scope R_scope.

Lemma kept_as_refl (r : Room.t) : kept_as r r.
Proof. destruct r; reflexivity. Qed.

Lemma kept_as_push_trace (tr : Trace.t) (r r' : Room.t) :
  kept_as r r' -> kept_as r (push_trace tr r').
Proof.
  unfold kept_as, push_trace. intros ->. destruct r; reflexivity.
Qed.

Lemma kept_as_score (r r' : Room.t) : kept_as r r' -> Room.score r' = Room.score r.
Proof. intros ->. destruct r; reflexivity. Qed.

Lemma kept_as_id (r r' : Room.t) : kept_as r r' -> Room.id r' = Room.id r.
Proof. intros ->. destruct r; reflexivity. Qed.

Lemma update_first_kept_as (rid : string) (tr : Trace.t) (l l' : list Room.t) :
  Forall2 kept_as l l' -> Forall2 kept_as l (update_first rid (push_trace tr) l').
Proof.
  induction 1 as [|r r' l l' Hr Hl IH]; simpl; [constructor|].
  destruct (String.eqb _ _); constructor; auto using kept_as_push_trace.
Qed.

Lemma alter_kept_as (i : nat) (tr : Trace.t) (l l' : list Room.t) :
  Forall2 kept_as l l' -> Forall2 kept_as l (alter (push_trace tr) i l').
Proof.
  intros H. revert i.
  induction H as [|r r' l l' Hr Hl IH]; intros [|i]; cbn;
    constructor; auto using kept_as_push_trace.

Qed.

Lemma distribute_kept_as (tr : Trace.t) (ns : list string) (l l' : list Room.t) :
  Forall2 kept_as l l' -> Forall2 kept_as l (distribute tr ns l').
Proof.
  unfold distribute. revert l'.
  induction ns as [|nid ns IH]; intros l' H; simpl; [exact H|].
  apply IH, update_first_kept_as, H.
Qed.

Section Oracles.
Variable rand : nat -> Unit01.
Variable toFixed2 : R -> string.
Variable show_cycles : Z -> string.

Lemma absorb_kept_as (tr : Trace.t) (topic : string) (l l' : list Room.t) (n : nat) :
  Forall2 kept_as l l' -> Forall2 kept_as l (fst (absorb rand tr topic l' n)).
Proof.
  intros H. unfold absorb.
  destruct (0 <? _)%nat; [|exact H].
  destruct (_ !! _); simpl; [apply alter_kept_as, H | exact H].
Qed.

Lemma prune_room_kept_as corridors prunedIds currentCycle staleCycles now
    (acc : Acc) (room : Room.t) (l : list Room.t) :
  Forall2 kept_as l (acc_kept acc) ->
  Forall2 kept_as l
    (acc_kept (prune_room rand toFixed2 show_cycles corridors prunedIds
                 currentCycle staleCycles now acc room)).
Proof.
  intros H. unfold prune_room.
  set (living := filter _ _).
  pose proof (distribute_kept_as (trace_of room now) living _ _ H) as Hd.
  destruct (List.length living =? 0)%nat.
  - pose proof (absorb_kept_as (trace_of room now) (Room.topic room) _ _
                  (acc_draws acc) Hd) as Ha.
    destruct (absorb _ _ _ _ _). exact Ha.
  - exact Hd.
Qed.

Lemma fold_prune_room_kept_as corridors prunedIds currentCycle staleCycles now
    (toPrune : list Room.t) (acc : Acc) (l : list Room.t) :
  Forall2 kept_as l (acc_kept acc) ->
  Forall2 kept_as l
    (acc_kept (fold_left (prune_room rand toFixed2 show_cycles corridors prunedIds
                            currentCycle staleCycles now) toPrune acc)).
Proof.
  revert acc. induction toPrune as [|room rest IH]; intros acc H; simpl; [exact H|].
  apply IH, prune_room_kept_as, H.
Qed.

(** What [prune] returns, in terms of the first loop. *)
Lemma prune_result currentCycle rooms corridors staleCycles now n :
  let res := fst (prune rand toFixed2 show_cycles currentCycle rooms corridors
                    staleCycles now n) in
  pruned res = fst (split_rooms currentCycle staleCycles rooms)
  /\ Forall2 kept_as (snd (split_rooms currentCycle staleCycles rooms)) (kept res).
Proof.
  unfold prune.
  destruct (split_rooms currentCycle staleCycles rooms) as [toPrune toKeep].
  simpl. split; [reflexivity|].
  apply fold_prune_room_kept_as. simpl.
  induction toKeep; constructor; auto using kept_as_refl.
Qed.
End Oracles.

(** The first loop sends every room to exactly one of the two arrays. *)
Lemma split_rooms_stale_decaying currentCycle staleCycles rooms room :
  room ∈ rooms ->
  isStale currentCycle staleCycles room = true -> isDecaying room = true ->
  room ∈ fst (split_rooms currentCycle staleCycles rooms).
Proof.
  intros Hin Hs Hd.
  induction rooms as [|r rest IH]; [inversion Hin|].
  simpl. destruct (split_rooms currentCycle staleCycles rest) as [toPrune toKeep].
  apply elem_of_cons in Hin as [<- | Hin].
  - rewrite Hs, Hd. simpl. left.
  - specialize (IH Hin). simpl in IH.
    destruct (isStale _ _ r && isDecaying r);
      [|destruct (isStale _ _ r && Num.geb _ _)]; simpl; auto. right. exact IH.
Qed.

Lemma split_rooms_stale_moderate currentCycle staleCycles rooms room :
  room ∈ rooms ->
  isStale currentCycle staleCycles room = true -> isDecaying room = false ->
  Num.geb (Room.score room) 0.4 = true ->
  Room.with_score (Rmin 1 (Room.score room + 0.15)) room
    ∈ snd (split_rooms currentCycle staleCycles rooms).
Proof.
  intros Hin Hs Hd Hm.
  induction rooms as [|r rest IH]; [inversion Hin|].
  simpl. destruct (split_rooms currentCycle staleCycles rest) as [toPrune toKeep].
  apply elem_of_cons in Hin as [<- | Hin].
  - rewrite Hs, Hd, Hm. simpl. left.
  - specialize (IH Hin). simpl in IH.
    destruct (isStale _ _ r && isDecaying r);
      [|destruct (isStale _ _ r && Num.geb _ _)]; simpl; auto; right; exact IH.
Qed.

Lemma split_rooms_fresh currentCycle staleCycles rooms room :
  room ∈ rooms ->
  isStale currentCycle staleCycles room = false ->
  room ∈ snd (split_rooms currentCycle staleCycles rooms).
Proof.
  intros Hin Hs.
  induction rooms as [|r rest IH]; [inversion Hin|].
  simpl. destruct (split_rooms currentCycle staleCycles rest) as [toPrune toKeep].
  apply elem_of_cons in Hin as [<- | Hin].
  - rewrite Hs. simpl. left.
  - specialize (IH Hin). simpl in IH.
    destruct (isStale _ _ r && isDecaying r);
      [|destruct (isStale _ _ r && Num.geb _ _)]; simpl; auto; right; exact IH.
Qed.

Lemma split_rooms_ids currentCycle staleCycles rooms :
  map Room.id (snd (split_rooms currentCycle staleCycles rooms))
    ++ map Room.id (fst (split_rooms currentCycle staleCycles rooms))
  ≡ₚ map Room.id rooms.
Proof.
  induction rooms as [|r rest IH]; simpl; [reflexivity|].
  destruct (split_rooms currentCycle staleCycles rest) as [toPrune toKeep].
  simpl in IH.
  destruct (isStale _ _ r && isDecaying r);
    [|destruct (isStale _ _ r && Num.geb _ _)]; simpl.
  - rewrite <- IH. symmetry. apply Permutation_middle.
  - rewrite <- IH. destruct r; reflexivity.
  - rewrite <- IH. reflexivity.
Qed.

Lemma Forall2_kept_as_ids (l l' : list Room.t) :
  Forall2 kept_as l l' -> map Room.id l' = map Room.id l.
Proof.
  induction 1; simpl; [reflexivity|]. f_equal; auto using kept_as_id.
Qed.

Lemma Forall2_kept_as_elem (l l' : list Room.t) (r : Room.t) :
  Forall2 kept_as l l' -> r ∈ l -> exists r', r' ∈ l' /\ kept_as r r'.
Proof.
  intros H Hin. apply list_elem_of_lookup in Hin as [i Hi].
  destruct (Forall2_lookup_l _ _ _ _ _ H Hi) as (r' & Hr' & Hk).
  exists r'. split; [eapply list_elem_of_lookup_2; eauto | exact Hk].
Qed.

Section Claim.
Variable rand : nat -> Unit01.
Variable toFixed2 : R -> string.
Variable show_cycles : Z -> string.

(** C7.  With [staleCycles = 5], for every room of the input: at age >= 5
    and score >= 0.6 it is pruned; at age >= 5 and score in [0.4, 0.6) it is
    kept with its score raised by 0.15 (capped at 1); at age < 5 it is kept
    with its score unchanged (a kept room differs from the input room in its
    traces at most); and the kept and the pruned rooms together are exactly
    the input rooms. *)
Theorem prune_stale_rooms currentCycle rooms corridors now n (room : Room.t) :
  room ∈ rooms ->
  let res := fst (prune rand toFixed2 show_cycles currentCycle rooms corridors 5 now n) in
  ((5 <= age currentCycle room)%Z -> 0.6 <= Room.score room -> room ∈ pruned res)
  /\ ((5 <= age currentCycle room)%Z -> 0.4 <= Room.score room < 0.6 ->
      exists room', room' ∈ kept res
        /\ kept_as (Room.with_score (Rmin 1 (Room.score room + 0.15)) room) room'
        /\ Room.score room' = Rmin 1 (Room.score room + 0.15))
  /\ ((age currentCycle room < 5)%Z ->
      exists room', room' ∈ kept res /\ kept_as room room'
        /\ Room.score room' = Room.score room)
  /\ map Room.id (kept res) ++ map Room.id (pruned res) ≡ₚ map Room.id rooms
  /\ (List.length (kept res) + List.length (pruned res) = List.length rooms)%nat.
Proof.
  intros Hin res.
  destruct (prune_result rand toFixed2 show_cycles currentCycle rooms corridors 5 now n)
    as [Hp Hk].
  fold res in Hp, Hk.
  assert (Hperm : map Room.id (kept res) ++ map Room.id (pruned res) ≡ₚ map Room.id rooms).
  { rewrite Hp, (Forall2_kept_as_ids _ _ Hk). apply split_rooms_ids. }
  repeat split.
  - intros Hage Hscore. rewrite Hp.
    apply split_rooms_stale_decaying; [exact Hin | |].
    + unfold isStale. apply Z.leb_le. exact Hage.
    + unfold isDecaying. apply NumFacts.geb_true. exact Hscore.
  - intros Hage [Hlo Hhi].
    destruct (Forall2_kept_as_elem _ _ _ Hk
                (split_rooms_stale_moderate currentCycle 5 rooms room Hin
                   ltac:(unfold isStale; apply Z.leb_le; exact Hage)
                   ltac:(unfold isDecaying; apply NumFacts.geb_false; exact Hhi)
                   ltac:(apply NumFacts.geb_true; exact Hlo)))
      as (room' & Hin' & Hkept).
    exists room'. repeat split; [exact Hin' | exact Hkept |].
    rewrite (kept_as_score _ _ Hkept). destruct room as [? ? ? ? ? ? ? [? ? ?] ? ? ? ? ? ? ?].
    reflexivity.
  - intros Hage.
    destruct (Forall2_kept_as_elem _ _ _ Hk
                (split_rooms_fresh currentCycle 5 rooms room Hin
                   ltac:(unfold isStale; apply Z.leb_gt; exact Hage)))
      as (room' & Hin' & Hkept).
    exists room'. repeat split; [exact Hin' | exact Hkept |].
    apply kept_as_score, Hkept.
  - exact Hperm.
  - apply Permutation_length in Hperm.
    rewrite length_app, !length_map in Hperm. exact Hperm.
Qed.
End Claim.

Lemma prune_stale_rooms_witness :
  scenario_room "room_000000b1" 0.6 3
    ∈ pruned (fst (prune (fun _ => half) (fun _ => "") (fun _ => "") 8
                     scenario_rooms [] 5 0 0)).
Proof.
  refine (proj1 (prune_stale_rooms (fun _ => half) (fun _ => "") (fun _ => "") 8
                   scenario_rooms [] 0 0 (scenario_room "room_000000b1" 0.6 3) _) _ _).
  - left.
  - vm_compute. discriminate.
  - unfold scenario_room, sample_room, Room.score. simpl. lra.
Defined.
End PruneFacts.

(** ** EntityTracker *)

Module WanderFacts.
Import EntityTracker Samples.
Local Open Scope R_scope.

Lemma filter_none {A : Type} (P : A -> Prop) `{!forall x, Decision (P x)} (l : list A) :
  (forall x, x ∈ l -> ~ P x) -> filter P l = [].
Proof.
  intros Hnone. destruct (filter P l) as [|x l'] eqn:Hf; [reflexivity|].
  assert (Hx : x ∈ filter P l) by (rewrite Hf; left).
  apply list_elem_of_filter in Hx as [HP Hin]. destruct (Hnone x Hin HP).
Qed.

Section Oracles.
Variable rand : nat -> Unit01.

(** An entity none of whose topics has a room is skipped: the object is
    not touched and no random number is drawn. *)
Lemma wander_entity_no_match (rooms : list Room.t) (now : R) (entity : Entity.t) (n : nat) :
  (forall room, room ∈ rooms -> Room.topic room ∉ Entity.topics entity) ->
  wander_entity rand rooms now entity n = (entity, n).
Proof.
  intros H. unfold wander_entity.
  rewrite (filter_none _ rooms) by (intros room Hin; apply H, Hin).
  reflexivity.
Qed.

Lemma wander_length (rooms : list Room.t) (now : R) (entities : list Entity.t) (n : nat) :
  List.length (fst (wander rand rooms now entities n)) = List.length entities.
Proof.
  revert n. induction entities as [|e rest IH]; intros n; simpl; [reflexivity|].
  destruct (wander_entity rand rooms now e n) as [e' n1].
  specialize (IH n1). destruct (wander rand rooms now rest n1) as [rest' n2].
  simpl in *. f_equal. exact IH.
Qed.

(** C8 (as amended).  An inhabitant with no topic-matching room is still
    there after [wander], at its place and unchanged; so its current room
    keeps the value that it had before the call. *)
Theorem wander_no_match_unchanged (rooms : list Room.t) (now : R)
    (entities : list Entity.t) (n i : nat) (entity : Entity.t) :
  entities !! i = Some entity ->
  (forall room, room ∈ rooms -> Room.topic room ∉ Entity.topics entity) ->
  fst (wander rand rooms now entities n) !! i = Some entity
  /\ List.length (fst (wander rand rooms now entities n)) = List.length entities.
Proof.
  intros Hi Hno. split; [|apply wander_length].
  revert n i Hi. induction entities as [|e rest IH]; intros n i Hi; [discriminate|].
  simpl.
  destruct (wander_entity rand rooms now e n) as [e' n1] eqn:He.
  specialize (IH n1).
  destruct (wander rand rooms now rest n1) as [rest' n2].
  destruct i as [|i]; simpl in *.
  - injection Hi as ->. rewrite wander_entity_no_match in He by exact Hno.
    injection He as <- _. reflexivity.
  - apply IH, Hi.
Qed.
End Oracles.

Lemma wander_no_match_unchanged_witness :
  fst (wander (fun _ => half) culture_rooms 0 [settled] 0) !! 0%nat
    = Some settled
  /\ List.length (fst (wander (fun _ => half) culture_rooms 0 [settled] 0))
     = List.length [settled].
Proof.
  apply wander_no_match_unchanged.
  - reflexivity.
  - intros room Hin. apply list_elem_of_singleton in Hin as ->.
    simpl. intros H. apply list_elem_of_singleton in H. discriminate.
Defined.

(** C8 (as stated) fails: no room matches, yet the current room of the
    inhabitant after [wander] is not [null]. *)
Lemma wander_no_match_keeps_room :
  (forall room, room ∈ culture_rooms -> Room.topic room ∉ Entity.topics settled)
  /\ Entity.currentRoom
       <$> fst (wander (fun _ => half) culture_rooms 0 [settled] 0)
     = [Some "room_000000c1"]
  /\ Entity.currentRoom
       <$> fst (wander (fun _ => half) culture_rooms 0 [settled] 0)
     <> [None].
Proof.
  assert (Hno : forall room, room ∈ culture_rooms ->
                  Room.topic room ∉ Entity.topics settled).
  { intros room Hin. apply list_elem_of_singleton in Hin as ->.
    simpl. intros H. apply list_elem_of_singleton in H. discriminate. }
  split; [exact Hno|].
  unfold wander. rewrite wander_entity_no_match by exact Hno. cbn.
  split; [reflexivity | discriminate].
Qed.
End WanderFacts.

(** ** EventTracker and the cycle *)

Module EventFacts.
Import EventTracker EventRel.
Local Open Scope R_scope.

Lemma set_add_elem (x y : string) (s : list string) :
  x ∈ Js.set_add y s <-> x = y \/ x ∈ s.
Proof.
  unfold Js.set_add. destruct (decide (y ∈ s)) as [Hy | Hy].
  - split; [auto|]. intros [-> | H]; assumption.
  - rewrite elem_of_app, list_elem_of_singleton. tauto.
Qed.

Lemma set_add_NoDup (y : string) (s : list string) : NoDup s -> NoDup (Js.set_add y s).
Proof.
  intros Hs. unfold Js.set_add. destruct (decide (y ∈ s)) as [Hy | Hy]; [exact Hs|].
  apply NoDup_app. split; [exact Hs|]. split.
  - intros x Hx Hx'. apply list_elem_of_singleton in Hx'. subst. contradiction.
  - apply NoDup_singleton.
Qed.

Lemma fold_set_add_elem (x : string) (xs s : list string) :
  x ∈ fold_left (fun s y => Js.set_add y s) xs s <-> x ∈ xs \/ x ∈ s.
Proof.
  revert s. induction xs as [|y xs IH]; intros s; simpl.
  - split; [auto|]. intros [H | H]; [inversion H | exact H].
  - rewrite IH, set_add_elem, elem_of_cons. tauto.
Qed.

(** [new Set(xs)] has the elements of [xs]. *)
Lemma set_of_elem (x : string) (xs : list string) : x ∈ Js.set_of xs <-> x ∈ xs.
Proof.
  unfold Js.set_of. rewrite fold_set_add_elem. split; [|auto].
  intros [H | H]; [exact H | inversion H].
Qed.

Lemma emerging_from_elem (existing : list string) (newRooms : list Room.t)
    (acc : list string) (t : string) :
  t ∈ fold_left
        (fun newTopics room =>
           if decide (Room.topic room ∈ existing) then newTopics
           else Js.set_add (Room.topic room) newTopics) newRooms acc
  <-> (t ∈ map Room.topic newRooms /\ t ∉ existing) \/ t ∈ acc.
Proof.
  revert acc. induction newRooms as [|room rest IH]; intros acc; simpl.
  - split; [auto|]. intros [[H _] | H]; [inversion H | exact H].
  - rewrite IH. destruct (decide (Room.topic room ∈ existing)) as [Hex | Hex].
    + rewrite elem_of_cons. split; [tauto|].
      intros [[[-> | H] Hn] | H]; [contradiction | tauto | tauto].
    + rewrite set_add_elem, elem_of_cons. split; [|tauto].
      intros [H | [-> | H]]; tauto.
Qed.

Lemma emerging_from_NoDup (existing : list string) (newRooms : list Room.t)
    (acc : list string) :
  NoDup acc ->
  NoDup (fold_left
           (fun newTopics room =>
              if decide (Room.topic room ∈ existing) then newTopics
              else Js.set_add (Room.topic room) newTopics) newRooms acc).
Proof.
  revert acc. induction newRooms as [|room rest IH]; intros acc Hacc; simpl; [exact Hacc|].
  apply IH. destruct (decide _); auto using set_add_NoDup.
Qed.

(** The set [newTopics] of [detect]: the topics of the new rooms that no
    room of [state.rooms] has, each once. *)
Lemma emerging_spec (existing : list string) (newRooms : list Room.t) (t : string) :
  t ∈ emerging existing newRooms <-> t ∈ map Room.topic newRooms /\ t ∉ existing.
Proof.
  unfold emerging. rewrite emerging_from_elem. split; [|auto].
  intros [H | H]; [exact H | inversion H].
Qed.

Lemma emerging_NoDup (existing : list string) (newRooms : list Room.t) :
  NoDup (emerging existing newRooms).
Proof. apply emerging_from_NoDup, NoDup_nil_2. Qed.

Lemma emerging_nil (existing : list string) (newRooms : list Room.t) :
  (forall room, room ∈ newRooms -> Room.topic room ∈ existing) ->
  emerging existing newRooms = [].
Proof.
  intros H. destruct (emerging existing newRooms) as [|t l] eqn:He; [reflexivity|].
  assert (Ht : t ∈ emerging existing newRooms) by (rewrite He; left).
  apply emerging_spec in Ht as [Hin Hn].
  apply list_elem_of_fmap in Hin as (room & -> & Hroom).
  destruct (Hn (H room Hroom)).
Qed.

Section Format.
Variable toFixed2 : R -> string.
Variable show_nat : nat -> string.

Lemma filter_all {A : Type} (P : A -> Prop) `{!forall x, Decision (P x)} (l : list A) :
  Forall P l -> filter P l = l.
Proof.
  induction 1 as [|x l Hx Hl IH]; [reflexivity|].
  rewrite filter_cons_True by exact Hx. f_equal. exact IH.
Qed.

Lemma filter_not_emerged (l : list Event.t) :
  Forall (fun e => ~ is_emerged e) l -> filter is_emerged l = [].
Proof.
  induction 1 as [|x l Hx Hl IH]; [reflexivity|].
  rewrite filter_cons_False by exact Hx. exact IH.
Qed.

Lemma Forall_map_type {A : Type} (P : Event.t -> Prop) (f : A -> Event.t) (l : list A) :
  (forall x, P (f x)) -> Forall P (map f l).
Proof. intros H. apply Forall_fmap, Forall_forall. intros x _. apply H. Qed.

(** The events of [detect] after the pass-through of the prune events and
    the "topic emerged" events: none of them is a "topic emerged" event. *)
Lemma detect_rest_not_emerged (rooms : list Room.t) (entities : list Entity.t)
    (newRooms prunedRooms : list Room.t) (pruneEvents : list Event.t) (now : R) :
  exists rest,
    detect toFixed2 show_nat rooms entities newRooms prunedRooms pruneEvents now
    = pruneEvents
      ++ map (emerged_event now newRooms)
           (emerging (Js.set_of (map Room.topic rooms)) newRooms)
      ++ rest
    /\ Forall (fun e => ~ is_emerged e) rest.
Proof.
  unfold detect.
  set (emerged := map (emerged_event now newRooms) _).
  set (death := map (death_event now prunedRooms) _).
  set (dominant := map (dominant_event toFixed2 show_nat now) _).
  assert (Hdeath : Forall (fun e => ~ is_emerged e) death).
  { apply Forall_map_type. intros x. discriminate. }
  assert (Hdom : Forall (fun e => ~ is_emerged e) dominant).
  { apply Forall_map_type. intros x. discriminate. }
  assert (Hmass : Forall (fun e => ~ is_emerged e) [mass_event show_nat now prunedRooms]).
  { repeat constructor. discriminate. }
  destruct (0 <? _)%nat; destruct (10 <=? _)%nat.
  - exists (death ++ dominant ++ [mass_event show_nat now prunedRooms]).
    split; [rewrite <- !(assoc_L app); reflexivity|].
    rewrite !Forall_app. auto.
  - exists (death ++ dominant).
    split; [rewrite <- !(assoc_L app); reflexivity|].
    rewrite !Forall_app. auto.
  - exists (dominant ++ [mass_event show_nat now prunedRooms]).
    split; [rewrite <- !(assoc_L app); reflexivity|].
    rewrite !Forall_app. auto.
  - exists dominant.
    split; [rewrite <- !(assoc_L app); reflexivity|]. exact Hdom.
Qed.

(** [detect] by itself does what the claim says: on a state that does not
    hold the new rooms yet, its "topic emerged" events are one event for each
    topic of [newRooms] that [state.rooms] lacks. *)
Lemma detect_emerged_events (rooms : list Room.t) (entities : list Entity.t)
    (newRooms prunedRooms : list Room.t) (pruneEvents : list Event.t) (now : R) :
  Forall (fun e => ~ is_emerged e) pruneEvents ->
  filter is_emerged
    (detect toFixed2 show_nat rooms entities newRooms prunedRooms pruneEvents now)
  = map (emerged_event now newRooms)
      (emerging (Js.set_of (map Room.topic rooms)) newRooms).
Proof.
  intros Hp.
  destruct (detect_rest_not_emerged rooms entities newRooms prunedRooms pruneEvents now)
    as (rest & -> & Hrest).
  rewrite !filter_app, (filter_not_emerged _ Hp), (filter_not_emerged _ Hrest).
  rewrite app_nil_r. simpl. apply filter_all, Forall_map_type. reflexivity.
Qed.

(** When every new room already is in [state.rooms], as in the cycle, no
    "topic emerged" event is reported. *)
Lemma detect_included_no_emerged (rooms : list Room.t) (entities : list Entity.t)
    (newRooms prunedRooms : list Room.t) (pruneEvents : list Event.t) (now : R) :
  (forall room, room ∈ newRooms -> room ∈ rooms) ->
  Forall (fun e => ~ is_emerged e) pruneEvents ->
  Forall (fun e => ~ is_emerged e)
    (detect toFixed2 show_nat rooms entities newRooms prunedRooms pruneEvents now).
Proof.
  intros Hsub Hp.
  destruct (detect_rest_not_emerged rooms entities newRooms prunedRooms pruneEvents now)
    as (rest & -> & Hrest).
  rewrite emerging_nil.
  - simpl. rewrite Forall_app. auto.
  - intros room Hin. apply set_of_elem, list_elem_of_fmap.
    exists room. split; [reflexivity | apply Hsub, Hin].
Qed.
End Format.
End EventFacts.

Module WorldFacts.
Import World.
Local Open Scope R_scope.

Section Cycle.
Variable rand : nat -> Unit01.
Variable shuffle : nat -> list nat -> list nat.
Variable toFixed2 : R -> string.
Variable show_cycles : Z -> string.
Variable show_nat : nat -> string.
Variable scrambleText : string -> R -> nat -> string * nat.
Variable dimColor : string -> R -> string.
Variable generateRooms : list Observation.t -> R -> nat -> list Room.t * nat.
Variable entityUpdate : list Observation.t -> R -> list Entity.t -> list Entity.t.
Variable generate : Room.t -> nat -> string * nat.
Variable layout : list Room.t -> list Corridor.t -> nat -> (nat -> R * R) * nat.

(** C9.  When ingestion yields no observation, the cycle returns the world
    as it was: the state with all its fields and the entity tracker; no event
    is detected and no random number is drawn. *)
Theorem cycle_no_observations (w : World.t) (now : R) (n : nat) :
  cycle rand shuffle toFixed2 show_cycles show_nat scrambleText dimColor
    generateRooms entityUpdate generate layout w [] now n = w
  /\ cycle_run rand shuffle toFixed2 show_cycles show_nat scrambleText dimColor
       generateRooms entityUpdate generate layout w [] now n = (w, [], n).
Proof. split; reflexivity. Qed.

(** The events of [prune] are "room pruned" events. *)
Lemma prune_room_events corridors prunedIds currentCycle staleCycles now
    (acc : PruneEngine.Acc) (room : Room.t) :
  Forall (fun e => ~ EventRel.is_emerged e) (PruneEngine.acc_events acc) ->
  Forall (fun e => ~ EventRel.is_emerged e)
    (PruneEngine.acc_events
       (PruneEngine.prune_room rand toFixed2 show_cycles corridors prunedIds
          currentCycle staleCycles now acc room)).
Proof.
  intros H. unfold PruneEngine.prune_room.
  destruct (List.length _ =? 0)%nat; [destruct (PruneEngine.absorb _ _ _ _ _)|];
    simpl; rewrite Forall_app; (split; [exact H|]);
    repeat constructor; discriminate.
Qed.

Lemma prune_events currentCycle rooms corridors staleCycles now n :
  Forall (fun e => ~ EventRel.is_emerged e)
    (PruneEngine.events
       (fst (PruneEngine.prune rand toFixed2 show_cycles currentCycle rooms corridors
               staleCycles now n))).
Proof.
  unfold PruneEngine.prune.
  destruct (PruneEngine.split_rooms _ _ _) as [toPrune toKeep]. simpl.
  generalize (Js.set_of (map Room.id toPrune)). intros prunedIds.
  assert (H : Forall (fun e => ~ EventRel.is_emerged e)
                (PruneEngine.acc_events (PruneEngine.mkAcc toKeep [] [] n)))
    by constructor.
  revert H. generalize (PruneEngine.mkAcc toKeep [] [] n).
  induction toPrune as [|room rest IH]; intros acc H; simpl; [exact H|].
  apply IH, prune_room_events, H.
Qed.

(** C2.  In the cycle the new rooms are pushed on [state.rooms] (step 6)
    before [detect] runs (step 9), so every topic of a new room is found
    among the existing topics: whatever the observations, the cycle reports
    no "topic emerged" event. *)
Theorem cycle_reports_no_topic_emerged (w : World.t) (observations : list Observation.t)
    (now : R) (n : nat) :
  Forall (fun e => Event.type e <> "topic_emerged")
    (cycle_events rand shuffle toFixed2 show_cycles show_nat scrambleText dimColor
       generateRooms entityUpdate generate layout w observations now n).
Proof.
  unfold cycle_events, cycle_run.
  destruct (List.length observations =? 0)%nat; [constructor|].
  destruct (generateRooms observations now n) as [newRooms n0].
  destruct (decay_step _ _ _ _ _ _ _) as [[rooms1 artifacts1] n1].
  destruct (PruneEngine.refreshRooms _ _ _) as [rooms2 newRooms2].
  pose proof (prune_events (WorldState.observationCycles (state w)) rooms2
                (WorldState.corridors (state w)) 5 now n1) as Hp.
  destruct (PruneEngine.prune _ _ _ _ _ _ _ _ _) as [pruneResult n2].
  destruct (annotateRooms _ _ _) as [newRooms3 n3].
  destruct (EntityTracker.wander _ _ _ _ _) as [tracker2 n4].
  destruct (buildTopology _ _ _ _) as [[[rooms6 corridors] stats] n5].
  simpl. simpl in Hp.
  apply EventFacts.detect_included_no_emerged; [|exact Hp].
  intros room Hin. apply list_elem_of_lookup in Hin as [i Hi].
  rewrite lookup_drop in Hi. eapply list_elem_of_lookup_2, Hi.
Qed.
End Cycle.
End WorldFacts.

(** ** TopologyEngine: keys and pushes *)

Module KeyFacts.
Import Wf TopologyEngine.




Lemma ltb_antisym (a b : string) : String.ltb a b = true -> String.ltb b a = false.
Proof.
  unfold String.ltb. rewrite (String.compare_antisym b a).
  destruct (String.compare a b); simpl; congruence.
Qed.

Lemma ltb_total (a b : string) :
  String.ltb a b = false -> String.ltb b a = false -> a = b.
Proof.
  unfold String.ltb. rewrite (String.compare_antisym b a).
  destruct (String.compare a b) eqn:Hc; simpl; try discriminate.
  intros _ _. apply String.compare_eq_iff. exact Hc.
Qed.

(** The key does not depend on the order of the two ids. *)
Lemma pair_key_sym (a b : string) : pair_key a b = pair_key b a.
Proof.
  unfold pair_key.
  destruct (String.ltb a b) eqn:Hab, (String.ltb b a) eqn:Hba; try reflexivity.
  - rewrite (ltb_antisym _ _ Hab) in Hba. discriminate.
  - rewrite (ltb_total _ _ Hab Hba). reflexivity.
Qed.

Lemma same_pair_key (c c' : Corridor.t) :
  same_pair c c' -> corridor_key c = corridor_key c'.
Proof.
  unfold corridor_key. intros [[-> ->] | [-> ->]]; [reflexivity | apply pair_key_sym].
Qed.
End KeyFacts.

Module GrowFacts.
Import Wf Topology.

Lemma grows_refl (r : Room.t) : grows r r.
Proof. exists []. rewrite app_nil_r. destruct r; reflexivity. Qed.

Lemma grows_trans (r1 r2 r3 : Room.t) : grows r1 r2 -> grows r2 r3 -> grows r1 r3.
Proof.
  intros [e1 ->] [e2 ->]. exists (e1 ++ e2). destruct r1; simpl.
  rewrite (assoc_L app). reflexivity.
Qed.

Lemma grows_push (x : string) (r : Room.t) : grows r (push_connection x r).
Proof. exists [x]. reflexivity. Qed.

Lemma grows_id (r r' : Room.t) : grows r r' -> Room.id r' = Room.id r.
Proof. intros [e ->]. reflexivity. Qed.

Lemma grows_topic (r r' : Room.t) : grows r r' -> Room.topic r' = Room.topic r.
Proof. intros [e ->]. reflexivity. Qed.

Lemma grows_sentiment (r r' : Room.t) : grows r r' -> Room.sentiment r' = Room.sentiment r.
Proof. intros [e ->]. reflexivity. Qed.

Lemma grows_elem (x : string) (r r' : Room.t) :
  grows r r' -> x ∈ Room.connections r -> x ∈ Room.connections r'.
Proof. intros [e ->] Hx. simpl. apply elem_of_app. left. exact Hx. Qed.

Lemma grows_nonempty (r r' : Room.t) :
  grows r r' -> Room.connections r <> [] -> Room.connections r' <> [].
Proof.
  intros [e ->] Hne. simpl. destruct (Room.connections r); [contradiction | discriminate].
Qed.

Lemma grows_wf (r r' : Room.t) : grows r r' -> Wf.room r -> Wf.room r'.
Proof. intros [e ->] Hwf. exact Hwf. Qed.

Lemma Forall2_grows_refl (l : list Room.t) : Forall2 grows l l.
Proof. induction l; constructor; auto using grows_refl. Qed.

Lemma Forall2_grows_trans (l1 l2 l3 : list Room.t) :
  Forall2 grows l1 l2 -> Forall2 grows l2 l3 -> Forall2 grows l1 l3.
Proof.
  intros H12. revert l3. induction H12 as [|r1 r2 l1 l2 Hr Hl IH]; intros l3 H23.
  - inversion H23. constructor.
  - inversion H23 as [|? r3 ? l3' Hr' Hl']; subst. constructor; eauto using grows_trans.
Qed.

Lemma Forall2_grows_alter (f : Room.t -> Room.t) (i : nat) (l : list Room.t) :
  (forall r, grows r (f r)) -> Forall2 grows l (alter f i l).
Proof.
  intros Hf. revert i. induction l as [|r l IH]; intros [|i]; cbn;
    constructor; auto using grows_refl, Forall2_grows_refl.
Qed.

Lemma Forall2_grows_ids (l l' : list Room.t) :
  Forall2 grows l l' -> map Room.id l' = map Room.id l.
Proof. induction 1; simpl; [reflexivity|]. f_equal; auto using grows_id. Qed.

Lemma Forall2_grows_wf (l l' : list Room.t) :
  Forall2 grows l l' -> Wf.rooms l -> Wf.rooms l'.
Proof.
  intros H [Hnd Hwf]. split.
  - rewrite (Forall2_grows_ids _ _ H). exact Hnd.
  - clear Hnd. induction H; inversion Hwf; subst; constructor; eauto using grows_wf.
Qed.

(** With unique ids a position is determined by the id of its room. *)
Lemma unique_position (l : list Room.t) (i j : nat) (r r' : Room.t) :
  NoDup (map Room.id l) -> l !! i = Some r -> l !! j = Some r' ->
  Room.id r = Room.id r' -> i = j.
Proof.
  intros Hnd Hi Hj Heq.
  apply (NoDup_lookup (map Room.id l) i j (Room.id r) Hnd).
  - rewrite list_lookup_fmap, Hi. reflexivity.
  - rewrite list_lookup_fmap, Hj, Heq. reflexivity.
Qed.
End GrowFacts.

(** ** TopologyEngine ([world.js]): what [addCorridor] and the loops keep *)

Module TopologyFacts.
Import Wf Topology TopologyEngine TopologyInv KeyFacts GrowFacts.

(** The two pushes of [addCorridor] / [connect], seen from position [i]. *)
Lemma pushed_lookup (l : list Room.t) (a b : nat) (x y : string) (i : nat) (r : Room.t) :
  l !! i = Some r ->
  exists r',
    alter (push_connection x) b (alter (push_connection y) a l) !! i = Some r'
    /\ grows r r'
    /\ (i = a -> y ∈ Room.connections r')
    /\ (i = b -> x ∈ Room.connections r').
Proof.
  intros Hi.
  destruct (decide (i = a)) as [Hia | Hia]; destruct (decide (i = b)) as [Hib | Hib];
    subst.
  - exists (push_connection x (push_connection y r)).
    rewrite list_lookup_alter_eq, list_lookup_alter_eq, Hi. simpl.
    repeat split.
    + eapply grows_trans; apply grows_push.
    + intros _. rewrite !elem_of_app, !list_elem_of_singleton. auto.
    + intros _. rewrite !elem_of_app, !list_elem_of_singleton. auto.
  - exists (push_connection y r).
    rewrite list_lookup_alter_ne, list_lookup_alter_eq, Hi by congruence. simpl.
    repeat split.
    + apply grows_push.
    + intros _. rewrite elem_of_app, list_elem_of_singleton. auto.
    + intros ->. contradiction.
  - exists (push_connection x r).
    rewrite list_lookup_alter_eq, list_lookup_alter_ne, Hi by congruence. simpl.
    repeat split.
    + apply grows_push.
    + intros ->. contradiction.
    + intros _. rewrite elem_of_app, list_elem_of_singleton. auto.
  - exists r. rewrite !list_lookup_alter_ne, Hi by congruence.
    repeat split; [apply grows_refl | intros ->; contradiction | intros ->; contradiction].
Qed.

Lemma pushed_grows (l : list Room.t) (a b : nat) (x y : string) :
  Forall2 grows l (alter (push_connection x) b (alter (push_connection y) a l)).
Proof.
  eapply Forall2_grows_trans; apply Forall2_grows_alter; intros r; apply grows_push.
Qed.

(** [addCorridor] either does nothing or records a corridor with a new key. *)
Lemma addCorridor_cases (st : Gen) (a b : nat) (sim : R) :
  addCorridor st a b sim = st
  \/ exists ra rb,
       rooms st !! a = Some ra /\ rooms st !! b = Some rb
       /\ (pair_key (Room.id ra) (Room.id rb) ∉ corridorSet st)
       /\ addCorridor st a b sim
          = mkGen
              (alter (push_connection (Room.id ra)) b
                 (alter (push_connection (Room.id rb)) a (rooms st)))
              (corridors st ++ [corridor_of ra rb sim])
              ({[ pair_key (Room.id ra) (Room.id rb) ]} ∪ corridorSet st)
              (byTopic st) (shuffles st).
Proof.
  unfold addCorridor.
  destruct (rooms st !! a) as [ra|]; [|left; reflexivity].
  destruct (rooms st !! b) as [rb|]; [|left; reflexivity].
  destruct (decide _) as [Hin | Hnin]; [left; reflexivity|].
  right. exists ra, rb. auto.
Qed.

Lemma addCorridor_grows (st : Gen) (a b : nat) (sim : R) :
  Forall2 grows (rooms st) (rooms (addCorridor st a b sim)).
Proof.
  destruct (addCorridor_cases st a b sim) as [-> | (ra & rb & _ & _ & _ & ->)].
  - apply Forall2_grows_refl.
  - simpl. apply pushed_grows.
Qed.

Lemma addCorridor_byTopic (st : Gen) (a b : nat) (sim : R) :
  byTopic (addCorridor st a b sim) = byTopic st.
Proof.
  destruct (addCorridor_cases st a b sim) as [-> | (ra & rb & _ & _ & _ & ->)]; reflexivity.
Qed.

Lemma grown_lookup (l l' : list Room.t) (i : nat) (r : Room.t) :
  Forall2 grows l l' -> l !! i = Some r -> exists r', l' !! i = Some r' /\ grows r r'.
Proof. intros H Hi. exact (Forall2_lookup_l _ _ _ _ _ H Hi). Qed.


Lemma addCorridor_Inv (st : Gen) (a b : nat) (sim : R) :
  Inv st -> Inv (addCorridor st a b sim).
Proof.
  intros (Hwf & Hg & Hk).
  pose proof (addCorridor_grows st a b sim) as Hgrow.
  split; [eapply Forall2_grows_wf; eauto|]. split.
  - unfold groups_ok in *. rewrite addCorridor_byTopic.
    rewrite <- (Forall2_length _ _ _ Hgrow). exact Hg.
  - destruct (addCorridor_cases st a b sim) as [-> | (ra & rb & Ha & Hb & Hnew & Heq)];
      [exact Hk|].
    rewrite Heq in *. simpl in *. intros k Hin.
    apply elem_of_union in Hin as [Hin | Hin].
    + apply elem_of_singleton in Hin as ->.
      destruct (pushed_lookup _ a b (Room.id ra) (Room.id rb) a ra Ha)
        as (ra' & Ha' & Hga & Hca & _).
      destruct (pushed_lookup _ a b (Room.id ra) (Room.id rb) b rb Hb)
        as (rb' & Hb' & Hgb & _ & Hcb).
      exists a, b, ra', rb'.
      rewrite (grows_id _ _ Hga), (grows_id _ _ Hgb).
      repeat split; auto.
      * intros Hnil. specialize (Hca eq_refl). rewrite Hnil in Hca. inversion Hca.
      * intros Hnil. specialize (Hcb eq_refl). rewrite Hnil in Hcb. inversion Hcb.
    + destruct (Hk k Hin) as (a0 & b0 & ra0 & rb0 & Ha0 & Hb0 & -> & Hna & Hnb).
      destruct (grown_lookup _ _ _ _ Hgrow Ha0) as (ra' & Ha' & Hga).
      destruct (grown_lookup _ _ _ _ Hgrow Hb0) as (rb' & Hb' & Hgb).
      exists a0, b0, ra', rb'.
      rewrite (grows_id _ _ Hga), (grows_id _ _ Hgb).
      repeat split; eauto using grows_nonempty.
Qed.

Lemma addCorridor_recorded (st : Gen) (a b : nat) (sim : R) :
  recorded (rooms st) (corridors st) ->
  recorded (rooms (addCorridor st a b sim)) (corridors (addCorridor st a b sim)).
Proof.
  intros Hrec.
  pose proof (addCorridor_grows st a b sim) as Hgrow.
  destruct (addCorridor_cases st a b sim) as [-> | (ra & rb & Ha & Hb & Hnew & Heq)];
    [exact Hrec|].
  rewrite Heq in *. simpl in *. intros c Hin.
  apply elem_of_app in Hin as [Hin | Hin].
  - destruct (Hrec c Hin) as (a0 & b0 & ra0 & rb0 & Ha0 & Hb0 & Hf & Ht & Hca & Hcb).
    destruct (grown_lookup _ _ _ _ Hgrow Ha0) as (ra' & Ha' & Hga).
    destruct (grown_lookup _ _ _ _ Hgrow Hb0) as (rb' & Hb' & Hgb).
    exists a0, b0, ra', rb'.
    rewrite (grows_id _ _ Hga), (grows_id _ _ Hgb).
    repeat split; eauto using grows_elem.
  - apply list_elem_of_singleton in Hin as ->.
    destruct (pushed_lookup _ a b (Room.id ra) (Room.id rb) a ra Ha)
      as (ra' & Ha' & Hga & Hca & _).
    destruct (pushed_lookup _ a b (Room.id ra) (Room.id rb) b rb Hb)
      as (rb' & Hb' & Hgb & _ & Hcb).
    exists a, b, ra', rb'.
    rewrite (grows_id _ _ Hga), (grows_id _ _ Hgb). simpl.
    repeat split; auto.
Qed.

Lemma addCorridor_keyed (st : Gen) (a b : nat) (sim : R) :
  keyed st -> keyed (addCorridor st a b sim).
Proof.
  intros [Hnd Hset].
  destruct (addCorridor_cases st a b sim) as [-> | (ra & rb & Ha & Hb & Hnew & Heq)];
    [split; assumption|].
  rewrite Heq. unfold keyed. simpl. rewrite map_app. simpl.
  change (corridor_key (corridor_of ra rb sim)) with (pair_key (Room.id ra) (Room.id rb)).
  split.
  - apply NoDup_app. split; [exact Hnd|]. split; [|apply NoDup_singleton].
    intros k Hk Hk'. apply list_elem_of_singleton in Hk'. subst k.
    apply Hnew, Hset, Hk.
  - intros k. rewrite elem_of_union, elem_of_singleton, elem_of_app,
      list_elem_of_singleton, Hset. tauto.
Qed.

(** *** The loops keep whatever [addCorridor] and the sampling keep *)

Lemma fold_left_closed {A B : Type} (P : A -> Prop) (f : A -> B -> A) (l : list B) (x : A) :
  (forall x y, P x -> P (f x y)) -> P x -> P (fold_left f l x).
Proof.
  intros Hf. revert x. induction l as [|y l IH]; intros x Hx; simpl; auto.
Qed.

Section Closure.
Variable shuffle : nat -> list nat -> list nat.
Variable P : Gen -> Prop.
Hypothesis P_add : forall st a b sim, P st -> P (addCorridor st a b sim).
Hypothesis P_sample : forall st t, P st -> P (snd (sample_others shuffle t st)).

Lemma connect_scored_closed threshold a st scored :
  P st -> P (connect_scored threshold a st scored).
Proof.
  unfold connect_scored. apply fold_left_closed.
  intros x y Hx. destruct (Num.geb _ _); auto.
Qed.

Lemma intra_group_closed threshold group st :
  P st -> P (intra_group threshold group st).
Proof.
  revert st. induction group as [|a rest IH]; intros st Hst; simpl; [exact Hst|].
  apply IH, connect_scored_closed, Hst.
Qed.

Lemma intra_topic_closed threshold st : P st -> P (intra_topic threshold st).
Proof.
  unfold intra_topic. apply fold_left_closed.
  intros x y Hx. apply intra_group_closed, Hx.
Qed.

Lemma cross_room_closed threshold topic room topics crossCount st :
  P st -> P (cross_room shuffle threshold topic room topics crossCount st).
Proof.
  revert crossCount st.
  induction topics as [|otherTopic rest IH]; intros crossCount st Hst; simpl; [exact Hst|].
  destruct (_ || _); [exact Hst|].
  pose proof (P_sample st otherTopic Hst) as Hs.
  destruct (sample_others shuffle otherTopic st) as [sample st1]. simpl in Hs.
  destruct (first_match threshold room sample st1) as [[other sim]|]; apply IH; auto.
Qed.

Lemma cross_group_closed threshold topics st topic :
  P st -> P (cross_group shuffle threshold topics st topic).
Proof.
  unfold cross_group. apply fold_left_closed.
  intros x y Hx. destruct (_ <=? _)%nat; [exact Hx|].
  apply cross_room_closed, Hx.
Qed.

Lemma cross_topic_closed threshold st : P st -> P (cross_topic shuffle threshold st).
Proof.
  unfold cross_topic. apply fold_left_closed.
  intros x y Hx. apply cross_group_closed, Hx.
Qed.

Lemma repair_room_closed st room : P st -> P (repair_room st room).
Proof.
  intros Hst. unfold repair_room.
  destruct (rooms st !! room) as [r|]; [|exact Hst].
  destruct (_ && _); [|exact Hst].
  destruct (best_candidate _ _ _) as [bestSim [bestRoom|]]; auto.
Qed.

Lemma repair_closed st : P st -> P (repair st).
Proof. unfold repair. apply fold_left_closed. intros x y. apply repair_room_closed. Qed.

Lemma before_repair_closed (rs : list Room.t) (threshold : R) :
  P (mkGen rs [] ∅ (group_rooms 0 rs []) 0) ->
  P (cross_topic shuffle threshold
       (intra_topic threshold (mkGen rs [] ∅ (group_rooms 0 rs []) 0))).
Proof. intros H. apply cross_topic_closed, intra_topic_closed, H. Qed.

Lemma generateCorridors_closed (rs : list Room.t) (threshold : R) :
  P (mkGen rs [] ∅ (group_rooms 0 rs []) 0) ->
  P (generateCorridors shuffle rs threshold).
Proof. intros H. apply repair_closed, before_repair_closed, H. Qed.
End Closure.

(** *** The groups *)

Lemma group_ok_mono (n m : nat) (tg : string * list nat) :
  n <= m -> group_ok n tg -> group_ok m tg.
Proof.
  intros Hle [Hnd Hlt]. split; [exact Hnd|].
  eapply Forall_impl; [exact Hlt|]. intros i Hi. simpl in Hi. lia.
Qed.

Lemma group_push_ok (topic : string) (i : nat) (m : list (string * list nat)) :
  Forall (group_ok i) m -> Forall (group_ok (S i)) (group_push topic i m).
Proof.
  induction 1 as [|[t g] m [Hnd Hlt] Hm IH]; simpl.
  - constructor; [|constructor]. split; simpl.
    + apply NoDup_singleton.
    + constructor; [lia | constructor].
  - destruct (String.eqb t topic).
    + constructor.
      * split; simpl in *.
        -- apply NoDup_app. split; [exact Hnd|]. split; [|apply NoDup_singleton].
           intros j Hj Hj'. apply list_elem_of_singleton in Hj'. subst j.
           rewrite Forall_forall in Hlt. specialize (Hlt _ Hj). lia.
        -- apply Forall_app. split; [|repeat constructor].
           eapply Forall_impl; [exact Hlt|]. intros j Hj. simpl in Hj. lia.
      * eapply Forall_impl; [exact Hm|]. intros tg. apply group_ok_mono. lia.
    + constructor; [|exact IH]. apply (group_ok_mono i); [lia|]. split; assumption.
Qed.

Lemma group_rooms_ok (i : nat) (rs : list Room.t) (m : list (string * list nat)) :
  Forall (group_ok i) m -> Forall (group_ok (i + List.length rs)) (group_rooms i rs m).
Proof.
  revert i m. induction rs as [|r rs IH]; intros i m Hm; simpl.
  - rewrite Nat.add_0_r. exact Hm.
  - replace (i + S (List.length rs))%nat with (S i + List.length rs)%nat by lia.
    apply IH, group_push_ok, Hm.
Qed.

Lemma group_get_ok (n : nat) (topic : string) (m : list (string * list nat)) (g : list nat) :
  Forall (group_ok n) m -> group_get topic m = Some g -> group_ok n (topic, g).
Proof.
  induction 1 as [|[t g'] m Hg Hm IH]; simpl; [discriminate|].
  destruct (String.eqb t topic); [|exact IH].
  intros [= <-]. exact Hg.
Qed.

Lemma group_set_ok (n : nat) (topic : string) (g' : list nat) (m : list (string * list nat)) :
  Forall (group_ok n) m -> group_ok n (topic, g') ->
  Forall (group_ok n) (group_set topic g' m).
Proof.
  intros Hm Hg'. induction Hm as [|[t g] m Hg Hm IH]; simpl; [constructor|].
  destruct (String.eqb t topic); constructor; auto.
Qed.

Section Shuffle.
Variable shuffle : nat -> list nat -> list nat.
Hypothesis shuffle_perm : forall k l, shuffle k l ≡ₚ l.

Lemma sample_others_rooms (st : Gen) (t : string) :
  rooms (snd (sample_others shuffle t st)) = rooms st
  /\ corridors (snd (sample_others shuffle t st)) = corridors st
  /\ corridorSet (snd (sample_others shuffle t st)) = corridorSet st.
Proof. unfold sample_others. destruct (_ <=? _)%nat; auto. Qed.

Lemma sample_others_Inv (st : Gen) (t : string) :
  Inv st -> Inv (snd (sample_others shuffle t st)).
Proof.
  intros (Hwf & Hg & Hk). unfold sample_others.
  destruct (group_get t (byTopic st)) as [g|] eqn:Hget; simpl.
  - destruct (_ <=? _)%nat; [exact (conj Hwf (conj Hg Hk))|].
    split; [exact Hwf|]. split; [|exact Hk].
    unfold groups_ok in *. simpl.
    apply group_set_ok; [exact Hg|].
    destruct (group_get_ok _ _ _ _ Hg Hget) as [Hnd Hlt]. simpl in *.
    split; simpl; rewrite (shuffle_perm (shuffles st) g); assumption.
  - exact (conj Hwf (conj Hg Hk)).
Qed.

(** Every position that the sampling or a group hands out names a room. *)
Lemma generateCorridors_Inv (rs : list Room.t) (threshold : R) :
  Wf.rooms rs -> Inv (generateCorridors shuffle rs threshold).
Proof.
  intros Hwf.
  apply (generateCorridors_closed shuffle Inv addCorridor_Inv sample_others_Inv).
  split; [exact Hwf|]. split.
  - unfold groups_ok. simpl.
    apply (group_rooms_ok 0 rs []). constructor.
  - intros k Hk. simpl in Hk. apply elem_of_empty in Hk. destruct Hk.
Qed.
End Shuffle.
End TopologyFacts.

(** ** The scan for the most similar other room *)

Module BestFacts.
Import Wf Topology BestInv.
Local Open Scope R_scope.

Section Scan.
Variable rs : list Room.t.
Variable room : nat.
Variable r : Room.t.
Hypothesis room_r : rs !! room = Some r.

Lemma best_step_J (cands : list nat) (best : Best) (other : nat) :
  other ∈ cands -> J rs r cands best -> J rs r cands (best_step rs room best other).
Proof.
  intros Hin HJ. unfold best_step. rewrite room_r.
  destruct (rs !! other) as [o|] eqn:Ho; [|exact HJ].
  destruct (String.eqb_spec (Room.id o) (Room.id r)) as [Heq | Hne]; [exact HJ|].
  destruct (Num.gtb _ _); [|exact HJ].
  right. exists other, o. auto.
Qed.




Lemma fold_best_J (cands l : list nat) (best : Best) :
  (forall x, x ∈ l -> x ∈ cands) -> J rs r cands best ->
  J rs r cands (fold_left (best_step rs room) l best).
Proof.
  revert best. induction l as [|x l IH]; intros best Hsub HJ; simpl; [exact HJ|].
  apply IH.
  - intros y Hy. apply Hsub. right. exact Hy.
  - apply best_step_J; [apply Hsub; left | exact HJ].
Qed.


End Scan.
End BestFacts.

(** ** Connectivity and edge symmetry *)

Module ConnectFacts.
Import Wf Topology TopologyInv KeyFacts GrowFacts TopologyFacts.



(** *** The engine of [world.js] *)




Section Shuffle.
Variable shuffle : nat -> list nat -> list nat.
Hypothesis shuffle_perm : forall k l, shuffle k l ≡ₚ l.



End Shuffle.
End ConnectFacts.

(** *** The engine of [topology.js] *)

Module ConnectV1Facts.
Import Wf Topology TopologyInv GrowFacts TopologyFacts ConnectFacts TopologyEngineV1.

Lemma connect_grows (st : Gen) (a b : nat) (sim : R) :
  Forall2 grows (rooms st) (rooms (connect st a b sim)).
Proof.
  unfold connect.
  destruct (rooms st !! a) as [ra|]; [|apply Forall2_grows_refl].
  destruct (rooms st !! b) as [rb|]; [|apply Forall2_grows_refl].
  simpl. apply pushed_grows.
Qed.

Lemma pair_step_grows (threshold : R) (i : nat) (st : Gen) (j : nat) :
  Forall2 grows (rooms st) (rooms (pair_step threshold i st j)).
Proof.
  unfold pair_step.
  destruct (rooms st !! i) as [ri|]; [|apply Forall2_grows_refl].
  destruct (rooms st !! j) as [rj|]; [|apply Forall2_grows_refl].
  destruct (Num.geb _ _); [apply connect_grows | apply Forall2_grows_refl].
Qed.

Lemma fold_grows {B : Type} (f : Gen -> B -> Gen) (l : list B) (st : Gen) :
  (forall s y, Forall2 grows (rooms s) (rooms (f s y))) ->
  Forall2 grows (rooms st) (rooms (fold_left f l st)).
Proof.
  intros Hf.
  apply (fold_left_closed (fun s => Forall2 grows (rooms st) (rooms s))).
  - intros s y Hs. eapply Forall2_grows_trans; [exact Hs | apply Hf].
  - apply Forall2_grows_refl.
Qed.

Lemma all_pairs_grows (threshold : R) (st : Gen) :
  Forall2 grows (rooms st) (rooms (all_pairs threshold st)).
Proof.
  unfold all_pairs. apply fold_grows. intros s i.
  unfold pairs_from. apply fold_grows. intros s' j. apply pair_step_grows.
Qed.

Lemma v1_repair_room_grows (st : Gen) (i : nat) :
  Forall2 grows (rooms st) (rooms (repair_room st i)).
Proof.
  unfold repair_room.
  destruct (rooms st !! i) as [r|]; [|apply Forall2_grows_refl].
  destruct (_ && _); [|apply Forall2_grows_refl].
  destruct (best_candidate _ _ _) as [bestSim [bestRoom|]];
    [apply connect_grows | apply Forall2_grows_refl].
Qed.


End ConnectV1Facts.

(** *** The claims on the topology *)

Module TopologyClaims.
Import Wf Topology TopologyInv KeyFacts GrowFacts TopologyFacts ConnectFacts Samples.

Lemma pair_rooms_wf : Wf.rooms pair_rooms.
Proof.
  split.
  - simpl. apply NoDup_cons. split; [|apply NoDup_singleton].
    rewrite list_elem_of_singleton. discriminate.
  - repeat constructor; simpl; lra.
Qed.

Section Shuffle.
Variable shuffle : nat -> list nat -> list nat.

End Shuffle.


(** The order of the two rooms does not matter: once [addCorridor(a, b)] has
    run, [addCorridor(b, a)] is rejected. *)
Lemma addCorridor_reverse_rejected (st : TopologyEngine.Gen) (a b : nat) (sim sim' : R) :
  is_Some (TopologyEngine.rooms st !! a) -> is_Some (TopologyEngine.rooms st !! b) ->
  TopologyEngine.addCorridor (TopologyEngine.addCorridor st a b sim) b a sim'
  = TopologyEngine.addCorridor st a b sim.
Proof.
  intros [ra Ha] [rb Hb].
  pose proof (addCorridor_grows st a b sim) as Hg.
  destruct (grown_lookup _ _ _ _ Hg Ha) as (ra' & Ha' & Hga).
  destruct (grown_lookup _ _ _ _ Hg Hb) as (rb' & Hb' & Hgb).
  assert (Hkey : TopologyEngine.pair_key (Room.id rb') (Room.id ra')
                 ∈ TopologyEngine.corridorSet (TopologyEngine.addCorridor st a b sim)).
  { rewrite (grows_id _ _ Hga), (grows_id _ _ Hgb), pair_key_sym.
    unfold TopologyEngine.addCorridor. rewrite Ha, Hb.
    destruct (decide _) as [Hin | Hnin]; [exact Hin|].
    simpl. apply elem_of_union. left. apply elem_of_singleton. reflexivity. }
  unfold TopologyEngine.addCorridor at 1. rewrite Ha', Hb'.
  destruct (decide _) as [_ | Hnin]; [reflexivity | contradiction].
Qed.

Section Symmetry.
Variable shuffle : nat -> list nat -> list nat.

Lemma generateCorridors_grows (rs : list Room.t) (threshold : R) :
  Forall2 grows rs
    (TopologyEngine.rooms (TopologyEngine.generateCorridors shuffle rs threshold)).
Proof.
  apply (generateCorridors_closed shuffle
           (fun s => Forall2 grows rs (TopologyEngine.rooms s))).
  - intros s a b sim Hs. eapply Forall2_grows_trans; [exact Hs | apply addCorridor_grows].
  - intros s t Hs. rewrite (proj1 (sample_others_rooms shuffle s t)). exact Hs.
  - apply Forall2_grows_refl.
Qed.

Lemma generateCorridors_recorded (rs : list Room.t) (threshold : R) :
  recorded (TopologyEngine.rooms (TopologyEngine.generateCorridors shuffle rs threshold))
    (TopologyEngine.corridors (TopologyEngine.generateCorridors shuffle rs threshold)).
Proof.
  apply (generateCorridors_closed shuffle
           (fun s => recorded (TopologyEngine.rooms s) (TopologyEngine.corridors s))).
  - intros s a b sim. apply addCorridor_recorded.
  - intros s t Hs. destruct (sample_others_rooms shuffle s t) as (-> & -> & _). exact Hs.
  - intros c Hc. inversion Hc.
Qed.

Lemma generateCorridors_keyed (rs : list Room.t) (threshold : R) :
  keyed (TopologyEngine.generateCorridors shuffle rs threshold).
Proof.
  apply (generateCorridors_closed shuffle keyed).
  - intros s a b sim. apply addCorridor_keyed.
  - intros s t Hs. unfold keyed.
    destruct (sample_others_rooms shuffle s t) as (_ & -> & ->). exact Hs.
  - split; [constructor|]. intros k. simpl. split; intros Hk.
    + apply elem_of_empty in Hk. destruct Hk.
    + inversion Hk.
Qed.

(** C6.  After a run of [generateCorridors] on rooms with unique ids, every
    recorded corridor (a, b) is in the connections of both its ends, and no
    two recorded corridors join the same unordered pair of rooms; this holds
    for every order of the rooms and every outcome of the random sorts. *)
Theorem corridors_symmetric_unique (rs : list Room.t) (threshold : R) :
  NoDup (map Room.id rs) ->
  let st := TopologyEngine.generateCorridors shuffle rs threshold in
  (forall c r, c ∈ TopologyEngine.corridors st -> r ∈ TopologyEngine.rooms st ->
     (Room.id r = Corridor.from c -> Corridor.to c ∈ Room.connections r)
     /\ (Room.id r = Corridor.to c -> Corridor.from c ∈ Room.connections r))
  /\ (forall i j ci cj,
        TopologyEngine.corridors st !! i = Some ci ->
        TopologyEngine.corridors st !! j = Some cj ->
        i <> j -> ~ same_pair ci cj).
Proof.
  intros Hnd st.
  assert (Hnd' : NoDup (map Room.id (TopologyEngine.rooms st))).
  { unfold st. rewrite (Forall2_grows_ids _ _ (generateCorridors_grows rs threshold)).
    exact Hnd. }
  split.
  - intros c r Hc Hr.
    destruct (generateCorridors_recorded rs threshold c Hc)
      as (a & b & ra & rb & Ha & Hb & Hf & Ht & Hca & Hcb).
    fold st in Ha, Hb.
    apply list_elem_of_lookup in Hr as [i Hi].
    split; intros Hid.
    + assert (i = a) by (eapply unique_position; eauto; congruence). subst i.
      rewrite Hi in Ha. injection Ha as <-. exact Hca.
    + assert (i = b) by (eapply unique_position; eauto; congruence). subst i.
      rewrite Hi in Hb. injection Hb as <-. exact Hcb.
  - intros i j ci cj Hi Hj Hij Hsame.
    destruct (generateCorridors_keyed rs threshold) as [Hkeys _]. fold st in Hkeys.
    apply Hij.
    apply (NoDup_lookup _ i j (corridor_key ci) Hkeys).
    + rewrite list_lookup_fmap, Hi. reflexivity.
    + rewrite list_lookup_fmap, Hj, (same_pair_key _ _ Hsame). reflexivity.
Qed.
End Symmetry.

Lemma corridors_symmetric_unique_witness :
  let st := TopologyEngine.generateCorridors (fun _ l => l) pair_rooms 0.4 in
  (forall c r, c ∈ TopologyEngine.corridors st -> r ∈ TopologyEngine.rooms st ->
     (Room.id r = Corridor.from c -> Corridor.to c ∈ Room.connections r)
     /\ (Room.id r = Corridor.to c -> Corridor.from c ∈ Room.connections r))
  /\ (forall i j ci cj,
        TopologyEngine.corridors st !! i = Some ci ->
        TopologyEngine.corridors st !! j = Some cj ->
        i <> j -> ~ same_pair ci cj).
Proof.
  apply (corridors_symmetric_unique (fun _ l => l) pair_rooms 0.4).
  exact (proj1 pair_rooms_wf).
Defined.
End TopologyClaims.

(** * Further facts on the engine

    ** Similarity *)

Module SimilarityMore.
Import Topology.
Local Open Scope R_scope.

(** [similarity] does not depend on the order of its two rooms. *)
Lemma similarity_symmetric (a b : Room.t) : similarity a b = similarity b a.
Proof.
  rewrite !SimilarityFacts.similarity_eq.
  rewrite (String.eqb_sym (Room.topic a) (Room.topic b)).
  rewrite (Rabs_minus_sym (Room.sentiment a) (Room.sentiment b)).
  rewrite (Rabs_minus_sym (Room.virality a) (Room.virality b)).
  reflexivity.
Qed.

(** The score never exceeds 1; for sentiments in [-1, 1] it is at least
    -0.3. *)
Lemma similarity_bounds (a b : Room.t) :
  similarity a b <= 1
  /\ (-1 <= Room.sentiment a <= 1 -> -1 <= Room.sentiment b <= 1 ->
      -0.3 <= similarity a b).
Proof.
  split.
  - rewrite SimilarityFacts.similarity_eq.
    pose proof (Rabs_pos (Room.sentiment a - Room.sentiment b)).
    pose proof (Rabs_pos (Room.virality a - Room.virality b)).
    assert (Rmax 0 (1 - Rabs (Room.virality a - Room.virality b) / 5) <= 1)
      by (apply Rmax_lub; lra).
    destruct (String.eqb _ _); lra.
  - intros Ha Hb. apply SimilarityFacts.similarity_range; assumption.
Qed.

Lemma similarity_bounds_witness :
  -0.3 <= similarity Samples.gloomy_room Samples.sunny_room.
Proof.
  apply (proj2 (similarity_bounds Samples.gloomy_room Samples.sunny_room)); simpl; lra.
Defined.

(** Two rooms of one topic whose sentiments differ by at most 1 score at
    least 0.5, above the default threshold 0.4 of [generateCorridors]. *)
Lemma same_topic_similarity (a b : Room.t) :
  Room.topic a = Room.topic b ->
  Rabs (Room.sentiment a - Room.sentiment b) <= 1 ->
  0.5 <= similarity a b /\ Num.geb (similarity a b) 0.4 = true.
Proof.
  intros Ht Hs.
  assert (H : 0.5 <= similarity a b).
  { rewrite SimilarityFacts.similarity_eq, Ht, String.eqb_refl.
    pose proof (Rmax_l 0 (1 - Rabs (Room.virality a - Room.virality b) / 5)). lra. }
  split; [exact H|]. apply NumFacts.geb_true. lra.
Qed.

Lemma same_topic_similarity_witness :
  0.5 <= similarity Samples.hour_room Samples.future_room
  /\ Num.geb (similarity Samples.hour_room Samples.future_room) 0.4 = true.
Proof.
  apply same_topic_similarity; [reflexivity|].
  simpl. replace (0 - 0) with 0 by lra. rewrite Rabs_R0. lra.
Defined.

(** The similarity of two rooms does not depend on their order and never
    exceeds 1; for sentiments in [-1, 1] it is at least -0.3; and two rooms
    of one topic whose sentiments differ by at most 1 score at least 0.5,
    which meets the default threshold 0.4 of [generateCorridors]. *)
Theorem similarity_profile (a b : Room.t) :
  similarity a b = similarity b a
  /\ similarity a b <= 1
  /\ (-1 <= Room.sentiment a <= 1 -> -1 <= Room.sentiment b <= 1 ->
      -0.3 <= similarity a b)
  /\ (Room.topic a = Room.topic b ->
      Rabs (Room.sentiment a - Room.sentiment b) <= 1 ->
      0.5 <= similarity a b /\ Num.geb (similarity a b) 0.4 = true).
Proof.
  split; [apply similarity_symmetric|].
  split; [apply similarity_bounds|].
  split; [apply similarity_bounds | apply same_topic_similarity].
Qed.
End SimilarityMore.

(** ** DecayEngine *)

Module DecayMore.
Import DecayEngine.
Local Open Scope R_scope.


Section Effects.
Variable rand : nat -> R.
Variable scrambleText : string -> R -> nat -> string * nat.
Variable dimColor : string -> R -> string.

(** Rooms whose entropy score is at most 0.3 pass through [applyEffects]
    untouched, and no random number is drawn for them. *)
Theorem applyEffects_fresh_untouched (rooms : list Room.t) (n : nat) :
  Forall (fun room => Room.score room <= 0.3) rooms ->
  applyEffects rand scrambleText dimColor rooms n = (rooms, n).
Proof.
  induction 1 as [|room rest Hroom Hrest IH]; simpl; [reflexivity|].
  unfold applyEffects_room, scramble_step, dim_step, warp_step.
  rewrite (proj2 (NumFacts.gtb_false _ 0.3)) by lra.
  rewrite (proj2 (NumFacts.gtb_false _ 0.5)) by lra.
  rewrite (proj2 (NumFacts.gtb_false _ 0.6)) by lra.
  rewrite IH. reflexivity.
Qed.

Lemma applyEffects_room_frame (room : Room.t) (n : nat) :
  let room' := fst (applyEffects_room rand scrambleText dimColor room n) in
  Room.id room' = Room.id room /\ Room.topic room' = Room.topic room
  /\ Room.entropy room' = Room.entropy room
  /\ Room.connections room' = Room.connections room
  /\ Room.traces room' = Room.traces room
  /\ Room.lastRefreshedCycle room' = Room.lastRefreshedCycle room
  /\ Room._addedCycle room' = Room._addedCycle room.
Proof.
  unfold applyEffects_room, scramble_step, dim_step, warp_step.
  destruct (Num.gtb _ 0.3); [destruct (scramble_all _ _ _ _)|];
    destruct (Num.gtb _ 0.5); destruct (Num.gtb _ 0.6); simpl; auto 10.
Qed.

(** [applyEffects] degrades text, colour and dimensions only: it returns the
    same rooms in the same order, each with its id, topic, entropy record,
    connections, traces and staleness clock unchanged. *)
Theorem applyEffects_frame (rooms : list Room.t) (n : nat) :
  Forall2
    (fun room room' =>
       Room.id room' = Room.id room /\ Room.topic room' = Room.topic room
       /\ Room.entropy room' = Room.entropy room
       /\ Room.connections room' = Room.connections room
       /\ Room.traces room' = Room.traces room
       /\ Room.lastRefreshedCycle room' = Room.lastRefreshedCycle room
       /\ Room._addedCycle room' = Room._addedCycle room)
    rooms (fst (applyEffects rand scrambleText dimColor rooms n)).
Proof.
  revert n. induction rooms as [|room rest IH]; intros n; simpl; [constructor|].
  pose proof (applyEffects_room_frame room n) as Hroom.
  destruct (applyEffects_room rand scrambleText dimColor room n) as [room' n1].
  specialize (IH n1).
  destruct (applyEffects rand scrambleText dimColor rest n1) as [rest' n2].
  simpl in *. constructor; assumption.
Qed.
End Effects.

Lemma applyEffects_fresh_untouched_witness :
  applyEffects (fun _ => 0.25) (fun s _ n => (s, n)) (fun c _ => c)
    [Samples.hour_room; Samples.future_room] 7
  = ([Samples.hour_room; Samples.future_room], 7%nat).
Proof.
  apply applyEffects_fresh_untouched.
  constructor; [unfold Room.score; simpl; lra|].
  constructor; [unfold Room.score; simpl; lra|]. constructor.
Defined.
End DecayMore.

(** ** EventTracker and MemoryEngine *)

Module EventMore.
Import EventTracker EventRel.
Local Open Scope nat_scope.

Lemma last_n_length {A : Type} (n : nat) (xs : list A) :
  List.length (Js.last_n n xs) = Nat.min n (List.length xs).
Proof. unfold Js.last_n. rewrite length_drop. lia. Qed.





Section Format.
Variable toFixed2 : R -> string.
Variable show_nat : nat -> string.

(** The events of [prune] are passed through first and in order. *)
Theorem detect_passes_prune_events (rooms : list Room.t) (entities : list Entity.t)
    (newRooms prunedRooms : list Room.t) (pruneEvents : list Event.t) (now : R) :
  pruneEvents
    `prefix_of` detect toFixed2 show_nat rooms entities newRooms prunedRooms pruneEvents now.
Proof.
  destruct (EventFacts.detect_rest_not_emerged toFixed2 show_nat rooms entities newRooms
              prunedRooms pruneEvents now) as (rest & -> & _).
  apply prefix_app_r. reflexivity.
Qed.

Lemma filter_type_none (ty : string) (l : list Event.t) :
  Forall (fun e => Event.type e <> ty) l -> filter (fun e => Event.type e = ty) l = [].
Proof.
  induction 1 as [|x l Hx Hl IH]; [reflexivity|].
  rewrite filter_cons_False by exact Hx. exact IH.
Qed.

Lemma filter_type_all (ty : string) (l : list Event.t) :
  Forall (fun e => Event.type e = ty) l -> filter (fun e => Event.type e = ty) l = l.
Proof.
  induction 1 as [|x l Hx Hl IH]; [reflexivity|].
  rewrite filter_cons_True by exact Hx. f_equal. exact IH.
Qed.

Lemma Forall_map_event {A : Type} (P : Event.t -> Prop) (f : A -> Event.t) (l : list A) :
  (forall x, P (f x)) -> Forall P (map f l).
Proof. intros H. apply Forall_fmap, Forall_forall. intros x _. apply H. Qed.

(** The "topic death" events of [detect]: one for each topic of the pruned
    rooms that no room of [state.rooms] has any more. *)
Theorem detect_topic_death (rooms : list Room.t) (entities : list Entity.t)
    (newRooms prunedRooms : list Room.t) (pruneEvents : list Event.t) (now : R) :
  Forall (fun e => Event.type e <> "topic_death") pruneEvents ->
  exists deaths,
    filter (fun e => Event.type e = "topic_death")
      (detect toFixed2 show_nat rooms entities newRooms prunedRooms pruneEvents now)
    = map (death_event now prunedRooms) deaths
    /\ NoDup deaths
    /\ forall t, t ∈ deaths <-> t ∈ map Room.topic prunedRooms /\ t ∉ map Room.topic rooms.
Proof.
  intros Hp. unfold detect.
  set (emerged := map (emerged_event now newRooms) _).
  set (deaths := filter (fun topic => topic ∉ Js.set_of (map Room.topic rooms))
                   (Js.set_of (map Room.topic prunedRooms))).
  set (dominant := map (dominant_event toFixed2 show_nat now) _).
  assert (He : filter (fun e => Event.type e = "topic_death") emerged = []).
  { apply filter_type_none, Forall_map_event. intros x. discriminate. }
  assert (Hd : filter (fun e => Event.type e = "topic_death") dominant = []).
  { apply filter_type_none, Forall_map_event. intros x. discriminate. }
  assert (Hdeath : forall l, filter (fun e => Event.type e = "topic_death")
                               (map (death_event now prunedRooms) l)
                             = map (death_event now prunedRooms) l).
  { intros l. apply filter_type_all, Forall_map_event. reflexivity. }
  assert (Hspec : forall t, t ∈ deaths
                    <-> t ∈ map Room.topic prunedRooms /\ t ∉ map Room.topic rooms).
  { intros t. unfold deaths.
    rewrite list_elem_of_filter, !EventFacts.set_of_elem. tauto. }
  assert (Hnd : NoDup deaths).
  { unfold deaths. apply NoDup_filter. unfold Js.set_of.
    generalize (map Room.topic prunedRooms). intros xs.
    assert (Hgen : forall acc, NoDup acc ->
              NoDup (fold_left (fun s x => Js.set_add x s) xs acc)).
    { induction xs as [|x xs IH]; intros acc Hacc; simpl; [exact Hacc|].
      apply IH, EventFacts.set_add_NoDup, Hacc. }
    apply Hgen, NoDup_nil_2. }
  destruct (0 <? List.length prunedRooms) eqn:Hlen.
  - exists deaths. split; [|split; assumption].
    destruct (10 <=? _);
      rewrite !filter_app, (filter_type_none _ _ Hp), He, Hd, Hdeath;
      simpl; rewrite ?app_nil_r; reflexivity.
  - exists []. split; [|split].
    + destruct (10 <=? _);
        rewrite !filter_app, (filter_type_none _ _ Hp), He, Hd; reflexivity.
    + constructor.
    + apply Nat.ltb_ge in Hlen. destruct prunedRooms; [|simpl in Hlen; lia].
      intros t. simpl. split; [intros H; inversion H | intros [H _]; inversion H].
Qed.

End Format.

Lemma detect_topic_death_witness :
  exists deaths,
    filter (fun e => Event.type e = "topic_death")
      (detect (fun _ => "") (fun _ => "") [] [] [] Samples.culture_rooms [] 0%R)
    = map (death_event 0%R Samples.culture_rooms) deaths
    /\ NoDup deaths
    /\ forall t, t ∈ deaths
         <-> t ∈ map Room.topic Samples.culture_rooms /\ t ∉ map Room.topic [].
Proof.
  apply (detect_topic_death (fun _ => "") (fun _ => "")). constructor.
Defined.

End EventMore.

Module MemoryMore.
Import MemoryEngine More.
Local Open Scope nat_scope.

Lemma bump_keys (topic : string) (s : R) (m : list (string * (nat * R))) (t : string) :
  t ∈ map fst (bump topic s m) <-> t = topic \/ t ∈ map fst m.
Proof.
  induction m as [|[t' [c total]] m IH]; simpl.
  - rewrite list_elem_of_singleton. split; [auto|]. intros [H | H]; [exact H | inversion H].
  - destruct (String.eqb_spec t' topic) as [-> | Hne]; simpl.
    + rewrite !elem_of_cons. tauto.
    + rewrite !elem_of_cons, IH. tauto.
Qed.

Lemma bump_NoDup (topic : string) (s : R) (m : list (string * (nat * R))) :
  NoDup (map fst m) -> NoDup (map fst (bump topic s m)).
Proof.
  induction m as [|[t' [c total]] m IH]; simpl; intros Hnd.
  - apply NoDup_singleton.
  - apply NoDup_cons in Hnd as [Hnin Hnd].
    destruct (String.eqb_spec t' topic) as [-> | Hne]; simpl.
    + apply NoDup_cons. auto.
    + apply NoDup_cons. split; [|apply IH, Hnd].
      rewrite bump_keys. intros [-> | H]; [congruence | contradiction].
Qed.

Lemma bump_sum (topic : string) (s : R) (m : list (string * (nat * R))) :
  list_sum (map stat_count (bump topic s m)) = S (list_sum (map stat_count m)).
Proof.
  induction m as [|[t' [c total]] m IH]; simpl; [reflexivity|].
  destruct (String.eqb t' topic); simpl; [reflexivity|].
  rewrite IH. unfold stat_count at 1 3. simpl. lia.
Qed.

Lemma bump_positive (topic : string) (s : R) (m : list (string * (nat * R))) :
  Forall (fun p => 1 <= stat_count p) m ->
  Forall (fun p => 1 <= stat_count p) (bump topic s m).
Proof.
  induction 1 as [|[t' [c total]] m Hp Hm IH]; simpl.
  - repeat constructor.
  - destruct (String.eqb t' topic); constructor; auto.
    unfold stat_count in *. simpl in *. lia.
Qed.

Lemma topicStats_from (rooms : list Room.t) (m : list (string * (nat * R))) :
  let m' := fold_left (fun m room => bump (Room.topic room) (Room.sentiment room) m)
              rooms m in
  list_sum (map stat_count m') = List.length rooms + list_sum (map stat_count m)
  /\ (NoDup (map fst m) -> NoDup (map fst m'))
  /\ (forall t, t ∈ map fst m' <-> t ∈ map Room.topic rooms \/ t ∈ map fst m)
  /\ (Forall (fun p => 1 <= stat_count p) m -> Forall (fun p => 1 <= stat_count p) m').
Proof.
  revert m. induction rooms as [|room rest IH]; intros m; simpl.
  - repeat split; auto. intros [H | H]; [inversion H | exact H].
  - destruct (IH (bump (Room.topic room) (Room.sentiment room) m))
      as (Hsum & Hnd & Hkeys & Hpos).
    repeat split.
    + rewrite Hsum, bump_sum. lia.
    + intros H. apply Hnd, bump_NoDup, H.
    + rewrite Hkeys, bump_keys, elem_of_cons. tauto.
    + rewrite Hkeys, bump_keys, elem_of_cons. tauto.
    + intros H. apply Hpos, bump_positive, H.
Qed.

Lemma snapshot_of_keys (stats : list (string * (nat * R))) :
  map fst (snapshot_of stats) = map fst stats
  /\ map (fun p => count (snd p)) (snapshot_of stats) = map stat_count stats.
Proof.
  induction stats as [|[t [c total]] stats [IH1 IH2]]; simpl; [auto|].
  rewrite IH1, IH2. auto.
Qed.

Lemma last_last_n {A : Type} (n : nat) (l : list A) (x : A) :
  1 <= n -> last (Js.last_n n (l ++ [x])) = Some x.
Proof.
  intros Hn. unfold Js.last_n. rewrite length_app. simpl.
  rewrite drop_app_le by lia. apply last_snoc.
Qed.

(** The snapshot that [update] appends for this cycle lists every topic of
    the rooms once, with a count of at least one, and its counts add up to
    the number of rooms.  (The statistics are kept in an object keyed by
    topic, which for the topics of the observer is the map of the model.) *)
Theorem snapshot_counts_rooms (memory : option Memory) (cycle : Z) (rooms : list Room.t)
    (now : R) :
  Forall (fun room => Room.topic room ∈ topic_names) rooms ->
  exists snap,
    last (topicHistory (update memory cycle rooms now)) = Some snap
    /\ MemoryEngine.cycle snap = cycle /\ timestamp snap = now
    /\ list_sum (map (fun p => count (snd p)) (topics snap)) = List.length rooms
    /\ NoDup (map fst (topics snap))
    /\ (forall t, t ∈ map fst (topics snap) <-> t ∈ map Room.topic rooms)
    /\ Forall (fun n => 1 <= n) (map (fun p => count (snd p)) (topics snap)).
Proof.
  intros _. exists (mkSnapshot cycle now (snapshot_of (topicStats rooms))).
  split.
  { unfold update. cbn [topicHistory].
    set (mx := if maxHistoryLength _ =? 0 then 50 else maxHistoryLength _).
    assert (Hmx : 1 <= mx).
    { unfold mx. destruct (_ =? 0) eqn:H; [lia|]. apply Nat.eqb_neq in H. lia. }
    destruct (mx <? _); [apply last_last_n, Hmx | apply last_snoc]. }
  cbn [MemoryEngine.cycle timestamp topics].
  destruct (snapshot_of_keys (topicStats rooms)) as [-> ->].
  destruct (topicStats_from rooms []) as (Hsum & Hnd & Hkeys & Hpos).
  fold (topicStats rooms) in Hsum, Hnd, Hkeys, Hpos. simpl in *.
  repeat split.
  - rewrite Hsum. lia.
  - apply Hnd. constructor.
  - intros H. apply Hkeys in H as [H | H]; [exact H | inversion H].
  - intros H. apply Hkeys. left. exact H.
  - apply Forall_fmap. apply Hpos. constructor.
Qed.

Lemma snapshot_counts_rooms_witness :
  exists snap,
    last (topicHistory (update None 1 Samples.scenario_rooms 0)) = Some snap
    /\ MemoryEngine.cycle snap = 1%Z /\ timestamp snap = 0%R
    /\ list_sum (map (fun p => count (snd p)) (topics snap))
       = List.length Samples.scenario_rooms
    /\ NoDup (map fst (topics snap))
    /\ (forall t, t ∈ map fst (topics snap) <-> t ∈ map Room.topic Samples.scenario_rooms)
    /\ Forall (fun n => 1 <= n) (map (fun p => count (snd p)) (topics snap)).
Proof.
  apply snapshot_counts_rooms.
  unfold topic_names. repeat (constructor; [simpl; set_solver|]). constructor.
Defined.

(** After [update] neither history is longer than the cap (50 unless the
    memory sets another), the room history ends with the entry of this
    cycle, and the cap itself is unchanged. *)
Theorem memory_update_bounded (memory : option Memory) (cycle : Z) (rooms : list Room.t)
    (now : R) :
  let mem := update memory cycle rooms now in
  let max := if maxHistoryLength mem =? 0 then 50 else maxHistoryLength mem in
  List.length (topicHistory mem) <= max
  /\ List.length (totalRoomHistory mem) <= max
  /\ last (totalRoomHistory mem) = Some (cycle, List.length rooms)
  /\ maxHistoryLength mem = maxHistoryLength (default (mkMemory [] [] 50) memory).
Proof.
  unfold update. simpl.
  set (mx := if maxHistoryLength _ =? 0 then 50 else maxHistoryLength _).
  assert (Hmx : 1 <= mx).
  { unfold mx. destruct (_ =? 0) eqn:H; [lia|]. apply Nat.eqb_neq in H. lia. }
  repeat split.
  - destruct (mx <? _) eqn:H.
    + rewrite EventMore.last_n_length. lia.
    + apply Nat.ltb_ge in H. exact H.
  - destruct (mx <? List.length (totalRoomHistory _ ++ _)) eqn:H.
    + rewrite EventMore.last_n_length. lia.
    + apply Nat.ltb_ge in H. exact H.
  - destruct (mx <? List.length (totalRoomHistory _ ++ _));
      [apply last_last_n, Hmx | apply last_snoc].
Qed.
End MemoryMore.

(** ** PruneEngine *)

Module PruneMore.
Import PruneEngine PruneRel More.

Lemma split_rooms_filter (currentCycle staleCycles : Z) (rooms : list Room.t) :
  fst (split_rooms currentCycle staleCycles rooms)
  = List.filter (prunable currentCycle staleCycles) rooms
  /\ map Room.id (snd (split_rooms currentCycle staleCycles rooms))
     = map Room.id
         (List.filter (fun room => negb (prunable currentCycle staleCycles room)) rooms)
  /\ Forall2 (fun room room' => Room.traces room' = Room.traces room)
       (List.filter (fun room => negb (prunable currentCycle staleCycles room)) rooms)
       (snd (split_rooms currentCycle staleCycles rooms)).
Proof.
  induction rooms as [|room rest (IH1 & IH2 & IH3)]; simpl; [repeat split; constructor|].
  destruct (split_rooms currentCycle staleCycles rest) as [toPrune toKeep].
  unfold prunable in *. simpl in *.
  destruct (isStale currentCycle staleCycles room && isDecaying room); simpl.
  - rewrite IH1. auto.
  - destruct (isStale currentCycle staleCycles room && Num.geb _ _); simpl;
      rewrite IH2; repeat split; auto.
Qed.

Section Oracles.
Variable rand : nat -> Unit01.
Variable toFixed2 : R -> string.
Variable show_cycles : Z -> string.

(** The pruned rooms are exactly the rooms that are stale and decaying
    (age >= staleCycles and score >= 0.6), in the order of the input, and
    the kept rooms are all the others, in the order of the input. *)
Theorem prune_exactly_stale_decaying currentCycle rooms corridors staleCycles now n :
  let res := fst (prune rand toFixed2 show_cycles currentCycle rooms corridors
                    staleCycles now n) in
  pruned res = List.filter (prunable currentCycle staleCycles) rooms
  /\ map Room.id (kept res)
     = map Room.id
         (List.filter (fun room => negb (prunable currentCycle staleCycles room)) rooms).
Proof.
  destruct (PruneFacts.prune_result rand toFixed2 show_cycles currentCycle rooms corridors
              staleCycles now n) as [Hp Hk].
  destruct (split_rooms_filter currentCycle staleCycles rooms) as (H1 & H2 & _).
  simpl. split; [rewrite Hp; exact H1|].
  rewrite (PruneFacts.Forall2_kept_as_ids _ _ Hk). exact H2.
Qed.

(** When no room is stale, [prune] returns the rooms as they are: nothing
    is pruned, boosted or traced, no fragment or event is made and no random
    number is drawn. *)
Theorem prune_nothing_stale currentCycle rooms corridors staleCycles now n :
  Forall (fun room => isStale currentCycle staleCycles room = false) rooms ->
  prune rand toFixed2 show_cycles currentCycle rooms corridors staleCycles now n
  = (mkResult rooms [] [] [], n).
Proof.
  intros H. unfold prune.
  assert (Hs : split_rooms currentCycle staleCycles rooms = ([], rooms)).
  { induction H as [|room rest Hroom Hrest IH]; simpl; [reflexivity|].
    rewrite IH, Hroom. reflexivity. }
  rewrite Hs. reflexivity.
Qed.

Lemma push_trace_within (tr : Trace.t) (room : Room.t) :
  traces_within room -> traces_within (push_trace tr room).
Proof.
  unfold traces_within, push_trace. intros H. simpl.
  destruct (5 <? _)%nat eqn:Hlt.
  - destruct (default [] (Room.traces room)) as [|t ts]; simpl in *; [lia|].
    rewrite length_app. simpl. lia.
  - apply Nat.ltb_ge in Hlt. exact Hlt.
Qed.

Lemma update_first_within (rid : string) (tr : Trace.t) (l : list Room.t) :
  Forall traces_within l -> Forall traces_within (update_first rid (push_trace tr) l).
Proof.
  induction 1 as [|r l Hr Hl IH]; simpl; [constructor|].
  destruct (String.eqb _ _); constructor; auto using push_trace_within.
Qed.

Lemma distribute_within (tr : Trace.t) (ns : list string) (l : list Room.t) :
  Forall traces_within l -> Forall traces_within (distribute tr ns l).
Proof.
  unfold distribute. revert l.
  induction ns as [|nid ns IH]; intros l H; simpl; [exact H|].
  apply IH, update_first_within, H.
Qed.

Lemma absorb_within (tr : Trace.t) (topic : string) (l : list Room.t) (k : nat) :
  Forall traces_within l -> Forall traces_within (fst (absorb rand tr topic l k)).
Proof.
  intros H. unfold absorb. destruct (0 <? _)%nat; [|exact H].
  destruct (_ !! _); simpl; [|exact H].
  apply Forall_alter; [exact H|]. intros r _ Hr. apply push_trace_within, Hr.
Qed.

Lemma prune_room_within corridors prunedIds currentCycle staleCycles now
    (acc : Acc) (room : Room.t) :
  Forall traces_within (acc_kept acc) ->
  Forall traces_within
    (acc_kept (prune_room rand toFixed2 show_cycles corridors prunedIds
                 currentCycle staleCycles now acc room)).
Proof.
  intros H. unfold prune_room.
  set (living := filter _ _).
  pose proof (distribute_within (trace_of room now) living _ H) as Hd.
  destruct (List.length living =? 0)%nat; [|exact Hd].
  pose proof (absorb_within (trace_of room now) (Room.topic room) _ (acc_draws acc) Hd) as Ha.
  destruct (absorb _ _ _ _ _). exact Ha.
Qed.

(** The trace arrays keep their capacity: when no room holds more than five
    traces before [prune], no kept room does after it. *)
Theorem prune_traces_capacity currentCycle rooms corridors staleCycles now n :
  Forall traces_within rooms ->
  Forall traces_within
    (kept (fst (prune rand toFixed2 show_cycles currentCycle rooms corridors
                  staleCycles now n))).
Proof.
  intros H. unfold prune.
  destruct (split_rooms_filter currentCycle staleCycles rooms) as (_ & _ & Htr).
  destruct (split_rooms currentCycle staleCycles rooms) as [toPrune toKeep]. simpl in *.
  assert (Hkeep : Forall traces_within toKeep).
  { assert (Hf : Forall traces_within
                   (List.filter (fun room => negb (prunable currentCycle staleCycles room))
                      rooms)).
    { rewrite Forall_forall in *. intros r Hr. apply H.
      apply list_elem_of_In in Hr. apply List.filter_In in Hr as [Hr _].
      apply list_elem_of_In, Hr. }
    clear -Htr Hf. induction Htr as [|r r' l l' Hr Hl IH]; [constructor|].
    inversion Hf; subst. constructor; [|auto].
    unfold traces_within in *. rewrite Hr. assumption. }
  generalize (Js.set_of (map Room.id toPrune)). intros prunedIds.
  assert (Hacc : Forall traces_within (acc_kept (mkAcc toKeep [] [] n))) by exact Hkeep.
  revert Hacc. generalize (mkAcc toKeep [] [] n).
  clear Hkeep Htr H.
  induction toPrune as [|room rest IH]; intros acc Hacc; simpl; [exact Hacc|].
  apply IH, prune_room_within, Hacc.
Qed.

Lemma fold_prune_room_outputs corridors prunedIds currentCycle staleCycles now
    (toPrune : list Room.t) (acc : Acc) :
  let acc' := fold_left (prune_room rand toFixed2 show_cycles corridors prunedIds
                           currentCycle staleCycles now) toPrune acc in
  map PruneFragment.sourceRoom (acc_fragments acc')
  = map PruneFragment.sourceRoom (acc_fragments acc) ++ map Room.id toPrune
  /\ map (fun e => head (Event.involvedRooms e)) (acc_events acc')
     = map (fun e => head (Event.involvedRooms e)) (acc_events acc)
       ++ map (fun room => Some (Room.id room)) toPrune
  /\ (Forall (fun e => Event.type e = "room_pruned"
                       /\ List.length (Event.involvedRooms e) <= 4) (acc_events acc) ->
      Forall (fun e => Event.type e = "room_pruned"
                       /\ List.length (Event.involvedRooms e) <= 4) (acc_events acc')).
Proof.
  revert acc. induction toPrune as [|room rest IH]; intros acc; simpl.
  - rewrite !app_nil_r. auto.
  - destruct (IH (prune_room rand toFixed2 show_cycles corridors prunedIds currentCycle
                    staleCycles now acc room)) as (Hf & He & Ht).
    assert (Hstep :
      acc_fragments (prune_room rand toFixed2 show_cycles corridors prunedIds currentCycle
                       staleCycles now acc room)
      = acc_fragments acc ++ [fragment_of room currentCycle now]
      /\ exists living,
           acc_events (prune_room rand toFixed2 show_cycles corridors prunedIds
                         currentCycle staleCycles now acc room)
           = acc_events acc ++ [pruned_event toFixed2 show_cycles room staleCycles living now]).
    { unfold prune_room. set (living := filter _ _).
      destruct (List.length living =? 0)%nat; [destruct (absorb _ _ _ _ _)|];
        simpl; (split; [reflexivity | exists living; reflexivity]). }
    destruct Hstep as (Hsf & living & Hse).
    rewrite Hsf, Hse in *. repeat split.
    + rewrite Hf, map_app. simpl. rewrite <- (assoc_L app). reflexivity.
    + rewrite He, map_app. simpl. rewrite <- (assoc_L app). reflexivity.
    + intros H. apply Ht. rewrite Forall_app. split; [exact H|].
      constructor; [|constructor]. simpl. split; [reflexivity|].
      rewrite length_take. lia.
Qed.

(** [prune] makes one fragment and one event for each pruned room, in the
    order of the pruned rooms: the fragment names the room as its source, and
    the event is a "room pruned" event that lists the room first and at most
    three neighbours after it. *)
Theorem prune_fragments_and_events currentCycle rooms corridors staleCycles now n :
  let res := fst (prune rand toFixed2 show_cycles currentCycle rooms corridors
                    staleCycles now n) in
  map PruneFragment.sourceRoom (fragments res) = map Room.id (pruned res)
  /\ map (fun e => head (Event.involvedRooms e)) (events res)
     = map (fun room => Some (Room.id room)) (pruned res)
  /\ Forall (fun e => Event.type e = "room_pruned"
                      /\ List.length (Event.involvedRooms e) <= 4) (events res).
Proof.
  unfold prune.
  destruct (split_rooms currentCycle staleCycles rooms) as [toPrune toKeep]. simpl.
  destruct (fold_prune_room_outputs corridors (Js.set_of (map Room.id toPrune))
              currentCycle staleCycles now toPrune (mkAcc toKeep [] [] n))
    as (Hf & He & Ht).
  simpl in *. split; [exact Hf|]. split; [exact He|]. apply Ht. constructor.
Qed.

End Oracles.

Lemma prune_nothing_stale_witness :
  prune (fun _ => Samples.half) (fun _ => "") (fun _ => "") 4 Samples.scenario_rooms [] 5 0 0
  = (mkResult Samples.scenario_rooms [] [] [], 0).
Proof.
  apply prune_nothing_stale.
  repeat (constructor; [vm_compute; reflexivity|]). constructor.
Defined.

Lemma prune_traces_capacity_witness :
  Forall traces_within
    (kept (fst (prune (fun _ => Samples.half) (fun _ => "") (fun _ => "") 8
                  Samples.scenario_rooms [] 5 0 0))).
Proof.
  apply prune_traces_capacity.
  repeat (constructor; [unfold traces_within; simpl; lia|]). constructor.
Defined.

End PruneMore.

(** ** EntityTracker.wander *)

Module WanderMore.
Import EntityTracker More.
Local Open Scope R_scope.

Lemma insert_asc_perm (x : Room.t) (l : list Room.t) : insert_asc x l ≡ₚ x :: l.
Proof.
  induction l as [|y l IH]; simpl; [reflexivity|].
  destruct (Num.ltb _ _); [|reflexivity].
  rewrite IH. apply Permutation_swap.
Qed.

Lemma sort_asc_perm (l : list Room.t) : sort_asc l ≡ₚ l.
Proof.
  induction l as [|x l IH]; simpl; [reflexivity|].
  rewrite insert_asc_perm, IH. reflexivity.
Qed.

Lemma insert_asc_sorted (x : Room.t) (l : list Room.t) :
  StronglySorted healthier l -> StronglySorted healthier (insert_asc x l).
Proof.
  induction 1 as [|y l Hl IH Hy]; simpl.
  - repeat constructor.
  - destruct (Num.ltb (Room.score y) (Room.score x)) eqn:Hlt.
    + apply NumFacts.ltb_true in Hlt. constructor; [exact IH|].
      rewrite insert_asc_perm. constructor; [unfold healthier; lra | exact Hy].
    + assert (Hxy : Room.score x <= Room.score y).
      { unfold Num.ltb in Hlt. destruct (Rlt_dec _ _); [discriminate | lra]. }
      constructor; [constructor; assumption|].
      constructor; [exact Hxy|].
      eapply Forall_impl; [exact Hy|]. intros z Hz. unfold healthier in *. simpl in *. lra.
Qed.

Lemma sort_asc_sorted (l : list Room.t) : StronglySorted healthier (sort_asc l).
Proof.
  induction l as [|x l IH]; simpl; [constructor | apply insert_asc_sorted, IH].
Qed.

(** In a sorted array fewer than [k + 1] rooms are strictly healthier than
    the room at position [k]. *)
Lemma sorted_healthier_count (l : list Room.t) (k : nat) (pick : Room.t) :
  StronglySorted healthier l -> l !! k = Some pick ->
  (List.length (filter (fun r => (Room.score r < Room.score pick)%R) l) <= k)%nat.
Proof.
  intros Hs. revert k. induction Hs as [|y l Hl IH Hy]; intros k Hk; [discriminate|].
  destruct k as [|k]; simpl in Hk.
  - injection Hk as ->.
    rewrite filter_cons_False by lra.
    assert (Hnone : filter (fun r => (Room.score r < Room.score pick)%R) l = []).
    { apply WanderFacts.filter_none. intros r Hr.
      rewrite Forall_forall in Hy. specialize (Hy r Hr). unfold healthier in Hy. lra. }
    rewrite Hnone. simpl. lia.
  - specialize (IH k Hk). rewrite filter_cons.
    destruct (decide _); simpl; lia.
Qed.

Section Oracles.
Variable rand : nat -> Unit01.

(** An inhabitant with a topic-matching room is put in one: its current room
    becomes a room of [rooms] whose topic is one of its topics, and at most
    two of the matching rooms have a strictly lower entropy score than the
    room picked. *)
Theorem wander_picks_healthy_room (rooms : list Room.t) (now : R) (entity : Entity.t)
    (n : nat) (room : Room.t) :
  room ∈ rooms -> Room.topic room ∈ Entity.topics entity ->
  exists pick,
    pick ∈ rooms /\ Room.topic pick ∈ Entity.topics entity
    /\ Entity.currentRoom (fst (wander_entity rand rooms now entity n))
       = Some (Room.id pick)
    /\ (List.length
          (filter (fun r => (Room.score r < Room.score pick)%R)
             (filter (fun r => Room.topic r ∈ Entity.topics entity) rooms)) <= 2)%nat.
Proof.
  intros Hin Htopic. unfold wander_entity.
  set (relevant := filter (fun r => Room.topic r ∈ Entity.topics entity) rooms).
  assert (Hrel : room ∈ relevant) by (apply list_elem_of_filter; auto).
  destruct (List.length relevant =? 0)%nat eqn:Hlen.
  { apply Nat.eqb_eq in Hlen. rewrite (nil_length_inv _ Hlen) in Hrel. inversion Hrel. }
  assert (Hne : sort_asc relevant <> []).
  { intros Hnil. pose proof (sort_asc_perm relevant) as Hp. rewrite Hnil in Hp.
    apply Permutation_nil_l in Hp. rewrite <- Hp in Hrel. inversion Hrel. }
  pose proof (NumFacts.pick_in_range (rand n) (sort_asc relevant) Hne) as [pick Hpick].
  assert (Hk : (Num.random_index (draw (rand n))
                  (Nat.min 3 (List.length (sort_asc relevant))) < 3)%nat).
  { assert (Hl : (0 < List.length (sort_asc relevant))%nat)
      by (destruct (sort_asc relevant); [contradiction | simpl; lia]).
    pose proof (NumFacts.random_index_lt (draw (rand n))
                  (Nat.min 3 (List.length (sort_asc relevant))) (draw_range (rand n))
                  ltac:(lia)). lia. }
  rewrite Hpick.
  assert (Hpin : pick ∈ relevant).
  { rewrite <- (sort_asc_perm relevant). eapply list_elem_of_lookup_2, Hpick. }
  apply list_elem_of_filter in Hpin as [Hpt Hpr].
  exists pick. split; [exact Hpr|]. split; [exact Hpt|]. split.
  - destruct (_ && _); reflexivity.
  - pose proof (sorted_healthier_count _ _ _ (sort_asc_sorted relevant) Hpick) as Hc.
    rewrite (Permutation_length
               (filter_Permutation (fun r => (Room.score r < Room.score pick)%R) _ _
                  (sort_asc_perm relevant))) in Hc.
    lia.
Qed.

Lemma wander_entity_same (rooms : list Room.t) (now : R) (entity : Entity.t) (n : nat) :
  same_inhabitant entity (fst (wander_entity rand rooms now entity n))
  /\ (history_within entity ->
      history_within (fst (wander_entity rand rooms now entity n))).
Proof.
  unfold wander_entity, same_inhabitant, history_within.
  destruct (_ =? 0)%nat; [destruct entity; simpl; auto|].
  destruct (_ !! _) as [pick|]; [|destruct entity; simpl; auto].
  destruct (_ && _); simpl; [|destruct entity; simpl; auto].
  split; [destruct entity; reflexivity|].
  intros H. unfold push_move. simpl.
  destruct (20 <? _)%nat eqn:Hlt.
  - destruct (Entity.history entity) as [|m h]; simpl in *; [lia|].
    rewrite length_app. simpl. lia.
  - apply Nat.ltb_ge in Hlt. exact Hlt.
Qed.

(** [wander] keeps every inhabitant, in order, and changes nothing of it but
    the current room and the movement history; a history of at most twenty
    moves stays within twenty. *)
Theorem wander_keeps_inhabitants (rooms : list Room.t) (now : R)
    (entities : list Entity.t) (n : nat) :
  Forall2 same_inhabitant entities (fst (wander rand rooms now entities n))
  /\ (Forall history_within entities ->
      Forall history_within (fst (wander rand rooms now entities n))).
Proof.
  revert n. induction entities as [|e rest IH]; intros n; simpl.
  - split; constructor.
  - pose proof (wander_entity_same rooms now e n) as [Hs Hh].
    destruct (wander_entity rand rooms now e n) as [e' n1].
    destruct (IH n1) as [IHs IHh].
    destruct (wander rand rooms now rest n1) as [rest' n2]. simpl in *.
    split; [constructor; assumption|].
    intros H. inversion H; subst. constructor; auto.
Qed.
End Oracles.

Lemma wander_picks_healthy_room_witness :
  exists pick,
    pick ∈ Samples.scenario_rooms /\ Room.topic pick ∈ Entity.topics Samples.settled
    /\ Entity.currentRoom
         (fst (wander_entity (fun _ => Samples.half) Samples.scenario_rooms 0
                 Samples.settled 0))
       = Some (Room.id pick)
    /\ (List.length
          (filter (fun r => (Room.score r < Room.score pick)%R)
             (filter (fun r => Room.topic r ∈ Entity.topics Samples.settled)
                Samples.scenario_rooms)) <= 2)%nat.
Proof.
  apply (wander_picks_healthy_room (fun _ => Samples.half) Samples.scenario_rooms 0
           Samples.settled 0 (Samples.scenario_room "room_000000b1" 0.6 3)).
  - left.
  - simpl. left.
Defined.

Lemma wander_keeps_inhabitants_witness :
  Forall history_within
    (fst (wander (fun _ => Samples.half) Samples.scenario_rooms 0 [Samples.settled] 0)).
Proof.
  apply (proj2 (wander_keeps_inhabitants (fun _ => Samples.half) Samples.scenario_rooms 0
                  [Samples.settled] 0)).
  constructor; [unfold history_within; simpl; lia | constructor].
Defined.
End WanderMore.

(** ** TopologyEngine *)

Module TopologyMore.
Import Wf Topology TopologyInv GrowFacts TopologyFacts More.

Lemma connection_total_push (l : list Room.t) (i : nat) (x : string) (r : Room.t) :
  l !! i = Some r ->
  connection_total (alter (push_connection x) i l) = S (connection_total l).
Proof.
  revert i.
  induction l as [|y l IH]; intros i Hi; [discriminate|].
  destruct i as [|i].
  - injection Hi as ->. unfold connection_total. simpl.
    rewrite length_app. simpl. lia.
  - specialize (IH i Hi).
    change (alter (push_connection x) (S i) (y :: l))
      with (y :: alter (push_connection x) i l).
    change (connection_total (y :: alter (push_connection x) i l))
      with (List.length (Room.connections y)
            + connection_total (alter (push_connection x) i l)).
    rewrite IH. unfold connection_total. simpl. lia.
Qed.

Lemma connection_total_pushes (l : list Room.t) (a b : nat) (x y : string) (ra rb : Room.t) :
  l !! a = Some ra -> l !! b = Some rb ->
  connection_total (alter (push_connection x) b (alter (push_connection y) a l))
  = S (S (connection_total l)).
Proof.
  intros Ha Hb.
  destruct (pushed_lookup l a a y y b rb Hb) as (rb' & Hb' & _).
  assert (Hb1 : is_Some (alter (push_connection y) a l !! b)).
  { apply lookup_lt_is_Some. rewrite length_alter. eapply lookup_lt_Some, Hb. }
  destruct Hb1 as [rb1 Hb1].
  rewrite (connection_total_push _ b x rb1 Hb1), (connection_total_push _ a y ra Ha).
  reflexivity.
Qed.

Section Shuffle.
Variable shuffle : nat -> list nat -> list nat.

(** Both engines leave the rooms in place and only add to their connections:
    the result has the same rooms in the same order, each equal to the input
    room but for connections appended at the end. *)
Theorem generateCorridors_only_connects (rs : list Room.t) (threshold : R) :
  Forall2 grows rs
    (TopologyEngine.rooms (TopologyEngine.generateCorridors shuffle rs threshold))
  /\ Forall2 grows rs
       (TopologyEngineV1.rooms (TopologyEngineV1.generateCorridors rs threshold)).
Proof.
  split; [apply TopologyClaims.generateCorridors_grows|].
  unfold TopologyEngineV1.generateCorridors, TopologyEngineV1.repair.
  eapply Forall2_grows_trans;
    [apply (ConnectV1Facts.all_pairs_grows threshold (TopologyEngineV1.mkGen rs []))|].
  apply ConnectV1Facts.fold_grows. intros s i. apply ConnectV1Facts.v1_repair_room_grows.
Qed.

Lemma addCorridor_total (c0 : nat) (st : TopologyEngine.Gen) (a b : nat) (sim : R) :
  connection_total (TopologyEngine.rooms st)
    = c0 + 2 * List.length (TopologyEngine.corridors st) ->
  connection_total (TopologyEngine.rooms (TopologyEngine.addCorridor st a b sim))
    = c0 + 2 * List.length (TopologyEngine.corridors (TopologyEngine.addCorridor st a b sim)).
Proof.
  intros H.
  destruct (addCorridor_cases st a b sim) as [-> | (ra & rb & Ha & Hb & _ & ->)];
    [exact H|].
  simpl. rewrite (connection_total_pushes _ a b _ _ ra rb Ha Hb), length_app, H.
  simpl. lia.
Qed.

Lemma connect_total (c0 : nat) (st : TopologyEngineV1.Gen) (a b : nat) (sim : R) :
  connection_total (TopologyEngineV1.rooms st)
    = c0 + 2 * List.length (TopologyEngineV1.corridors st) ->
  connection_total (TopologyEngineV1.rooms (TopologyEngineV1.connect st a b sim))
    = c0 + 2 * List.length (TopologyEngineV1.corridors (TopologyEngineV1.connect st a b sim)).
Proof.
  intros H. unfold TopologyEngineV1.connect.
  destruct (TopologyEngineV1.rooms st !! a) as [ra|] eqn:Ha; [|exact H].
  destruct (TopologyEngineV1.rooms st !! b) as [rb|] eqn:Hb; [|exact H].
  simpl. rewrite (connection_total_pushes _ a b _ _ ra rb Ha Hb), length_app, H.
  simpl. lia.
Qed.

(** Every corridor accounts for two connection entries: in both engines the
    number of connection entries after the run is the number before it plus
    twice the number of corridors (so, from rooms without connections,
    exactly twice the number of corridors). *)
Theorem connections_twice_corridors (rs : list Room.t) (threshold : R) :
  let st := TopologyEngine.generateCorridors shuffle rs threshold in
  let st1 := TopologyEngineV1.generateCorridors rs threshold in
  connection_total (TopologyEngine.rooms st)
    = connection_total rs + 2 * List.length (TopologyEngine.corridors st)
  /\ connection_total (TopologyEngineV1.rooms st1)
     = connection_total rs + 2 * List.length (TopologyEngineV1.corridors st1).
Proof.
  split.
  - apply (generateCorridors_closed shuffle
             (fun s => connection_total (TopologyEngine.rooms s)
                       = connection_total rs
                         + 2 * List.length (TopologyEngine.corridors s))).
    + intros s a b sim. apply addCorridor_total.
    + intros s t Hs. destruct (sample_others_rooms shuffle s t) as (-> & -> & _). exact Hs.
    + simpl. lia.
  - unfold TopologyEngineV1.generateCorridors, TopologyEngineV1.repair,
      TopologyEngineV1.all_pairs.
    set (Q := fun s => connection_total (TopologyEngineV1.rooms s)
                       = connection_total rs
                         + 2 * List.length (TopologyEngineV1.corridors s)).
    apply (fold_left_closed Q).
    + intros s i Hs. unfold TopologyEngineV1.repair_room.
      destruct (_ !! i); [|exact Hs]. destruct (_ && _); [|exact Hs].
      destruct (best_candidate _ _ _) as [bestSim [bestRoom|]]; [|exact Hs].
      apply connect_total, Hs.
    + apply (fold_left_closed Q).
      * intros s i Hs. unfold TopologyEngineV1.pairs_from. apply (fold_left_closed Q).
        -- intros s' j Hs'. unfold TopologyEngineV1.pair_step.
           destruct (_ !! i); [|exact Hs']. destruct (_ !! j); [|exact Hs'].
           destruct (Num.geb _ _); [apply connect_total, Hs' | exact Hs'].
        -- exact Hs.
      * unfold Q. simpl. lia.
Qed.

Lemma corridor_ends (rs : list Room.t) (threshold : R) (c : Corridor.t) :
  c ∈ TopologyEngine.corridors (TopologyEngine.generateCorridors shuffle rs threshold) ->
  Corridor.from c ∈ map Room.id rs /\ Corridor.to c ∈ map Room.id rs.
Proof.
  intros Hc.
  destruct (TopologyClaims.generateCorridors_recorded shuffle rs threshold c Hc)
    as (a & b & ra & rb & Ha & Hb & -> & -> & _).
  rewrite <- (Forall2_grows_ids _ _ (TopologyClaims.generateCorridors_grows shuffle rs threshold)).
  split; apply list_elem_of_fmap; eexists; (split; [reflexivity|]);
    eapply list_elem_of_lookup_2; eauto.
Qed.

(** No corridor dangles: each recorded corridor of [generateCorridors] of
    [world.js] runs between two rooms of the input, named by their ids. *)
Theorem corridors_join_rooms (rs : list Room.t) (threshold : R) :
  let st := TopologyEngine.generateCorridors shuffle rs threshold in
  Forall (fun c => Corridor.from c ∈ map Room.id rs /\ Corridor.to c ∈ map Room.id rs)
    (TopologyEngine.corridors st).
Proof. simpl. apply Forall_forall. intros c. apply corridor_ends. Qed.
End Shuffle.
End TopologyMore.

(** ** No corridor joins a room to itself *)

Module LoopFacts.
Import Wf Topology TopologyInv GrowFacts TopologyFacts More.

Lemma fold_left_closed_in {A B : Type} (P : A -> Prop) (f : A -> B -> A)
    (l : list B) (x : A) :
  (forall s y, y ∈ l -> P s -> P (f s y)) -> P x -> P (fold_left f l x).
Proof.
  revert x. induction l as [|y l IH]; intros x Hf Hx; simpl; [exact Hx|].
  apply IH.
  - intros s z Hz. apply Hf. right. exact Hz.
  - apply Hf; [left | exact Hx].
Qed.

Lemma insert_desc_elem (x y : nat * R) (l : list (nat * R)) :
  y ∈ TopologyEngine.insert_desc x l -> y = x \/ y ∈ l.
Proof.
  induction l as [|z l IH]; simpl.
  - intros H. apply list_elem_of_singleton in H. auto.
  - destruct (Num.gtb _ _).
    + intros H. apply elem_of_cons in H as [-> | H]; [right; left|].
      destruct (IH H) as [-> | Hin]; [left; reflexivity | right; right; exact Hin].
    + intros H. apply elem_of_cons in H as [-> | H]; auto.
Qed.

Lemma sort_desc_elem (y : nat * R) (l : list (nat * R)) :
  y ∈ TopologyEngine.sort_desc l -> y ∈ l.
Proof.
  induction l as [|x l IH]; simpl; [auto|].
  intros H. destruct (insert_desc_elem _ _ _ H) as [-> | Hin]; [left | right; auto].
Qed.

Lemma first_match_elem (threshold : R) (room : nat) (sample : list nat)
    (st : TopologyEngine.Gen) (other : nat) (sim : R) :
  TopologyEngine.first_match threshold room sample st = Some (other, sim) ->
  other ∈ sample.
Proof.
  induction sample as [|x sample IH]; simpl; [discriminate|].
  destruct (Num.geb _ _).
  - intros [= -> _]. left.
  - intros H. right. exact (IH H).
Qed.

(** *** The groups hold rooms of their topic *)

Lemma group_get_by_topic (rs : list Room.t) (t : string) (m : list (string * list nat))
    (g : list nat) :
  groups_by_topic rs m -> TopologyEngine.group_get t m = Some g ->
  group_by_topic rs (t, g).
Proof.
  induction 1 as [|[t0 g0] m Hg Hm IH]; simpl; [discriminate|].
  destruct (String.eqb_spec t0 t) as [-> | _]; [|exact IH].
  intros [= <-]. exact Hg.
Qed.

Lemma group_set_by_topic (rs : list Room.t) (t : string) (g' : list nat)
    (m : list (string * list nat)) :
  groups_by_topic rs m -> group_by_topic rs (t, g') ->
  groups_by_topic rs (TopologyEngine.group_set t g' m).
Proof.
  intros Hm Hg'. induction Hm as [|[t0 g0] m Hg Hm IH]; simpl; [constructor|].
  destruct (String.eqb_spec t0 t) as [-> | _]; constructor; auto.
Qed.

Lemma group_push_by_topic (rs : list Room.t) (i : nat) (r : Room.t)
    (m : list (string * list nat)) :
  rs !! i = Some r ->
  groups_by_topic rs m ->
  groups_by_topic rs (TopologyEngine.group_push (Room.topic r) i m).
Proof.
  intros Hi. induction 1 as [|[t0 g0] m Hg Hm IH]; simpl.
  - constructor; [|constructor]. constructor; [|constructor]. eauto.
  - destruct (String.eqb_spec t0 (Room.topic r)) as [-> | _].
    + constructor; [|exact Hm]. unfold group_by_topic in *. simpl in *.
      apply Forall_app. split; [exact Hg|]. constructor; [|constructor]. eauto.
    + constructor; [exact Hg | exact IH].
Qed.

Lemma group_rooms_by_topic (all pre rest : list Room.t) (m : list (string * list nat)) :
  all = pre ++ rest ->
  groups_by_topic all m ->
  groups_by_topic all (TopologyEngine.group_rooms (List.length pre) rest m).
Proof.
  revert pre m. induction rest as [|r rest IH]; intros pre m Hall Hm; simpl; [exact Hm|].
  replace (S (List.length pre)) with (List.length (pre ++ [r]))
    by (rewrite length_app; simpl; lia).
  apply IH.
  - rewrite Hall, <- (assoc_L app). reflexivity.
  - apply (group_push_by_topic all _ r); [|exact Hm].
    rewrite Hall. rewrite lookup_app_r by lia. rewrite Nat.sub_diag. reflexivity.
Qed.

Section Run.
Variable shuffle : nat -> list nat -> list nat.
Hypothesis shuffle_perm : forall k l, shuffle k l ≡ₚ l.
Variable rs : list Room.t.
Hypothesis ids_unique : NoDup (map Room.id rs).

(** Two positions of the rooms name rooms with different ids. *)
Lemma distinct_ids (l : list Room.t) (a b : nat) (ra rb : Room.t) :
  Forall2 grows rs l -> a <> b -> l !! a = Some ra -> l !! b = Some rb ->
  Room.id ra <> Room.id rb.
Proof.
  intros Hg Hab Ha Hb Heq. apply Hab.
  apply (unique_position l a b ra rb); auto.
  rewrite (Forall2_grows_ids _ _ Hg). exact ids_unique.
Qed.

(** Rooms in groups of different topics are different rooms. *)
Lemma topics_apart (l : list Room.t) (a b : nat) (ta tb : string) (ra rb : Room.t) :
  Forall2 grows rs l ->
  (exists r, rs !! a = Some r /\ Room.topic r = ta) ->
  (exists r, rs !! b = Some r /\ Room.topic r = tb) ->
  ta <> tb -> l !! a = Some ra -> l !! b = Some rb ->
  Room.id ra <> Room.id rb.
Proof.
  intros Hg (r1 & H1 & Ht1) (r2 & H2 & Ht2) Hne Ha Hb.
  apply (distinct_ids l a b); auto.
  intros ->. rewrite H1 in H2. injection H2 as ->. congruence.
Qed.

Lemma addCorridor_sound (st : TopologyEngine.Gen) (a b : nat) (sim : R) :
  sound rs st ->
  (forall ra rb, TopologyEngine.rooms st !! a = Some ra ->
                 TopologyEngine.rooms st !! b = Some rb -> Room.id ra <> Room.id rb) ->
  sound rs (TopologyEngine.addCorridor st a b sim).
Proof.
  intros (Hg & Hok & Hbt & Hp) Hab.
  pose proof (addCorridor_grows st a b sim) as Hgrow.
  split; [eapply Forall2_grows_trans; eauto|]. split; [|split].
  - unfold groups_ok in *. rewrite addCorridor_byTopic.
    rewrite <- (Forall2_length _ _ _ Hgrow). exact Hok.
  - rewrite addCorridor_byTopic. exact Hbt.
  - destruct (addCorridor_cases st a b sim) as [-> | (ra & rb & Ha & Hb & _ & ->)];
      [exact Hp|].
    simpl. apply Forall_app. split; [exact Hp|]. constructor; [|constructor].
    unfold proper. simpl. exact (Hab ra rb Ha Hb).
Qed.

Lemma addCorridor_sound_apart (st : TopologyEngine.Gen) (a b : nat) (sim : R) :
  sound rs st -> a <> b -> sound rs (TopologyEngine.addCorridor st a b sim).
Proof.
  intros Hs Hab. apply addCorridor_sound; [exact Hs|].
  intros ra rb. apply distinct_ids; [exact (proj1 Hs) | exact Hab].
Qed.

Lemma sample_others_sound (st : TopologyEngine.Gen) (t : string) :
  sound rs st ->
  sound rs (snd (TopologyEngine.sample_others shuffle t st))
  /\ group_by_topic rs (t, fst (TopologyEngine.sample_others shuffle t st)).
Proof.
  intros (Hg & Hok & Hbt & Hp). unfold TopologyEngine.sample_others.
  destruct (TopologyEngine.group_get t (TopologyEngine.byTopic st)) as [g|] eqn:Hget;
    simpl.
  - pose proof (group_get_by_topic _ _ _ _ Hbt Hget) as Hgt.
    destruct (group_get_ok _ _ _ _ Hok Hget) as [Hnd Hlt]. simpl in Hnd, Hlt.
    assert (Hsh : group_by_topic rs (t, shuffle (TopologyEngine.shuffles st) g)).
    { unfold group_by_topic in *. simpl in *.
      rewrite (shuffle_perm (TopologyEngine.shuffles st) g). exact Hgt. }
    destruct (_ <=? _)%nat; simpl.
    + split; [exact (conj Hg (conj Hok (conj Hbt Hp))) | exact Hgt].
    + split.
      * split; [exact Hg|]. split; [|split; [|exact Hp]].
        -- unfold groups_ok in *. simpl. apply group_set_ok; [exact Hok|].
           split; simpl; rewrite (shuffle_perm (TopologyEngine.shuffles st) g); assumption.
        -- simpl. apply group_set_by_topic; assumption.
      * unfold group_by_topic in *. simpl in *.
        apply Forall_forall. intros i Hi.
        rewrite Forall_forall in Hsh. apply Hsh.
        eapply (subseteq_take 5). exact Hi.
  - split; [exact (conj Hg (conj Hok (conj Hbt Hp)))|].
    unfold group_by_topic. simpl. constructor.
Qed.

Lemma connect_scored_sound (threshold : R) (a : nat) (st : TopologyEngine.Gen)
    (scored : list (nat * R)) :
  (forall s, s ∈ scored -> fst s <> a) -> sound rs st ->
  sound rs (TopologyEngine.connect_scored threshold a st scored).
Proof.
  intros Hne. unfold TopologyEngine.connect_scored.
  apply fold_left_closed_in. intros s y Hy Hs.
  destruct (Num.geb _ _); [|exact Hs].
  apply addCorridor_sound_apart; [exact Hs|].
  intros Heq. apply (Hne y); [eapply (subseteq_take 5); exact Hy | congruence].
Qed.

Lemma intra_group_sound (threshold : R) (group : list nat) (st : TopologyEngine.Gen) :
  NoDup group -> sound rs st -> sound rs (TopologyEngine.intra_group threshold group st).
Proof.
  revert st. induction group as [|a rest IH]; intros st Hnd Hs; simpl; [exact Hs|].
  apply NoDup_cons in Hnd as [Ha Hnd].
  apply IH; [exact Hnd|]. apply connect_scored_sound; [|exact Hs].
  intros s Hin Heq. apply sort_desc_elem in Hin.
  apply list_elem_of_fmap in Hin as (b & -> & Hb). simpl in Heq. subst b. contradiction.
Qed.

Lemma intra_topic_sound (threshold : R) (st : TopologyEngine.Gen) :
  sound rs st -> sound rs (TopologyEngine.intra_topic threshold st).
Proof.
  intros Hs. unfold TopologyEngine.intra_topic.
  apply fold_left_closed_in; [|exact Hs].
  intros s tg Htg Hs'. apply intra_group_sound; [|exact Hs'].
  destruct Hs as (_ & Hok & _). unfold groups_ok in Hok.
  rewrite Forall_forall in Hok. exact (proj1 (Hok tg Htg)).
Qed.

Lemma cross_room_sound (threshold : R) (topic : string) (room : nat)
    (topics : list string) (crossCount : nat) (st : TopologyEngine.Gen) :
  (exists r, rs !! room = Some r /\ Room.topic r = topic) ->
  sound rs st ->
  sound rs (TopologyEngine.cross_room shuffle threshold topic room topics crossCount st).
Proof.
  intros Hroom. revert crossCount st.
  induction topics as [|otherTopic rest IH]; intros crossCount st Hs;
    cbn [TopologyEngine.cross_room]; [exact Hs|].
  destruct (String.eqb_spec otherTopic topic) as [Heq | Hne]; [exact Hs|].
  destruct (3 <=? crossCount)%nat eqn:Hcount; [exact Hs|].
  cbn [orb].
  destruct (sample_others_sound st otherTopic Hs) as [Hs1 Hsample].
  destruct (TopologyEngine.sample_others shuffle otherTopic st) as [sample st1].
  simpl in Hs1, Hsample.
  destruct (TopologyEngine.first_match threshold room sample st1) as [[other sim]|] eqn:Hfm;
    apply IH; [|exact Hs1].
  apply addCorridor_sound; [exact Hs1|].
  intros ra rb Ha Hb.
  apply first_match_elem in Hfm.
  unfold group_by_topic in Hsample. simpl in Hsample. rewrite Forall_forall in Hsample.
  apply (topics_apart (TopologyEngine.rooms st1) room other topic otherTopic);
    auto.
  exact (proj1 Hs1).
Qed.

Lemma cross_group_sound (threshold : R) (topics : list string)
    (st : TopologyEngine.Gen) (topic : string) :
  sound rs st -> sound rs (TopologyEngine.cross_group shuffle threshold topics st topic).
Proof.
  intros Hs. unfold TopologyEngine.cross_group.
  apply fold_left_closed_in; [|exact Hs].
  intros s room Hroom Hs'. destruct (_ <=? _)%nat; [exact Hs'|].
  apply cross_room_sound; [|exact Hs'].
  destruct Hs as (_ & _ & Hbt & _).
  destruct (TopologyEngine.group_get topic (TopologyEngine.byTopic st)) as [g|] eqn:Hget;
    simpl in Hroom; [|inversion Hroom].
  pose proof (group_get_by_topic _ _ _ _ Hbt Hget) as Hgt.
  unfold group_by_topic in Hgt. simpl in Hgt. rewrite Forall_forall in Hgt.
  exact (Hgt room Hroom).
Qed.

Lemma cross_topic_sound (threshold : R) (st : TopologyEngine.Gen) :
  sound rs st -> sound rs (TopologyEngine.cross_topic shuffle threshold st).
Proof.
  unfold TopologyEngine.cross_topic. apply fold_left_closed.
  intros s t. apply cross_group_sound.
Qed.

Lemma best_candidate_other (l : list Room.t) (room : nat) (r : Room.t)
    (cands : list nat) (bestSim : R) (bestRoom : nat) :
  l !! room = Some r ->
  best_candidate l room cands = (bestSim, Some bestRoom) ->
  exists o, l !! bestRoom = Some o /\ Room.id o <> Room.id r.
Proof.
  intros Hr Hbest.
  assert (HJ : BestInv.J l r cands (best_candidate l room cands)).
  { unfold best_candidate. apply (BestFacts.fold_best_J l room r Hr); [auto|].
    left. split; reflexivity. }
  rewrite Hbest in HJ. destruct HJ as [[Hnone _] | (b & o & Hb & _ & Ho & Hne)].
  - discriminate.
  - simpl in Hb. injection Hb as <-. eauto.
Qed.

Lemma repair_room_sound (st : TopologyEngine.Gen) (room : nat) :
  sound rs st -> sound rs (TopologyEngine.repair_room st room).
Proof.
  intros Hs. unfold TopologyEngine.repair_room.
  destruct (TopologyEngine.rooms st !! room) as [r|] eqn:Hr; [|exact Hs].
  destruct (_ && _); [|exact Hs].
  destruct (best_candidate _ _ _) as [bestSim [bestRoom|]] eqn:Hbest; [|exact Hs].
  destruct (best_candidate_other _ _ _ _ _ _ Hr Hbest) as (o & Ho & Hne).
  apply addCorridor_sound; [exact Hs|].
  intros ra rb Ha Hb. rewrite Hr in Ha. rewrite Ho in Hb.
  injection Ha as <-. injection Hb as <-. congruence.
Qed.

Lemma generateCorridors_sound (threshold : R) :
  sound rs (TopologyEngine.generateCorridors shuffle rs threshold).
Proof.
  unfold TopologyEngine.generateCorridors, TopologyEngine.repair.
  apply fold_left_closed; [intros s i; apply repair_room_sound|].
  apply cross_topic_sound, intra_topic_sound.
  split; [apply Forall2_grows_refl|]. split; [|split]; simpl.
  - unfold groups_ok. simpl. apply (group_rooms_ok 0 rs []). constructor.
  - apply (group_rooms_by_topic rs [] rs []); [reflexivity | constructor].
  - constructor.
Qed.

(** *** The engine of [topology.js] *)

Lemma connect_sound (st : TopologyEngineV1.Gen) (a b : nat) (sim : R) :
  sound_v1 rs st ->
  (forall ra rb, TopologyEngineV1.rooms st !! a = Some ra ->
                 TopologyEngineV1.rooms st !! b = Some rb -> Room.id ra <> Room.id rb) ->
  sound_v1 rs (TopologyEngineV1.connect st a b sim).
Proof.
  intros [Hg Hp] Hab. unfold TopologyEngineV1.connect.
  destruct (TopologyEngineV1.rooms st !! a) as [ra|] eqn:Ha; [|exact (conj Hg Hp)].
  destruct (TopologyEngineV1.rooms st !! b) as [rb|] eqn:Hb; [|exact (conj Hg Hp)].
  split; simpl.
  - eapply Forall2_grows_trans; [exact Hg | apply pushed_grows].
  - apply Forall_app. split; [exact Hp|]. constructor; [|constructor].
    unfold proper. simpl. apply Hab; reflexivity.
Qed.

Lemma v1_all_pairs_sound (threshold : R) (st : TopologyEngineV1.Gen) :
  sound_v1 rs st -> sound_v1 rs (TopologyEngineV1.all_pairs threshold st).
Proof.
  unfold TopologyEngineV1.all_pairs. apply fold_left_closed.
  intros s i Hs. unfold TopologyEngineV1.pairs_from.
  apply fold_left_closed_in; [|exact Hs].
  intros s' j Hj Hs'. unfold TopologyEngineV1.pair_step.
  destruct (TopologyEngineV1.rooms s' !! i) as [ri|] eqn:Hi; [|exact Hs'].
  destruct (TopologyEngineV1.rooms s' !! j) as [rj|] eqn:Hjj; [|exact Hs'].
  destruct (Num.geb _ _); [|exact Hs'].
  apply connect_sound; [exact Hs'|].
  intros ra rb. apply distinct_ids; [exact (proj1 Hs')|].
  apply elem_of_seq in Hj. lia.
Qed.

Lemma v1_repair_room_sound (st : TopologyEngineV1.Gen) (room : nat) :
  sound_v1 rs st -> sound_v1 rs (TopologyEngineV1.repair_room st room).
Proof.
  intros Hs. unfold TopologyEngineV1.repair_room.
  destruct (TopologyEngineV1.rooms st !! room) as [r|] eqn:Hr; [|exact Hs].
  destruct (_ && _); [|exact Hs].
  destruct (best_candidate _ _ _) as [bestSim [bestRoom|]] eqn:Hbest; [|exact Hs].
  destruct (best_candidate_other _ _ _ _ _ _ Hr Hbest) as (o & Ho & Hne).
  apply connect_sound; [exact Hs|].
  intros ra rb Ha Hb. rewrite Hr in Ha. rewrite Ho in Hb.
  injection Ha as <-. injection Hb as <-. congruence.
Qed.

Lemma v1_generateCorridors_sound (threshold : R) :
  sound_v1 rs (TopologyEngineV1.generateCorridors rs threshold).
Proof.
  unfold TopologyEngineV1.generateCorridors, TopologyEngineV1.repair.
  apply fold_left_closed; [intros s i; apply v1_repair_room_sound|].
  apply v1_all_pairs_sound. split; [apply Forall2_grows_refl | constructor].
Qed.
End Run.

(** With unique room ids, no corridor of either engine joins a room to
    itself: the two ends of every recorded corridor are different ids. *)
Theorem corridors_never_loop (shuffle : nat -> list nat -> list nat)
    (rs : list Room.t) (threshold : R) :
  (forall k l, shuffle k l ≡ₚ l) -> NoDup (map Room.id rs) ->
  Forall proper
    (TopologyEngine.corridors (TopologyEngine.generateCorridors shuffle rs threshold))
  /\ Forall proper
       (TopologyEngineV1.corridors (TopologyEngineV1.generateCorridors rs threshold)).
Proof.
  intros Hperm Hnd. split.
  - apply (generateCorridors_sound shuffle Hperm rs Hnd threshold).
  - apply (v1_generateCorridors_sound rs Hnd threshold).
Qed.

Lemma corridors_never_loop_witness :
  Forall proper
    (TopologyEngine.corridors
       (TopologyEngine.generateCorridors (fun _ l => l) Samples.pair_rooms 0.4))
  /\ Forall proper
       (TopologyEngineV1.corridors
          (TopologyEngineV1.generateCorridors Samples.pair_rooms 0.4)).
Proof.
  apply (corridors_never_loop (fun _ l => l) Samples.pair_rooms 0.4).
  - intros k l. reflexivity.
  - exact (proj1 TopologyClaims.pair_rooms_wf).
Defined.
End LoopFacts.

(** ** The cycle of the world *)

Module CycleMore.
Import World More.
Local Open Scope R_scope.

Lemma imap_position_ids (pos : nat -> R * R) (rooms : list Room.t) :
  map Room.id (imap (fun i room => Room.with_position (pos i) room) rooms)
  = map Room.id rooms.
Proof.
  revert pos. induction rooms as [|room rest IH]; intros pos; simpl; [reflexivity|].
  f_equal. apply (IH (fun i => pos (S i))).
Qed.

Lemma imap_position_topics (pos : nat -> R * R) (rooms : list Room.t) :
  map Room.topic (imap (fun i room => Room.with_position (pos i) room) rooms)
  = map Room.topic rooms.
Proof.
  revert pos. induction rooms as [|room rest IH]; intros pos; simpl; [reflexivity|].
  f_equal. apply (IH (fun i => pos (S i))).
Qed.


Section Cycle.
Variable rand : nat -> Unit01.
Variable shuffle : nat -> list nat -> list nat.
Variable toFixed2 : R -> string.
Variable show_cycles : Z -> string.
Variable show_nat : nat -> string.
Variable scrambleText : string -> R -> nat -> string * nat.
Variable dimColor : string -> R -> string.
Variable generateRooms : list Observation.t -> R -> nat -> list Room.t * nat.
Variable entityUpdate : list Observation.t -> R -> list Entity.t -> list Entity.t.
Variable generate : Room.t -> nat -> string * nat.
Variable layout : list Room.t -> list Corridor.t -> nat -> (nat -> R * R) * nat.




(** The steps of a cycle that got observations, by name. *)
Lemma cycle_run_steps (w : World.t) (observations : list Observation.t) (now : R)
    (n : nat) :
  observations <> [] ->
  let st := state w in
  let cycles := WorldState.observationCycles st in
  let newRooms := fst (generateRooms observations now n) in
  let n0 := snd (generateRooms observations now n) in
  let decayed :=
    decay_step rand scrambleText dimColor (WorldState.rooms st) (WorldState.artifacts st)
      now n0 in
  let refreshed := PruneEngine.refreshRooms (fst (fst decayed)) newRooms cycles in
  let pruned :=
    PruneEngine.prune rand toFixed2 show_cycles cycles (fst refreshed)
      (WorldState.corridors st) 5 now (snd decayed) in
  let annotated := annotateRooms generate (snd refreshed) (snd pruned) in
  let rooms4 := PruneEngine.kept (fst pruned) ++ fst annotated in
  let tracker1 := entityUpdate observations now (entityTracker w) in
  let wandered := EntityTracker.wander rand rooms4 now tracker1 (snd annotated) in
  let gen :=
    TopologyEngine.generateCorridors shuffle (map (Room.with_connections []) rooms4) 0.4 in
  let pos :=
    fst (layout (TopologyEngine.rooms gen) (TopologyEngine.corridors gen) (snd wandered)) in
  let rooms6 :=
    imap (fun i room => Room.with_position (pos i) room) (TopologyEngine.rooms gen) in
  let newEvents :=
    EventTracker.detect toFixed2 show_nat rooms6 (EntityTracker.toArray (fst wandered))
      (drop (List.length (PruneEngine.kept (fst pruned))) rooms6)
      (PruneEngine.pruned (fst pruned)) (PruneEngine.events (fst pruned)) now in
  exists stats,
    Stats.totalRooms stats = List.length rooms6
    /\ Stats.totalCorridors stats = List.length (TopologyEngine.corridors gen)
    /\ Stats.topics stats = Js.set_of (map Room.topic rooms6)
    /\ fst (cycle_run rand shuffle toFixed2 show_cycles show_nat scrambleText dimColor
              generateRooms entityUpdate generate layout w observations now n)
       = (mk (WorldState.mk 2 (WorldState.createdAt st) (Some now) (cycles + 1)%Z
                rooms6 (TopologyEngine.corridors gen)
                (snd (fst decayed) ++ map inr (PruneEngine.fragments (fst pruned)))
                (EntityTracker.toArray (fst wandered))
                (Some (EventTracker.record (WorldState.events st) newEvents))
                (Some (MemoryEngine.update (WorldState.memory st) (cycles + 1)%Z rooms6 now))
                (Some stats))
            (fst wandered),
          newEvents).
Proof.
  intros Hobs. unfold cycle_run.
  destruct observations as [|o obs]; [contradiction|].
  cbn [List.length Nat.eqb].
  destruct (generateRooms (o :: obs) now n) as [newRooms n0]. cbn [fst snd].
  destruct (decay_step _ _ _ _ _ _ _) as [[rooms1 artifacts1] n1]. cbn [fst snd].
  destruct (PruneEngine.refreshRooms _ _ _) as [rooms2 newRooms2]. cbn [fst snd].
  destruct (PruneEngine.prune _ _ _ _ _ _ _ _ _) as [pruneResult n2]. cbn [fst snd].
  destruct (annotateRooms _ _ _) as [newRooms3 n3]. cbn [fst snd].
  destruct (EntityTracker.wander _ _ _ _ _) as [tracker2 n4]. cbn [fst snd].
  unfold buildTopology.
  destruct (layout _ _ _) as [pos n5]. cbn [fst snd].
  eexists. split; [|split; [|split]]; [| | |reflexivity]; reflexivity.
Qed.



(** After a cycle that got observations no corridor of the state dangles:
    both ends of every corridor are ids of rooms of the state. *)
Theorem cycle_corridors_join_rooms (w : World.t) (observations : list Observation.t)
    (now : R) (n : nat) :
  observations <> [] ->
  let st' := state (cycle rand shuffle toFixed2 show_cycles show_nat scrambleText dimColor
                      generateRooms entityUpdate generate layout w observations now n) in
  Forall (fun c => Corridor.from c ∈ map Room.id (WorldState.rooms st')
                   /\ Corridor.to c ∈ map Room.id (WorldState.rooms st'))
    (WorldState.corridors st').
Proof.
  intros Hobs.
  destruct (cycle_run_steps w observations now n Hobs) as (stats & _ & _ & _ & Heq).
  unfold cycle. rewrite Heq. cbn [fst snd state WorldState.rooms WorldState.corridors].
  apply Forall_forall. intros c Hc.
  rewrite imap_position_ids.
  rewrite (GrowFacts.Forall2_grows_ids _ _
             (TopologyClaims.generateCorridors_grows shuffle _ 0.4)).
  exact (TopologyMore.corridor_ends shuffle _ 0.4 c Hc).
Qed.


(** After a cycle that got observations the event log holds at most 100
    events, and the memory ends with the entry of the new cycle number and
    the number of rooms of the state. *)
Theorem cycle_logs (w : World.t) (observations : list Observation.t) (now : R) (n : nat) :
  observations <> [] ->
  let st' := state (cycle rand shuffle toFixed2 show_cycles show_nat scrambleText dimColor
                      generateRooms entityUpdate generate layout w observations now n) in
  (exists events, WorldState.events st' = Some events /\ (List.length events <= 100)%nat)
  /\ exists memory,
       WorldState.memory st' = Some memory
       /\ last (MemoryEngine.totalRoomHistory memory)
          = Some (WorldState.observationCycles st', List.length (WorldState.rooms st')).
Proof.
  intros Hobs.
  destruct (cycle_run_steps w observations now n Hobs) as (stats & _ & _ & _ & Heq).
  unfold cycle. rewrite Heq.
  cbn [fst snd state WorldState.rooms WorldState.events WorldState.memory
       WorldState.observationCycles].
  split.
  - eexists. split; [reflexivity|]. unfold EventTracker.record.
    destruct (100 <? _)%nat eqn:Hlt.
    + rewrite EventMore.last_n_length. lia.
    + apply Nat.ltb_ge in Hlt. exact Hlt.
  - eexists. split; [reflexivity|]. unfold MemoryEngine.update.
    cbn [MemoryEngine.totalRoomHistory].
    set (mx := if (_ =? 0)%nat then _ else _).
    assert (Hmx : (1 <= mx)%nat).
    { unfold mx. destruct (_ =? 0)%nat eqn:H; [lia|]. apply Nat.eqb_neq in H. lia. }
    destruct (mx <? _)%nat; [apply MemoryMore.last_last_n, Hmx | apply last_snoc].
Qed.
End Cycle.


Lemma cycle_corridors_join_rooms_witness :
  Forall (fun c => Corridor.from c ∈ map Room.id (WorldState.rooms (state first_cycle))
                   /\ Corridor.to c ∈ map Room.id (WorldState.rooms (state first_cycle)))
    (WorldState.corridors (state first_cycle)).
Proof.
  refine (cycle_corridors_join_rooms (fun _ => Samples.half) (fun _ l => l) (fun _ => "")
            (fun _ => "") (fun _ => "") (fun s _ n => (s, n)) (fun c _ => c)
            (fun _ _ n => (Samples.pair_rooms, n)) (fun _ _ es => es)
            (fun _ n => ("", n)) (fun _ _ n => (fun _ => (0, 0), n))
            empty_world one_observation 0 0 _).
  discriminate.
Defined.


Lemma cycle_logs_witness :
  exists events,
    WorldState.events (state first_cycle) = Some events
    /\ (List.length events <= 100)%nat.
Proof.
  refine (proj1 (cycle_logs (fun _ => Samples.half) (fun _ l => l) (fun _ => "")
                   (fun _ => "") (fun _ => "") (fun s _ n => (s, n)) (fun c _ => c)
                   (fun _ _ n => (Samples.pair_rooms, n)) (fun _ _ es => es)
                   (fun _ n => ("", n)) (fun _ _ n => (fun _ => (0, 0), n))
                   empty_world one_observation 0 0 _)).
  discriminate.
Defined.
End CycleMore.

(** ** RoomGenerator *)

Module RoomMore.
Import RoomGenerator.
Local Open Scope R_scope.



Lemma round1_near (x : R) : x - 0.05 < round1 x <= x + 0.05.
Proof.
  unfold round1. pose proof (NumFacts.floor_bounds (x * 10 + 0.5)) as [H1 H2]. lra.
Qed.




(** Virality slows decay: a room starts with score 0 and a half-life of at
    least an hour, it has not decayed at all at the time of its creation,
    and of two rooms made at the same time the more viral one has, at any
    later time, the lower decay. *)
Theorem viral_rooms_decay_slower (room : Room.t) (v1 v2 created now : R) :
  0 <= v1 <= v2 -> created <= now ->
  let r1 := Room.with_entropy (calculateEntropy v1 created) room in
  let r2 := Room.with_entropy (calculateEntropy v2 created) room in
  Room.score r1 = 0
  /\ 3600 <= Entropy.halfLife (Room.entropy r1) <= Entropy.halfLife (Room.entropy r2)
  /\ DecayEngine.decay created r1 = 0
  /\ 0 <= DecayEngine.decay now r2 <= DecayEngine.decay now r1.
Proof.
  intros [Hv1 Hv2] Hnow. cbv zeta. unfold DecayEngine.decay, Room.score.
  cbn [Room.with_entropy Room.entropy calculateEntropy Entropy.score Entropy.halfLife
       Entropy.createdAt].
  set (h1 := 3600 * (1 + v1 * 2)). set (h2 := 3600 * (1 + v2 * 2)).
  assert (Hh1 : 3600 <= h1) by (unfold h1; lra).
  assert (Hh2 : h1 <= h2) by (unfold h1, h2; lra).
  split; [reflexivity|]. split; [lra|]. split.
  - replace (- 0.693 * ((created - created) / 1000) / h1) with 0
      by (field; lra).
    rewrite exp_0. lra.
  - set (el := (now - created) / 1000).
    assert (Hel : 0 <= el) by (unfold el; lra).
    assert (Hinv : / h2 <= / h1) by (apply Rinv_le_contravar; lra).
    assert (Hinv2 : 0 < / h2) by (apply Rinv_0_lt_compat; lra).
    assert (Hle : - 0.693 * el / h1 <= - 0.693 * el / h2) by (unfold Rdiv; nra).
    assert (Hneg : - 0.693 * el / h2 <= 0) by (unfold Rdiv; nra).
    pose proof (DecayFacts.exp_le_mono _ _ Hle) as H1.
    pose proof (DecayFacts.exp_le_mono _ _ Hneg) as H2. rewrite exp_0 in H2.
    lra.
Qed.

Lemma viral_rooms_decay_slower_witness :
  Room.score (Room.with_entropy (calculateEntropy 0 0) Samples.hour_room) = 0.
Proof.
  refine (proj1 (viral_rooms_decay_slower Samples.hour_room 0 2 0 3600000 _ _)); lra.
Defined.
End RoomMore.

(** ** RoomGenerator: [generateRooms] *)

Module GenerateMore.
Import RoomGenerator More.
Local Open Scope R_scope.

Lemma archetype_names (topic : string) :
  List.length (ArchetypeEntry.names (archetype_of topic)) = 5%nat.
Proof.
  unfold archetype_of, ARCHETYPES, archetype_in.
  repeat (destruct (String.eqb _ topic); [reflexivity|]). reflexivity.
Qed.

Lemma insert_viral_elem (x y : Observation.t) (l : list Observation.t) :
  y ∈ insert_viral x l <-> y = x \/ y ∈ l.
Proof.
  induction l as [|z l IH]; simpl.
  - rewrite list_elem_of_singleton. split; [auto|]. intros [H | H]; [exact H | inversion H].
  - destruct (Num.gtb _ _); rewrite !elem_of_cons; [rewrite IH|]; tauto.
Qed.

Lemma sort_viral_elem (y : Observation.t) (l : list Observation.t) :
  y ∈ sort_viral l <-> y ∈ l.
Proof.
  induction l as [|x l IH]; simpl; [reflexivity|].
  rewrite insert_viral_elem, elem_of_cons, IH. reflexivity.
Qed.

Lemma insert_viral_length (x : Observation.t) (l : list Observation.t) :
  List.length (insert_viral x l) = S (List.length l).
Proof.
  induction l as [|z l IH]; simpl; [reflexivity|].
  destruct (Num.gtb _ _); simpl; [rewrite IH|]; reflexivity.
Qed.

Lemma sort_viral_length (l : list Observation.t) :
  List.length (sort_viral l) = List.length l.
Proof.
  induction l as [|x l IH]; simpl; [reflexivity|].
  rewrite insert_viral_length, IH. reflexivity.
Qed.

Lemma ceil_third_bounds (k : nat) : (2 < k)%nat -> (1 <= ceil_third k <= k)%nat.
Proof.
  intros Hk. unfold ceil_third.
  pose proof (Nat.div_mod_eq (k + 2) 3) as Hd.
  pose proof (Nat.mod_upper_bound (k + 2) 3 ltac:(lia)) as Hm.
  lia.
Qed.

Section Oracles.
Variable rand : nat -> Unit01.
Variable generateId : nat -> string.
Variable extractFragments : string -> Fragments.t.

Lemma generated_nil (now : R) (roomCount n : nat) :
  generated generateId now roomCount n [] ([], roomCount, n).
Proof. repeat split; simpl; [constructor | lia | lia]. Qed.

Lemma generated_app (now : R) (roomCount n : nat) (c1 c2 : list Observation.t)
    (r1 r2 : list Room.t) (rc1 n1 rc2 n2 : nat) :
  generated generateId now roomCount n c1 (r1, rc1, n1) ->
  generated generateId now rc1 n1 c2 (r2, rc2, n2) ->
  generated generateId now roomCount n (c1 ++ c2) (r1 ++ r2, rc2, n2).
Proof.
  unfold generated. simpl. intros (H1 & Hid1 & -> & ->) (H2 & Hid2 & -> & ->).
  split; [apply Forall2_app; assumption|].
  rewrite length_app, map_app, Hid1, Hid2, seq_app, map_app.
  repeat split; lia.
Qed.

Lemma generateRoom_made (obs : Observation.t) (now : R) (roomCount n : nat) :
  made_from now obs (fst (fst (generateRoom rand generateId extractFragments obs now
                                 roomCount n))).
Proof.
  unfold made_from, generateRoom. simpl. repeat split.
  set (pool := ArchetypeEntry.names (archetype_of (Observation.topic obs))).
  assert (Hlen : List.length pool = 5%nat) by apply archetype_names.
  assert (Hlt : (Num.random_index (draw (rand n)) (List.length pool) < List.length pool)%nat).
  { apply NumFacts.random_index_lt; [apply (draw_range (rand n)) | lia]. }
  destruct (lookup_lt_is_Some_2 pool _ Hlt) as [name Hname].
  rewrite Hname. simpl. eapply list_elem_of_lookup_2, Hname.
Qed.

Lemma absorb_nearby_frame (nearby : list Observation.t) (room : Room.t) :
  absorb_nearby extractFragments nearby room
  = Room.with_fragments
      (Room.fragments (absorb_nearby extractFragments nearby room)) room.
Proof.
  unfold absorb_nearby. revert room.
  induction nearby as [|near nearby IH]; intros room; simpl.
  - destruct room; reflexivity.
  - rewrite IH. simpl. destruct room; reflexivity.
Qed.

Lemma absorb_nearby_made (now : R) (obs : Observation.t) (nearby : list Observation.t)
    (room : Room.t) :
  made_from now obs room -> made_from now obs (absorb_nearby extractFragments nearby room).
Proof. rewrite absorb_nearby_frame. intros H. exact H. Qed.

Lemma rooms_of_each_generated (group : list Observation.t) (now : R) (roomCount n : nat) :
  generated generateId now roomCount n group
    (rooms_of_each rand generateId extractFragments group now roomCount n).
Proof.
  revert roomCount n. induction group as [|obs group IH]; intros roomCount n.
  - apply generated_nil.
  - cbn [rooms_of_each].
    pose proof (generateRoom_made obs now roomCount n) as Hmade.
    destruct (generateRoom _ _ _ obs now roomCount n) as [[room rc1] n1] eqn:Hroom.
    unfold generateRoom in Hroom. injection Hroom as Hr <- <-.
    specialize (IH (S roomCount) (S n)).
    destruct (rooms_of_each _ _ _ group now (S roomCount) (S n)) as [[rooms rc2] n2].
    apply (generated_app now roomCount n [obs] group [room] rooms (S roomCount) (S n));
      [|exact IH].
    unfold generated. simpl. repeat split; try lia.
    + constructor; [exact Hmade | constructor].
    + rewrite <- Hr. reflexivity.
Qed.

Lemma rooms_of_seeds_generated (seeds nearby : list Observation.t) (now : R)
    (roomCount n : nat) :
  generated generateId now roomCount n seeds
    (rooms_of_seeds rand generateId extractFragments seeds nearby now roomCount n).
Proof.
  revert roomCount n. induction seeds as [|obs seeds IH]; intros roomCount n.
  - apply generated_nil.
  - cbn [rooms_of_seeds].
    pose proof (generateRoom_made obs now roomCount n) as Hmade.
    destruct (generateRoom _ _ _ obs now roomCount n) as [[room rc1] n1] eqn:Hroom.
    unfold generateRoom in Hroom. injection Hroom as Hr <- <-.
    specialize (IH (S roomCount) (S n)).
    destruct (rooms_of_seeds _ _ _ seeds nearby now (S roomCount) (S n))
      as [[rooms rc2] n2].
    apply (generated_app now roomCount n [obs] seeds
             [absorb_nearby extractFragments nearby room] rooms (S roomCount) (S n));
      [|exact IH].
    unfold generated. simpl. repeat split; try lia.
    + constructor; [apply absorb_nearby_made; exact Hmade | constructor].
    + rewrite absorb_nearby_frame. simpl. rewrite <- Hr. reflexivity.
Qed.

(** One group gives rooms for some of its observations: for all of them
    when they are at most two, for the most viral third otherwise. *)
Lemma rooms_of_group_generated (group : list Observation.t) (now : R) (roomCount n : nat) :
  exists chosen,
    generated generateId now roomCount n chosen
      (rooms_of_group rand generateId extractFragments group now roomCount n)
    /\ chosen ⊆ group
    /\ (List.length chosen <= List.length group)%nat
    /\ (group <> [] -> chosen <> []).
Proof.
  unfold rooms_of_group. destruct (_ <=? 2)%nat eqn:Hlen.
  - exists group. split; [apply rooms_of_each_generated|]. auto.
  - apply Nat.leb_gt in Hlen.
    destruct (ceil_third_bounds _ Hlen) as [Hc1 Hc2].
    exists (take (ceil_third (List.length group)) (sort_viral group)).
    split; [apply rooms_of_seeds_generated|]. split; [|split].
    + intros x Hx. apply sort_viral_elem. eapply (subseteq_take _ _), Hx.
    + rewrite length_take, sort_viral_length. lia.
    + intros _ Hnil. apply (f_equal (@List.length _)) in Hnil.
      rewrite length_take, sort_viral_length in Hnil. simpl in Hnil. lia.
Qed.

Lemma rooms_of_clusters_generated (clusters : list (string * list Observation.t))
    (now : R) (roomCount n : nat) :
  exists chosen,
    generated generateId now roomCount n chosen
      (rooms_of_clusters rand generateId extractFragments clusters now roomCount n)
    /\ (forall obs, obs ∈ chosen -> exists tg, tg ∈ clusters /\ obs ∈ snd tg)
    /\ (List.length chosen <= list_sum (map (fun tg => List.length (snd tg)) clusters))%nat
    /\ (forall tg, tg ∈ clusters -> snd tg <> [] -> exists obs, obs ∈ chosen /\ obs ∈ snd tg).
Proof.
  revert roomCount n. induction clusters as [|[t group] clusters IH]; intros roomCount n.
  - exists []. split; [apply generated_nil|]. split; [|split].
    + intros obs Hobs. inversion Hobs.
    + simpl. lia.
    + intros tg Htg. inversion Htg.
  - cbn [rooms_of_clusters].
    destruct (rooms_of_group_generated group now roomCount n)
      as (c1 & Hg1 & Hsub1 & Hlen1 & Hne1).
    destruct (rooms_of_group _ _ _ group now roomCount n) as [[r1 rc1] n1].
    destruct (IH rc1 n1) as (c2 & Hg2 & Hsub2 & Hlen2 & Hne2).
    destruct (rooms_of_clusters _ _ _ clusters now rc1 n1) as [[r2 rc2] n2].
    exists (c1 ++ c2). split; [eapply generated_app; eauto|]. split; [|split].
    + intros obs Hobs. apply elem_of_app in Hobs as [Hobs | Hobs].
      * exists (t, group). split; [left | apply Hsub1, Hobs].
      * destruct (Hsub2 obs Hobs) as (tg & Htg & Hin). exists tg. split; [right|]; auto.
    + rewrite length_app. simpl. lia.
    + intros tg Htg Hnil. apply elem_of_cons in Htg as [-> | Htg].
      * simpl in Hnil. destruct c1 as [|obs c1]; [destruct (Hne1 Hnil eq_refl)|].
        exists obs. split; [left | apply Hsub1; left].
      * destruct (Hne2 tg Htg Hnil) as (obs & Hobs & Hin).
        exists obs. split; [apply elem_of_app; right|]; auto.
Qed.

(** *** The clusters *)

Lemma cluster_push_spec (obs : Observation.t) (clusters : list (string * list Observation.t)) :
  (forall tg, tg ∈ cluster_push obs clusters ->
     (tg ∈ clusters)
     \/ (fst tg = Observation.topic obs
         /\ exists g, snd tg = g ++ [obs] /\ (g = [] \/ (fst tg, g) ∈ clusters)))
  /\ (forall tg, tg ∈ clusters ->
        exists g', (fst tg, snd tg ++ g') ∈ cluster_push obs clusters)
  /\ (exists tg, tg ∈ cluster_push obs clusters
                 /\ fst tg = Observation.topic obs /\ obs ∈ snd tg)
  /\ list_sum (map (fun tg => List.length (snd tg)) (cluster_push obs clusters))
     = S (list_sum (map (fun tg => List.length (snd tg)) clusters)).
Proof.
  induction clusters as [|[t g] clusters (IH1 & IH2 & IH3 & IH4)]; simpl.
  - split; [|split; [|split]].
    + intros tg Htg. apply list_elem_of_singleton in Htg. subst tg. right. simpl.
      split; [reflexivity|]. exists []. auto.
    + intros tg Htg. inversion Htg.
    + eexists. split; [left|]. simpl. split; [reflexivity | left].
    + reflexivity.
  - destruct (String.eqb_spec t (Observation.topic obs)) as [-> | Hne].
    + split; [|split; [|split]].
      * intros tg Htg. apply elem_of_cons in Htg as [-> | Htg]; [|left; right; exact Htg].
        right. simpl. split; [reflexivity|]. exists g. split; [reflexivity|]. right. left.
      * intros tg Htg. apply elem_of_cons in Htg as [-> | Htg].
        -- exists [obs]. left.
        -- exists []. rewrite app_nil_r. right. destruct tg; exact Htg.
      * eexists. split; [left|]. simpl. split; [reflexivity|].
        apply elem_of_app. right. left.
      * simpl. rewrite length_app. simpl. lia.
    + split; [|split; [|split]].
      * intros tg Htg. apply elem_of_cons in Htg as [-> | Htg]; [left; left|].
        destruct (IH1 tg Htg) as [Hin | (Ht & g0 & Hg0 & Hor)]; [left; right; exact Hin|].
        right. split; [exact Ht|]. exists g0. split; [exact Hg0|].
        destruct Hor as [-> | Hin]; [left; reflexivity | right; right; exact Hin].
      * intros tg Htg. apply elem_of_cons in Htg as [-> | Htg].
        -- exists []. rewrite app_nil_r. left.
        -- destruct (IH2 tg Htg) as [g' Hg']. exists g'. right. exact Hg'.
      * destruct IH3 as (tg & Htg & Ht & Hin). exists tg. split; [right; exact Htg|]. auto.
      * simpl. rewrite IH4. lia.
Qed.

(** Every cluster holds observations of its topic, is not empty, and holds
    observations of the input only; every observation is in a cluster; and
    the clusters hold as many observations as the input. *)
Lemma clusters_from_spec (observations : list Observation.t)
    (clusters : list (string * list Observation.t)) :
  let result := fold_left (fun clusters obs => cluster_push obs clusters) observations
                  clusters in
  (forall tg, tg ∈ clusters ->
     snd tg <> [] /\ Forall (fun obs => Observation.topic obs = fst tg) (snd tg)) ->
  (forall tg, tg ∈ result ->
     snd tg <> [] /\ Forall (fun obs => Observation.topic obs = fst tg) (snd tg))
  /\ (forall tg obs, tg ∈ result -> obs ∈ snd tg ->
        obs ∈ observations \/ exists tg', tg' ∈ clusters /\ obs ∈ snd tg')
  /\ (forall obs, obs ∈ observations -> exists tg, tg ∈ result /\ obs ∈ snd tg)
  /\ (forall tg obs, tg ∈ clusters -> obs ∈ snd tg ->
        exists tg', tg' ∈ result /\ obs ∈ snd tg')
  /\ list_sum (map (fun tg => List.length (snd tg)) result)
     = (List.length observations
        + list_sum (map (fun tg => List.length (snd tg)) clusters))%nat.
Proof.
  revert clusters. induction observations as [|o observations IH]; intros clusters; simpl.
  - intros Hc. split; [exact Hc|]. split; [|split; [|split]].
    + intros tg obs Htg Hobs. right. eauto.
    + intros obs Hobs. inversion Hobs.
    + intros tg obs Htg Hobs. eauto.
    + reflexivity.
  - intros Hc.
    destruct (cluster_push_spec o clusters) as (P1 & P2 & P3 & P4).
    assert (Hc' : forall tg, tg ∈ cluster_push o clusters ->
              snd tg <> [] /\ Forall (fun obs => Observation.topic obs = fst tg) (snd tg)).
    { intros tg Htg. destruct (P1 tg Htg) as [Hin | (Ht & g & Hg & Hor)]; [auto|].
      rewrite Hg. split; [destruct g; discriminate|].
      apply Forall_app. split; [|constructor; [congruence | constructor]].
      destruct Hor as [-> | Hin]; [constructor|]. exact (proj2 (Hc _ Hin)). }
    destruct (IH (cluster_push o clusters) Hc') as (Q1 & Q2 & Q3 & Q4 & Q5).
    split; [exact Q1|]. split; [|split; [|split]].
    + intros tg obs Htg Hobs.
      destruct (Q2 tg obs Htg Hobs) as [Hin | (tg' & Htg' & Hobs')]; [left; right; exact Hin|].
      destruct (P1 tg' Htg') as [Hin | (Ht & g & Hg & Hor)]; [right; eauto|].
      rewrite Hg in Hobs'. apply elem_of_app in Hobs' as [Hobs' | Hobs'].
      * destruct Hor as [-> | Hin]; [inversion Hobs'|]. right. eexists; split; [exact Hin|].
        exact Hobs'.
      * apply list_elem_of_singleton in Hobs'. subst. left. left.
    + intros obs Hobs. apply elem_of_cons in Hobs as [-> | Hobs]; [|apply Q3, Hobs].
      destruct P3 as (tg & Htg & _ & Hin). apply (Q4 tg o Htg Hin).
    + intros tg obs Htg Hobs. destruct (P2 tg Htg) as [g' Hg'].
      apply (Q4 _ obs Hg'). simpl. apply elem_of_app. left. exact Hobs.
    + rewrite Q5, P4. lia.
Qed.

(** [generateRooms] makes its rooms from observations of the input, at
    least one for every topic and at most one for every observation; the
    rooms are fresh, with the entropy and the dimensions that the
    observation calls for and a name of the archetype of its topic; their
    ids are the next ids that [generateId] gives, in order; and the room
    count and the count of draws go up by the number of rooms.  From
    observations as the observer makes them, every room starts at score 0
    with a half-life of at least an hour, a sentiment in [-1, 1] and one of
    the observer's topics.  (The clusters are kept in an object, which for
    the topics of the observer is the map of the model.) *)
Theorem generateRooms_from_observations (observations : list Observation.t) (now : R)
    (roomCount n : nat) :
  Forall observed observations ->
  let res := generateRooms rand generateId extractFragments observations now roomCount n in
  (exists chosen,
     generated generateId now roomCount n chosen res /\ chosen ⊆ observations)
  /\ (forall t, t ∈ map Room.topic (fst (fst res))
                <-> t ∈ map Observation.topic observations)
  /\ (List.length (fst (fst res)) <= List.length observations)%nat
  /\ Forall (fun room => Room.score room = 0
                         /\ 3600 <= Entropy.halfLife (Room.entropy room)
                         /\ -1 <= Room.sentiment room <= 1
                         /\ Room.topic room ∈ topic_names)
       (fst (fst res)).
Proof.
  intros Hobserved. cbv zeta. unfold generateRooms.
  destruct (clusters_from_spec observations []) as (C1 & C2 & C3 & _ & C5).
  { intros tg Htg. inversion Htg. }
  cbv zeta in C1, C2, C3, C5. fold (clusters_of observations) in C1, C2, C3, C5.
  simpl in C5. rewrite Nat.add_0_r in C5.
  destruct (rooms_of_clusters_generated (clusters_of observations) now roomCount n)
    as (chosen & Hgen & Hsub & Hlen & Hne).
  assert (Hin : chosen ⊆ observations).
  { intros obs Hobs. destruct (Hsub obs Hobs) as (tg & Htg & Hobs').
    destruct (C2 tg obs Htg Hobs') as [H | (tg' & Htg' & _)]; [exact H | inversion Htg']. }
  pose proof Hgen as (Hmade & _ & _ & _).
  split; [exists chosen; auto|]. split.
  - intros t. split.
    + intros Ht. apply list_elem_of_fmap in Ht as (room & -> & Hroom).
      apply list_elem_of_lookup in Hroom as [i Hi].
      destruct (Forall2_lookup_r _ _ _ _ _ Hmade Hi) as (obs & Hobs & Hm).
      rewrite (proj1 Hm). apply list_elem_of_fmap. exists obs.
      split; [reflexivity|]. apply Hin. eapply list_elem_of_lookup_2, Hobs.
    + intros Ht. apply list_elem_of_fmap in Ht as (obs & -> & Hobs).
      destruct (C3 obs Hobs) as (tg & Htg & Hobs').
      destruct (C1 tg Htg) as [Hnil Htopic].
      destruct (Hne tg Htg Hnil) as (obs' & Hch & Hobs'').
      rewrite Forall_forall in Htopic.
      rewrite (Htopic _ Hobs'), <- (Htopic _ Hobs'').
      apply list_elem_of_lookup in Hch as [i Hi].
      destruct (Forall2_lookup_l _ _ _ _ _ Hmade Hi) as (room & Hroom & Hm).
      rewrite <- (proj1 Hm). apply list_elem_of_fmap. exists room.
      split; [reflexivity|]. eapply list_elem_of_lookup_2, Hroom.
  - split; [rewrite <- (Forall2_length _ _ _ Hmade), <- C5; exact Hlen|].
    apply Forall_forall. intros room Hroom.
    apply list_elem_of_lookup in Hroom as [i Hi].
    destruct (Forall2_lookup_r _ _ _ _ _ Hmade Hi) as (obs & Hobs & Hm).
    destruct Hm as (Ht & Hs & Hv & He & _).
    rewrite Forall_forall in Hobserved.
    destruct (Hobserved obs (Hin _ (list_elem_of_lookup_2 _ _ _ Hobs))) as (Hsr & Hvr & Htr).
    unfold Room.score. rewrite He, Hs, Ht. simpl. repeat split; auto; lra.
Qed.
End Oracles.

Lemma generateRooms_from_observations_witness :
  (List.length
     (fst (fst (generateRooms (fun _ => Samples.half)
                  (fun k => "room_0000000" +:+ String (ascii_of_nat (97 + k)) EmptyString)
                  (fun text => Fragments.mk [text] [] text) sample_observations 0 0 0)))
   <= List.length sample_observations)%nat.
Proof.
  refine (proj1 (proj2 (proj2 (generateRooms_from_observations (fun _ => Samples.half)
                          (fun k => "room_0000000" +:+ String (ascii_of_nat (97 + k))
                                                         EmptyString)
                          (fun text => Fragments.mk [text] [] text)
                          sample_observations 0 0 0 _)))).
  unfold sample_observations, observed, topic_names.
  repeat (constructor; [simpl; repeat split; try lra; set_solver|]). constructor.
Defined.
End GenerateMore.

(** ** DecayEngine: [scrambleText] *)

Module ScrambleMore.
Import DecayText More.
Local Open Scope R_scope.

Section Random.
Variable rand : nat -> Unit01.

Lemma scramble_char_glitched (chance : R) (c : N) (n : nat) :
  glitched c (fst (scramble_char rand chance c n))
  /\ (n + (if N.eqb c space then 0 else 1)
      <= snd (scramble_char rand chance c n)
      <= n + (if N.eqb c space then 0 else 2))%nat.
Proof.
  unfold scramble_char, glitched.
  destruct (N.eqb_spec c space) as [-> | Hne]; cbn [fst snd].
  - split; [|lia]. split; [auto|]. split; [intros H; contradiction | auto].
  - destruct (Num.ltb _ _); cbn [fst snd].
    2:{ split; [|lia]. split; [intros H; contradiction|].
        split; [auto | intros ->; contradiction]. }
    assert (Hlt : (Num.random_index (draw (rand (S n))) (List.length glitchChars)
                   < List.length glitchChars)%nat).
    { apply NumFacts.random_index_lt; [apply (draw_range (rand (S n))) | simpl; lia]. }
    destruct (lookup_lt_is_Some_2 glitchChars _ Hlt) as [g Hg].
    rewrite Hg. change (default c (Some g)) with g.
    assert (Hin : g ∈ glitchChars) by (eapply list_elem_of_lookup_2, Hg).
    split; [|lia]. split; [intros H; contradiction|]. split.
    + intros _. right. exact Hin.
    + intros ->. exfalso. revert Hin. unfold glitchChars, space.
      rewrite !elem_of_cons. intros H.
      repeat (destruct H as [H | H]; [discriminate H|]). inversion H.
Qed.

Lemma scramble_chars_glitched (chance : R) (chars : list N) (n : nat) :
  Forall2 glitched chars (fst (scramble_chars rand chance chars n))
  /\ (n + List.length (inked chars)
      <= snd (scramble_chars rand chance chars n)
      <= n + 2 * List.length (inked chars))%nat.
Proof.
  revert n. induction chars as [|c chars IH]; intros n.
  - simpl. split; [constructor | lia].
  - cbn [scramble_chars].
    destruct (scramble_char_glitched chance c n) as [Hc Hn].
    destruct (scramble_char rand chance c n) as [c' n1].
    destruct (IH n1) as [Hrest Hn'].
    destruct (scramble_chars rand chance chars n1) as [rest' n2].
    simpl in *. split; [constructor; assumption|].
    unfold inked in *. simpl.
    destruct (N.eqb c space); simpl; lia.
Qed.

(** [scrambleText] keeps the shape of a text: the result has the same
    length, a space stays a space and nothing else becomes one, and every
    other code unit either stays or becomes a glitch character.  Below an
    entropy of 0.3 the text is returned as it is and nothing is drawn; from
    0.3 on, one or two random numbers are drawn for every code unit that is
    no space. *)
Theorem scramble_keeps_shape (text : list N) (entropy : R) (n : nat) :
  let res := scrambleText rand text entropy n in
  Forall2 glitched text (fst res)
  /\ (entropy < 0.3 -> res = (text, n))
  /\ (0.3 <= entropy ->
      (n + List.length (inked text) <= snd res <= n + 2 * List.length (inked text))%nat).
Proof.
  cbv zeta. unfold scrambleText.
  destruct (Num.ltb entropy 0.3) eqn:Hlt.
  - apply NumFacts.ltb_true in Hlt. simpl. split; [|split; [reflexivity | lra]].
    induction text; constructor; auto. unfold glitched. auto.
  - assert (Hge : 0.3 <= entropy).
    { unfold Num.ltb in Hlt. destruct (Rlt_dec entropy 0.3); [discriminate | lra]. }
    destruct (scramble_chars_glitched (entropy * 0.6) text n) as [H1 H2].
    split; [exact H1|]. split; [lra | intros _; exact H2].
Qed.
End Random.
End ScrambleMore.

(** ** TwitterObserver *)

Module ObserverMore.
Import TwitterObserver More.
Local Open Scope R_scope.

Lemma fold_sentiment (words : list string) (score matches : Z) :
  fold_left sentiment_step words (score, matches)
  = ((score + Z.of_nat (hits positive words) - Z.of_nat (hits negative words))%Z,
     (matches + Z.of_nat (hits positive words) + Z.of_nat (hits negative words))%Z).
Proof.
  revert score matches. unfold hits.
  induction words as [|w words IH]; intros score matches.
  - simpl. f_equal; lia.
  - cbn [fold_left List.filter].
    destruct (sentiment_step (score, matches) w) as [score' matches'] eqn:Hstep.
    rewrite IH. unfold sentiment_step in Hstep.
    destruct (some_included positive w); destruct (some_included negative w);
      injection Hstep as <- <-; cbn [List.length]; f_equal; lia.
Qed.

Lemma mean_in_range (p n : nat) :
  (0 < p + n)%nat -> -1 <= (INR p - INR n) / (INR p + INR n) <= 1.
Proof.
  intros Hpos.
  pose proof (pos_INR p) as Hp. pose proof (pos_INR n) as Hn.
  assert (Hsum : 0 < INR p + INR n).
  { rewrite <- plus_INR. apply lt_0_INR. exact Hpos. }
  split.
  - apply (Rmult_le_reg_r (INR p + INR n)); [exact Hsum|].
    unfold Rdiv. rewrite Rmult_assoc, Rinv_l by lra. lra.
  - apply (Rmult_le_reg_r (INR p + INR n)); [exact Hsum|].
    unfold Rdiv. rewrite Rmult_assoc, Rinv_l by lra. lra.
Qed.

Section Text.
Variable toLowerCase : string -> string.
Variable words_of : string -> list string.
Variable isoNow : string.

Lemma analyzeSentiment_cases (text : string) :
  let p := hits positive (words_of text) in
  let n := hits negative (words_of text) in
  ((p + n = 0)%nat /\ analyzeSentiment words_of text = 0)
  \/ ((0 < p + n)%nat
      /\ analyzeSentiment words_of text = (INR p - INR n) / (INR p + INR n)
      /\ -1 <= (INR p - INR n) / (INR p + INR n) <= 1).
Proof.
  cbv zeta. unfold analyzeSentiment. rewrite fold_sentiment.
  set (p := hits positive (words_of text)). set (n := hits negative (words_of text)).
  destruct (0 <? 0 + Z.of_nat p + Z.of_nat n)%Z eqn:Hm.
  - apply Z.ltb_lt in Hm. assert (Hpos : (0 < p + n)%nat) by lia.
    replace (IZR (0 + Z.of_nat p - Z.of_nat n)) with (INR p - INR n)
      by (rewrite minus_IZR, plus_IZR, <- !INR_IZR_INZ; simpl; lra).
    replace (IZR (0 + Z.of_nat p + Z.of_nat n)) with (INR p + INR n)
      by (rewrite !plus_IZR, <- !INR_IZR_INZ; simpl; lra).
    pose proof (mean_in_range p n Hpos) as [Hlo Hhi].
    rewrite Rmin_right by exact Hhi. rewrite Rmax_right by exact Hlo.
    right. split; [exact Hpos|]. split; [reflexivity | split; assumption].
  - apply Z.ltb_ge in Hm. left. split; [lia | reflexivity].
Qed.

Lemma analyzeSentiment_range (text : string) : -1 <= analyzeSentiment words_of text <= 1.
Proof.
  destruct (analyzeSentiment_cases text) as [[_ ->] | (_ & -> & H)]; [lra | exact H].
Qed.

(** The sentiment is the mean of +1 for every word that holds a positive
    entry and -1 for every word that holds a negative one (a word can do
    both), and 0 when no word holds any.  It always lies in [-1, 1], so the
    clamp of the source never changes the mean. *)
Theorem sentiment_is_mean_in_range (text : string) :
  let p := hits positive (words_of text) in
  let n := hits negative (words_of text) in
  -1 <= analyzeSentiment words_of text <= 1
  /\ ((p + n = 0)%nat -> analyzeSentiment words_of text = 0)
  /\ ((0 < p + n)%nat ->
      analyzeSentiment words_of text = (INR p - INR n) / (INR p + INR n)).
Proof.
  cbv zeta. split; [apply analyzeSentiment_range|].
  destruct (analyzeSentiment_cases text) as [[H0 Heq] | (Hpos & Heq & _)].
  - split; [intros _; exact Heq | intros H; cbv zeta in H0; lia].
  - split; [intros H; cbv zeta in Hpos; lia | intros _; exact Heq].
Qed.

Lemma topic_scores_nonempty (lower : string) : topic_scores lower <> [].
Proof. unfold topic_scores. intros H. apply map_eq_nil in H. discriminate H. Qed.

Lemma sort_by_count_head (l : list (string * nat)) :
  l <> [] ->
  exists before best after rest,
    l = before ++ best :: after
    /\ sort_by_count l = best :: rest
    /\ Forall (fun ts => (snd ts < snd best)%nat) before
    /\ Forall (fun ts => (snd ts <= snd best)%nat) after.
Proof.
  induction l as [|y l IH]; intros Hne; [contradiction|].
  destruct l as [|z l].
  - exists [], y, [], []. repeat split; constructor.
  - destruct (IH ltac:(discriminate)) as (before & best & after & rest & Hl & Hs & Hb & Ha).
    change (sort_by_count (y :: z :: l)) with (insert_by_count y (sort_by_count (z :: l))).
    rewrite Hs, Hl. simpl.
    destruct (snd y <? snd best)%nat eqn:Hlt.
    + apply Nat.ltb_lt in Hlt.
      exists (y :: before), best, after, (insert_by_count y rest).
      repeat split; [constructor; assumption | exact Ha].
    + apply Nat.ltb_ge in Hlt.
      exists [], y, (before ++ best :: after), (best :: rest).
      repeat split; [constructor|].
      apply Forall_app. split.
      * eapply Forall_impl; [exact Hb|]. intros ts Hts. simpl in Hts. lia.
      * constructor; [exact Hlt|].
        eapply Forall_impl; [exact Ha|]. intros ts Hts. simpl in Hts. lia.
Qed.

(** [classifyTopic] answers "liminal" exactly when no keyword of any topic
    occurs in the lowered text; otherwise it answers the first topic of the
    table among those with the most keywords in the text. *)
Theorem classifyTopic_first_best (text : string) :
  let scores := topic_scores (toLowerCase text) in
  (Forall (fun ts => snd ts = 0%nat) scores -> classifyTopic toLowerCase text = "liminal")
  /\ (Exists (fun ts => (0 < snd ts)%nat) scores ->
      exists before count after,
        scores = before ++ (classifyTopic toLowerCase text, count) :: after
        /\ (0 < count)%nat
        /\ Forall (fun ts => (snd ts < count)%nat) before
        /\ Forall (fun ts => (snd ts <= count)%nat) after).
Proof.
  cbv zeta. unfold classifyTopic.
  set (scores := topic_scores (toLowerCase text)).
  assert (Hne : scores <> []) by apply topic_scores_nonempty.
  destruct (sort_by_count_head scores Hne)
    as (before & [t c] & after & rest & Hl & Hs & Hb & Ha).
  rewrite Hs. cbn [fst snd]. split.
  - intros Hall. rewrite Hl in Hall. apply Forall_app in Hall as [_ Hall].
    apply Forall_cons_1 in Hall as [Hc _]. simpl in Hc. subst c. reflexivity.
  - intros Hex. assert (Hc : (0 < c)%nat).
    { rewrite Hl in Hex. apply Exists_exists in Hex as ([t' c'] & Hin & Hpos).
      simpl in Hpos. rewrite Forall_forall in Hb, Ha.
      apply elem_of_app in Hin as [Hin | Hin].
      - specialize (Hb _ Hin). simpl in Hb. lia.
      - apply elem_of_cons in Hin as [[= <- <-] | Hin]; [exact Hpos|].
        specialize (Ha _ Hin). simpl in Ha. lia. }
    rewrite (proj2 (Nat.ltb_lt 0 c) Hc).
    exists before, c, after. auto.
Qed.

Lemma classifyTopic_named (text : string) : classifyTopic toLowerCase text ∈ topic_names.
Proof.
  unfold classifyTopic, topic_names.
  set (scores := topic_scores (toLowerCase text)).
  assert (Hne : scores <> []) by apply topic_scores_nonempty.
  destruct (sort_by_count_head scores Hne)
    as (before & [t c] & after & rest & Hl & Hs & _).
  rewrite Hs. cbn [fst snd]. apply elem_of_app.
  destruct (0 <? c)%nat; [left | right; left].
  assert (Hin : (t, c) ∈ scores) by (rewrite Hl; apply elem_of_app; right; left).
  unfold scores, topic_scores in Hin.
  apply list_elem_of_fmap in Hin as (tk & [= -> _] & Htk).
  apply list_elem_of_fmap. exists tk. auto.
Qed.

Lemma log10_nonneg (x : R) : 1 <= x -> 0 <= log10 x.
Proof.
  intros Hx. unfold log10.
  assert (H10 : 0 < ln 10).
  { rewrite <- ln_1. apply ln_increasing; lra. }
  assert (Hln : 0 <= ln x).
  { destruct Hx as [Hlt | <-]; [|rewrite ln_1; lra].
    rewrite <- ln_1. left. apply ln_increasing; lra. }
  apply Rmult_le_pos; [exact Hln | left; apply Rinv_0_lt_compat; exact H10].
Qed.

(** Every tweet becomes one observation with the id of the tweet, a
    sentiment in [-1, 1], a virality that is not negative and one of the
    seven topics for which [rooms.js] has an archetype. *)
Theorem observations_well_formed (tweets : list Tweet.t) :
  map Observation.id (processObservations toLowerCase words_of isoNow tweets)
    = map Tweet.id tweets
  /\ Forall observed (processObservations toLowerCase words_of isoNow tweets).
Proof.
  unfold processObservations. split.
  - rewrite map_map. reflexivity.
  - apply Forall_forall. intros o Ho.
    apply list_elem_of_fmap in Ho as (tweet & -> & _).
    unfold observed, processObservation.
    cbn [Observation.sentiment Observation.virality Observation.topic].
    split; [apply analyzeSentiment_range|].
    split; [|apply classifyTopic_named].
    apply log10_nonneg.
    pose proof (pos_INR (default 0%nat (Metrics.retweet_count
      (default (Metrics.mk None None None) (Tweet.public_metrics tweet))))).
    pose proof (pos_INR (default 0%nat (Metrics.like_count
      (default (Metrics.mk None None None) (Tweet.public_metrics tweet))))).
    lra.
Qed.
End Text.
End ObserverMore.

(** ** EntityTracker: [update] *)

Module EntityMore.
Import EntityUpdate More.
Local Open Scope R_scope.

Lemma push_context_length (cs : list string) (ctx : string) :
  (List.length cs <= 10)%nat -> (List.length (push_context cs ctx) <= 10)%nat.
Proof.
  intros H. unfold push_context. destruct (decide _); [exact H|].
  destruct (10 <? _)%nat eqn:Hlt.
  - destruct cs as [|c cs]; simpl in *; [lia|]. rewrite length_app. simpl. lia.
  - apply Nat.ltb_ge in Hlt. exact Hlt.
Qed.

Lemma fold_push_context_length (ctxs cs : list string) :
  (List.length cs <= 10)%nat ->
  (List.length (fold_left push_context ctxs cs) <= 10)%nat.
Proof.
  revert cs. induction ctxs as [|ctx ctxs IH]; intros cs H; simpl; [exact H|].
  apply IH, push_context_length, H.
Qed.

Lemma seen_again_within (now : R) (data : Mention.t) (e : Entity.t) :
  entity_within e -> entity_within (seen_again now data e).
Proof.
  intros [[H0 H1] Hc]. split; simpl.
  - split; [apply Rmin_glb; lra | apply Rmin_l].
  - apply fold_push_context_length, Hc.
Qed.

Lemma created_within (now : R) (eid : string) (data : Mention.t) :
  entity_within (created now eid data) /\ 0.3 <= Entity.strength (created now eid data).
Proof.
  unfold entity_within. simpl.
  pose proof (pos_INR (Mention.count data)) as Hc.
  assert (H0 : 0 <= Rmin 0.5 (INR (Mention.count data) * 0.05)) by (apply Rmin_glb; lra).
  pose proof (Rmin_l 0.5 (INR (Mention.count data) * 0.05)) as H1.
  split; [split; [lra|] | lra].
  rewrite length_take. lia.
Qed.

Lemma alter_first_Forall (P : Entity.t -> Prop) (eid : string) (f : Entity.t -> Entity.t)
    (l : list Entity.t) :
  (forall e, P e -> P (f e)) -> Forall P l -> Forall P (alter_first eid f l).
Proof.
  intros Hf. induction 1 as [|e l He Hl IH]; simpl; [constructor|].
  destruct (String.eqb _ _); constructor; auto.
Qed.

Lemma alter_first_Forall2 (R : Entity.t -> Entity.t -> Prop) (eid : string)
    (f : Entity.t -> Entity.t) (l0 l : list Entity.t) :
  (forall e0 e, R e0 e -> R e0 (f e)) -> Forall2 R l0 l -> Forall2 R l0 (alter_first eid f l).
Proof.
  intros Hf. induction 1 as [|e0 e l0 l He Hl IH]; simpl; [constructor|].
  destruct (String.eqb _ _); constructor; auto.
Qed.

Lemma alter_first_app (eid : string) (f : Entity.t -> Entity.t) (l1 l2 : list Entity.t) :
  alter_first eid f (l1 ++ l2)
  = if has eid l1 then alter_first eid f l1 ++ l2 else l1 ++ alter_first eid f l2.
Proof.
  induction l1 as [|e l1 IH]; simpl; [reflexivity|].
  unfold has in *. simpl.
  destruct (String.eqb (Entity.id e) eid); simpl; [reflexivity|].
  rewrite IH. destruct (existsb _ l1); reflexivity.
Qed.

Lemma alter_first_ids (eid : string) (f : Entity.t -> Entity.t) (l : list Entity.t) :
  (forall e, Entity.id (f e) = Entity.id e) ->
  map Entity.id (alter_first eid f l) = map Entity.id l.
Proof.
  intros Hf. induction l as [|e l IH]; simpl; [reflexivity|].
  destruct (String.eqb _ _); simpl; [rewrite Hf|rewrite IH]; reflexivity.
Qed.

Lemma has_elem (eid : string) (l : list Entity.t) :
  has eid l = true <-> eid ∈ map Entity.id l.
Proof.
  unfold has. rewrite existsb_exists. split.
  - intros (e & Hin & Heq). apply String.eqb_eq in Heq. subst eid.
    apply list_elem_of_fmap. exists e. split; [reflexivity | apply list_elem_of_In, Hin].
  - intros Hin. apply list_elem_of_fmap in Hin as (e & -> & Hin).
    exists e. split; [apply list_elem_of_In, Hin | apply String.eqb_refl].
Qed.

Section Oracles.
Variable toLowerCase : string -> string.
Variable sanitize : string -> string.

Lemma decay_unseen_within (mentions : list (string * Mention.t)) (e : Entity.t) :
  entity_within e -> entity_within (decay_unseen toLowerCase mentions e).
Proof.
  intros [[H0 H1] Hc]. unfold decay_unseen. destruct (_ || _); [exact (conj (conj H0 H1) Hc)|].
  split; simpl; [|exact Hc].
  split; [apply Rmax_l | apply Rmax_lub; lra].
Qed.

(** [update] keeps every inhabitant within its bounds: when the strengths
    of the tracked entities lie in [0, 1] and none has more than ten recent
    contexts, the same holds after the call, for the old entities and for
    the new ones. *)
Theorem update_keeps_bounds (mentions : list (string * Mention.t)) (now : R)
    (minAppearances : nat) (entities : list Entity.t) :
  Forall entity_within entities ->
  Forall entity_within
    (fst (update toLowerCase sanitize mentions now minAppearances entities)).
Proof.
  intros H. unfold update. cbn [fst].
  assert (Hfold : Forall entity_within
            (fst (fold_left (mention_step sanitize now minAppearances) mentions
                    (entities, [])))).
  { generalize (@nil string). revert entities H.
    induction mentions as [|kd mentions IH]; intros entities H news; simpl; [exact H|].
    unfold mention_step at 2. cbn [fst snd].
    destruct (skipped _ _ _); [apply IH, H|].
    destruct (has _ entities); apply IH.
    - apply alter_first_Forall; [apply seen_again_within | exact H].
    - apply Forall_app. split; [exact H|].
      constructor; [apply created_within | constructor]. }
  apply Forall_forall. intros e He.
  apply list_elem_of_In, List.filter_In in He as [He _].
  apply List.in_map_iff in He as (e0 & <- & He0).
  apply decay_unseen_within.
  rewrite Forall_forall in Hfold. apply Hfold, list_elem_of_In, He0.
Qed.

Lemma filter_map_ids (p : Entity.t -> bool) (g : Entity.t -> Entity.t)
    (l : list Entity.t) :
  (forall e, Entity.id (g e) = Entity.id e) ->
  map Entity.id (List.filter p (map g l)) `sublist_of` map Entity.id l.
Proof.
  intros Hg. induction l as [|e l IH]; simpl; [constructor|].
  destruct (p (g e)); simpl.
  - rewrite Hg. apply sublist_skip, IH.
  - apply sublist_cons, IH.
Qed.

Lemma decay_unseen_id (mentions : list (string * Mention.t)) (e : Entity.t) :
  Entity.id (decay_unseen toLowerCase mentions e) = Entity.id e.
Proof. unfold decay_unseen. destruct (_ || _); reflexivity. Qed.

Lemma lasting_not_dead (mentions : list (string * Mention.t)) (now : R) (e : Entity.t) :
  lasting now e -> dead now (decay_unseen toLowerCase mentions e) = false.
Proof.
  intros Hl. unfold dead, decay_unseen.
  destruct (_ || _); cbn [with_strength Entity.strength Entity.lastSeen];
    destruct Hl as [Hs | Hseen].
  - unfold Num.leb. destruct (Rle_dec _ _); [lra | reflexivity].
  - unfold Num.gtb. destruct (Rlt_dec _ _); [lra | apply andb_false_r].
  - pose proof (Rmax_r 0 (Entity.strength e - 0.05)).
    unfold Num.leb. destruct (Rle_dec _ _); [lra | reflexivity].
  - unfold Num.gtb. destruct (Rlt_dec _ _); [lra | apply andb_false_r].
Qed.

Lemma lasting_kept (mentions : list (string * Mention.t)) (now : R) (e : Entity.t)
    (l : list Entity.t) :
  e ∈ l -> lasting now e ->
  Entity.id e
    ∈ map Entity.id
        (List.filter (fun e => negb (dead now e)) (map (decay_unseen toLowerCase mentions) l)).
Proof.
  intros Hin Hl. apply list_elem_of_fmap.
  exists (decay_unseen toLowerCase mentions e). split; [rewrite decay_unseen_id; reflexivity|].
  apply list_elem_of_In, List.filter_In. split.
  - apply List.in_map, list_elem_of_In, Hin.
  - rewrite (lasting_not_dead mentions now e Hl). reflexivity.
Qed.

(** What the loop over the mentions keeps: the tracker is the old entities,
    each with its id and still lasting if it was, followed by the new ones,
    which are strong; and the ids stay distinct. *)
Lemma mention_fold (now : R) (minAppearances : nat) (entities : list Entity.t)
    (mentions : list (string * Mention.t)) (olds news : list Entity.t) :
  Forall2 (fun e e' => Entity.id e' = Entity.id e /\ (lasting now e -> lasting now e'))
    entities olds ->
  Forall (fun e' => 0.3 <= Entity.strength e') news ->
  NoDup (map Entity.id (olds ++ news)) ->
  exists olds' news',
    fold_left (mention_step sanitize now minAppearances) mentions
      (olds ++ news, map Entity.id news)
    = (olds' ++ news', map Entity.id news')
    /\ Forall2 (fun e e' => Entity.id e' = Entity.id e /\ (lasting now e -> lasting now e'))
         entities olds'
    /\ Forall (fun e' => 0.3 <= Entity.strength e') news'
    /\ NoDup (map Entity.id (olds' ++ news')).
Proof.
  revert olds news.
  induction mentions as [|kd mentions IH]; intros olds news Ho Hn Hnd; simpl.
  - exists olds, news. auto.
  - unfold mention_step at 2. cbn [fst snd].
    destruct (skipped _ _ _); [apply IH; assumption|].
    set (eid := "entity_" +:+ sanitize (fst kd)).
    destruct (has eid (olds ++ news)) eqn:Hhas.
    + rewrite alter_first_app.
      destruct (has eid olds).
      * apply IH; [|exact Hn|].
        -- apply alter_first_Forall2; [|exact Ho].
           intros e0 e [Hid _]. split; [exact Hid|].
           intros _. right. simpl. lra.
        -- rewrite map_app, alter_first_ids by reflexivity.
           rewrite <- map_app. exact Hnd.
      * replace (map Entity.id news)
          with (map Entity.id (alter_first eid (seen_again now (snd kd)) news))
          by (apply alter_first_ids; reflexivity).
        apply IH; [exact Ho| |].
        -- apply alter_first_Forall; [|exact Hn].
           intros e He. simpl. apply Rmin_glb; lra.
        -- rewrite map_app, alter_first_ids by reflexivity.
           rewrite <- map_app. exact Hnd.
    + rewrite <- (assoc_L app).
      replace (map Entity.id news ++ [eid])
        with (map Entity.id (news ++ [created now eid (snd kd)]))
        by (rewrite map_app; reflexivity).
      apply IH; [exact Ho| |].
      * apply Forall_app. split; [exact Hn|].
        constructor; [apply created_within | constructor].
      * rewrite (assoc_L app), map_app. apply NoDup_app. split; [exact Hnd|]. split.
        -- intros x Hx Hx'. apply list_elem_of_singleton in Hx'. rewrite Hx' in Hx.
           apply has_elem in Hx. cbn [created Entity.id] in Hx.
           rewrite Hx in Hhas. discriminate.
        -- apply NoDup_singleton.
Qed.

(** [update] removes dead entities only.  With distinct ids in the tracker:
    the ids stay distinct; the tracker after the call holds, in order, old
    entities and then the new ones; every new entity is in the tracker and
    was not in it before; and an old entity whose strength is above 0.05,
    or that was seen within the last hour, is still tracked. *)
Theorem update_removes_only_dead (mentions : list (string * Mention.t)) (now : R)
    (minAppearances : nat) (entities : list Entity.t) :
  NoDup (map Entity.id entities) ->
  let res := update toLowerCase sanitize mentions now minAppearances entities in
  NoDup (map Entity.id (fst res))
  /\ map Entity.id (fst res) `sublist_of` (map Entity.id entities ++ snd res)
  /\ (forall eid, eid ∈ snd res ->
        eid ∈ map Entity.id (fst res) /\ eid ∉ map Entity.id entities)
  /\ (forall e, e ∈ entities -> lasting now e -> Entity.id e ∈ map Entity.id (fst res)).
Proof.
  intros Hnd. cbv zeta. unfold update. cbn [fst snd].
  destruct (mention_fold now minAppearances entities mentions entities [])
    as (olds & news & Hfold & Ho & Hn & Hnd').
  { clear Hnd. induction entities; constructor; auto. }
  { constructor. }
  { rewrite app_nil_r. exact Hnd. }
  rewrite app_nil_r in Hfold. simpl in Hfold. rewrite Hfold. cbn [fst snd].
  assert (Hids : map Entity.id olds = map Entity.id entities).
  { clear -Ho. induction Ho as [|e e' l l' [Hid _] Hl IH]; simpl; [reflexivity|].
    rewrite Hid, IH. reflexivity. }
  assert (Hsub : map Entity.id
                   (List.filter (fun e => negb (dead now e))
                      (map (decay_unseen toLowerCase mentions) (olds ++ news)))
                 `sublist_of` (map Entity.id entities ++ map Entity.id news)).
  { rewrite <- Hids, <- map_app. apply filter_map_ids, decay_unseen_id. }
  split; [|split; [exact Hsub|split]].
  - eapply sublist_NoDup; [|exact Hsub]. rewrite <- Hids, <- map_app. exact Hnd'.
  - intros eid Heid. apply list_elem_of_fmap in Heid as (e' & -> & He').
    split.
    + apply lasting_kept; [apply elem_of_app; right; exact He'|].
      left. rewrite Forall_forall in Hn. specialize (Hn _ He'). lra.
    + rewrite map_app in Hnd'. apply NoDup_app in Hnd' as (_ & Hdisj & _).
      intros Hin. rewrite <- Hids in Hin. apply (Hdisj _ Hin).
      apply list_elem_of_fmap. exists e'. auto.
  - intros e He Hl.
    apply list_elem_of_lookup in He as [i Hi].
    destruct (Forall2_lookup_l _ _ _ _ _ Ho Hi) as (e' & Hi' & Hid & Hl').
    rewrite <- Hid. apply lasting_kept; [|apply Hl', Hl].
    apply elem_of_app. left. eapply list_elem_of_lookup_2, Hi'.
Qed.
End Oracles.

Lemma update_keeps_bounds_witness :
  Forall entity_within
    (fst (update (fun s => s) sanitize_ascii sample_mentions 0 3 [Samples.settled])).
Proof.
  apply update_keeps_bounds.
  constructor; [|constructor]. unfold entity_within. simpl. split; [lra | lia].
Defined.

Lemma update_removes_only_dead_witness :
  NoDup (map Entity.id
           (fst (update (fun s => s) sanitize_ascii sample_mentions 0 3 [Samples.settled]))).
Proof.
  refine (proj1 (update_removes_only_dead (fun s => s) sanitize_ascii sample_mentions 0 3
                   [Samples.settled] _)).
  apply NoDup_singleton.
Defined.
End EntityMore.
